(** * tpf-archive: the forum converter and the private-message converter

    A shallow embedding of [converter/convert_forum.py] and
    [dm-converter/convert_dms.py], and the properties of their markup
    engine, slug generation, encoding repair, comment ordering, user
    chunking and incremental cache. *)

From Stdlib Require Import List NArith ZArith Lia Bool Arith String Ascii.
From Stdlib Require Decimal DecimalZ.
From Stdlib Require Import Sorted Permutation.
Import ListNotations.

(** ** Python values used by both programs *)

Module Py.

(** A Python [str] is a sequence of Unicode code points. *)
Definition cp := N.
Bind Scope N_scope with cp.
Definition pystr := list cp.

(** Literals.  [py] reads an ASCII literal; [pyq] is [py] with every
    backquote standing for the double quote U+0022. *)
Definition py (s : string) : pystr :=
  map N_of_ascii (list_ascii_of_string s).

Definition DQ : cp := 34%N.

Definition pyq (s : string) : pystr :=
  map (fun c => if N.eqb c 96 then DQ else c) (py s).

Definition CR : cp := 13%N.
Definition LF : cp := 10%N.

Fixpoint str_eqb (a b : pystr) : bool :=
  match a, b with
  | [], [] => true
  | x :: a', y :: b' => N.eqb x y && str_eqb a' b'
  | _, _ => false
  end.

(** [s.startswith(p)] *)
Fixpoint startswith (p s : pystr) : bool :=
  match p, s with
  | [], _ => true
  | x :: p', y :: s' => N.eqb x y && startswith p' s'
  | _ :: _, [] => false
  end.

(** [s.replace(old, new)]: the occurrences of [old] are found from the
    left and do not overlap.  [skip] counts the characters of a found
    occurrence that are still to be dropped. *)
Fixpoint replace_go (old new : pystr) (skip : nat) (s : pystr) : pystr :=
  match s with
  | [] => []
  | c :: t =>
      match skip with
      | S n => replace_go old new n t
      | O =>
          if startswith old s
          then new ++ replace_go old new (List.length old - 1) t
          else c :: replace_go old new 0 t
      end
  end.

Definition replace (old new s : pystr) : pystr :=
  match old with
  | [] => new ++ flat_map (fun c => c :: new) s
  | _ :: _ => replace_go old new 0 s
  end.

(** Truthiness of a string: [not text] holds of the empty string. *)
Definition str_truthy (s : pystr) : bool :=
  match s with [] => false | _ :: _ => true end.

(** [a <= b] on strings: lexicographic on code points. *)
Fixpoint str_leb (a b : pystr) : bool :=
  match a, b with
  | [], _ => true
  | _ :: _, [] => false
  | x :: a', y :: b' =>
      if N.ltb x y then true
      else if N.eqb x y then str_leb a' b' else false
  end.

(** *** Integers and their decimal text *)

Definition digit_cp (n : N) : cp := (48 + n)%N.

Fixpoint uint_digits (d : Decimal.uint) : pystr :=
  match d with
  | Decimal.Nil => []
  | Decimal.D0 d => digit_cp 0 :: uint_digits d
  | Decimal.D1 d => digit_cp 1 :: uint_digits d
  | Decimal.D2 d => digit_cp 2 :: uint_digits d
  | Decimal.D3 d => digit_cp 3 :: uint_digits d
  | Decimal.D4 d => digit_cp 4 :: uint_digits d
  | Decimal.D5 d => digit_cp 5 :: uint_digits d
  | Decimal.D6 d => digit_cp 6 :: uint_digits d
  | Decimal.D7 d => digit_cp 7 :: uint_digits d
  | Decimal.D8 d => digit_cp 8 :: uint_digits d
  | Decimal.D9 d => digit_cp 9 :: uint_digits d
  end.

(** [str(n)] for an [int]. *)
Definition str_of_int (z : Z) : pystr :=
  match Z.to_int z with
  | Decimal.Pos d => uint_digits d
  | Decimal.Neg d => 45%N :: uint_digits d
  end.

(** *** Dictionaries

    A [dict] keeps its keys in insertion order; assigning to a key that
    is present replaces the value in place. *)
Section Dict.
Variables K V : Type.
Variable eqb : K -> K -> bool.

Definition dict := list (K * V).

Fixpoint dict_get (k : K) (d : dict) : option V :=
  match d with
  | [] => None
  | (k', v) :: d' => if eqb k k' then Some v else dict_get k d'
  end.

Definition dict_mem (k : K) (d : dict) : bool :=
  match dict_get k d with Some _ => true | None => false end.

Fixpoint dict_set (k : K) (v : V) (d : dict) : dict :=
  match d with
  | [] => [(k, v)]
  | (k', v') :: d' =>
      if eqb k k' then (k', v) :: d' else (k', v') :: dict_set k v d'
  end.

Definition dict_keys (d : dict) : list K := map fst d.
End Dict.

Arguments dict_get {K V} eqb k d.
Arguments dict_mem {K V} eqb k d.
Arguments dict_set {K V} eqb k v d.
Arguments dict_keys {K V} d.

(** *** [list.sort(key=...)]

    The sort is stable and ascending in the key; it is modelled by the
    stable insertion of each element in turn. *)
Section Sort.
Variable A : Type.
Variable key : A -> pystr.

Fixpoint sort_insert (x : A) (l : list A) : list A :=
  match l with
  | [] => [x]
  | y :: l' =>
      if str_leb (key x) (key y) then x :: y :: l'
      else y :: sort_insert x l'
  end.

Fixpoint sort_by (l : list A) : list A :=
  match l with
  | [] => []
  | x :: l' => sort_insert x (sort_by l')
  end.
End Sort.

Arguments sort_insert {A} key x l.
Arguments sort_by {A} key l.

(** Ascending in the key. *)
Definition key_le {A : Type} (key : A -> pystr) (a b : A) : Prop :=
  str_leb (key a) (key b) = true.

(** The list a dictionary of lists holds for [k], empty when it has
    none. *)
Definition values_of {K V : Type} (eqb : K -> K -> bool) (k : K)
    (d : dict K (list V)) : list V :=
  match dict_get eqb k d with
  | Some l => l
  | None => []
  end.

(** *** Keys and identifiers

    IDs come from JSON: integers in the export, text once a regular
    expression has captured them.  An [int] never equals a [str]. *)
Inductive pykey :=
| KInt (z : Z)
| KStr (s : pystr).

Definition key_eqb (a b : pykey) : bool :=
  match a, b with
  | KInt x, KInt y => Z.eqb x y
  | KStr x, KStr y => str_eqb x y
  | _, _ => false
  end.

(** [str(k)], also what an f-string writes for [{k}]. *)
Definition key_str (k : pykey) : pystr :=
  match k with
  | KInt z => str_of_int z
  | KStr s => s
  end.

(** Truthiness of an ID: [0] and the empty string are false. *)
Definition key_truthy (k : pykey) : bool :=
  match k with
  | KInt z => negb (Z.eqb z 0)
  | KStr s => str_truthy s
  end.

(** Truthiness of an optional ID: [None] is false. *)
Definition opt_truthy (o : option pykey) : bool :=
  match o with
  | None => false
  | Some k => key_truthy k
  end.

(** [str(o)] of an optional ID. *)
Definition opt_str (o : option pykey) : pystr :=
  match o with
  | None => py "None"
  | Some k => key_str k
  end.

(** [if k not in d: d[k] = []] then [d[k].append(x)] *)
Definition dict_append {V : Type} (k : pykey) (x : V)
    (d : dict pykey (list V)) : dict pykey (list V) :=
  match dict_get key_eqb k d with
  | Some l => dict_set key_eqb k (l ++ [x]) d
  | None => dict_set key_eqb k [x] d
  end.

(** [range(start, stop, step)] for a positive step; no more than [stop]
    values can lie below [stop]. *)
Fixpoint range_go (fuel i stop step : nat) : list nat :=
  match fuel with
  | O => []
  | S fuel' =>
      if Nat.ltb i stop then i :: range_go fuel' (i + step) stop step else []
  end.

Definition range (start stop step : nat) : list nat :=
  range_go stop start stop step.

(** [enumerate(l)] *)
Definition enumerate {A : Type} (l : list A) : list (nat * A) :=
  combine (seq 0 (List.length l)) l.

(** [l[i:j]] for [0 <= i <= j] *)
Definition slice {A : Type} (l : list A) (i j : nat) : list A :=
  firstn (j - i) (skipn i l).

(** *** The values the [json] module reads and writes

    [pyval] is what [json.load] returns and [json.dump] accepts: a
    dictionary may be keyed by integers as well as by text.  [json] is
    the document, whose objects are keyed by text only.  Numbers are the
    integers; the export holds IDs, counts and text. *)
Set Warnings "-register-all".

Inductive pyval :=
| VNone
| VBool (b : bool)
| VInt (z : Z)
| VStr (s : pystr)
| VList (l : list pyval)
| VDict (d : list (pykey * pyval)).

Inductive json :=
| JNull
| JBool (b : bool)
| JNum (z : Z)
| JStr (s : pystr)
| JArr (l : list json)
| JObj (ms : list (pystr * json)).

(** [json.dump]: every key is written as text, an integer key [k] as
    [str(k)]. *)
Fixpoint json_dump (v : pyval) : json :=
  match v with
  | VNone => JNull
  | VBool b => JBool b
  | VInt z => JNum z
  | VStr s => JStr s
  | VList l => JArr (map json_dump l)
  | VDict d => JObj (map (fun kv => (key_str (fst kv), json_dump (snd kv))) d)
  end.

(** [json.load]: an object becomes a dictionary keyed by text; of two
    members with one name the later value stands. *)
Fixpoint json_load (j : json) : pyval :=
  match j with
  | JNull => VNone
  | JBool b => VBool b
  | JNum z => VInt z
  | JStr s => VStr s
  | JArr l => VList (map json_load l)
  | JObj ms =>
      VDict (fold_left
               (fun d kv => dict_set key_eqb (KStr (fst kv)) (snd kv) d)
               (map (fun kv => (fst kv, json_load (snd kv))) ms) [])
  end.

(** A value as [json.load] returns it: every dictionary inside is keyed
    by text, each key once. *)
Inductive native : pyval -> Prop :=
| native_none : native VNone
| native_bool (b : bool) : native (VBool b)
| native_int (z : Z) : native (VInt z)
| native_str (s : pystr) : native (VStr s)
| native_list (l : list pyval) : Forall native l -> native (VList l)
| native_dict (d : list (pykey * pyval)) :
    NoDup (map fst d) ->
    Forall (fun kv => (exists s, fst kv = KStr s) /\ native (snd kv)) d ->
    native (VDict d).

(** *** Character classes

    Below U+0080 the classes are fixed; above, they are those of the
    Unicode database the interpreter ships, which is a parameter. *)
Record unicode_db := {
  u_alnum : cp -> bool;        (* [str.isalnum] of one code point *)
  u_space : cp -> bool;        (* [str.isspace] of one code point *)
  u_decimal : cp -> option Z;  (* the value of a decimal digit, if it is one *)
  u_lower : pystr -> pystr     (* [str.lower] of a string that is not ASCII *)
}.

Definition is_ascii (c : cp) : bool := N.ltb c 128%N.

Definition between (lo hi c : cp) : bool := N.leb lo c && N.leb c hi.

Definition ascii_space (c : cp) : bool :=
  between 9 13 c || between 28 32 c.

Definition ascii_digit (c : cp) : bool := between 48 57 c.

Definition ascii_upper (c : cp) : bool := between 65 90 c.

Definition ascii_alnum (c : cp) : bool :=
  ascii_digit c || ascii_upper c || between 97 122 c.

(** Dropping the leading characters of a class. *)
Fixpoint lstrip_by (f : cp -> bool) (s : pystr) : pystr :=
  match s with
  | [] => []
  | c :: t => if f c then lstrip_by f t else s
  end.

Section Classes.
Variable db : unicode_db.

(** [\s] *)
Definition is_space (c : cp) : bool :=
  if is_ascii c then ascii_space c else u_space db c.

(** The value of a decimal digit. *)
Definition digit_value (c : cp) : option Z :=
  if is_ascii c
  then if ascii_digit c then Some (Z.of_N (c - 48)) else None
  else u_decimal db c.

(** [\d] *)
Definition is_digit (c : cp) : bool :=
  match digit_value c with Some _ => true | None => false end.

(** [\w] *)
Definition is_word (c : cp) : bool :=
  if is_ascii c then ascii_alnum c || N.eqb c 95%N else u_alnum db c.

(** [s.lower()] *)
Definition lower (s : pystr) : pystr :=
  if forallb is_ascii s
  then map (fun c => if ascii_upper c then N.add c 32 else c) s
  else u_lower db s.

(** [s.strip()] *)
Definition lstrip (s : pystr) : pystr := lstrip_by is_space s.

Definition rstrip (s : pystr) : pystr :=
  List.rev (lstrip_by is_space (List.rev s)).

Definition strip (s : pystr) : pystr := rstrip (lstrip s).

(** The whitespace [int] skips around a number: the C whitespace below
    U+0080, the Unicode whitespace above. *)
Definition int_space (c : cp) : bool :=
  if is_ascii c then between 9 13 c || N.eqb c 32%N else u_space db c.

Definition int_strip (s : pystr) : pystr :=
  List.rev (lstrip_by int_space (List.rev (lstrip_by int_space s))).

(** The digits of [int(s)]: decimal digits, single underscores
    between them.  [prev] tells that the last character was a digit. *)
Fixpoint parse_digits (s : pystr) (acc : Z) (prev : bool) : option Z :=
  match s with
  | [] => if prev then Some acc else None
  | c :: t =>
      match digit_value c with
      | Some d => parse_digits t (acc * 10 + d) true
      | None =>
          if N.eqb c 95%N && prev then parse_digits t acc false else None
      end
  end.

(** [int(s)] of a string: [None] stands for [ValueError]. *)
Definition int_of_str (s : pystr) : option Z :=
  match int_strip s with
  | 45%N :: t => option_map Z.opp (parse_digits t 0 false)
  | 43%N :: t => parse_digits t 0 false
  | t => parse_digits t 0 false
  end.
End Classes.

(** A database that knows no character above U+007F; it serves to run
    the programs on ASCII input. *)
Definition ascii_only : unicode_db :=
  {| u_alnum := fun _ => false;
     u_space := fun _ => false;
     u_decimal := fun _ => None;
     u_lower := fun s => s |}.


(** *** [list.sort(key=..., reverse=True)]

    Descending in the key and still stable: elements of one key keep
    their input order. *)
Fixpoint sort_insert_desc {A : Type} (key : A -> pystr) (x : A)
    (l : list A) : list A :=
  match l with
  | [] => [x]
  | y :: l' =>
      if str_leb (key y) (key x) then x :: y :: l'
      else y :: sort_insert_desc key x l'
  end.

Fixpoint sort_by_desc {A : Type} (key : A -> pystr) (l : list A) : list A :=
  match l with
  | [] => []
  | x :: l' => sort_insert_desc key x (sort_by_desc key l')
  end.

(** Descending in the key. *)
Definition key_ge {A : Type} (key : A -> pystr) (a b : A) : Prop :=
  str_leb (key b) (key a) = true.

End Py.

Import Py.
Arguments replace : simpl never.

(** ** The regular expressions of the [re] module that the converter uses

    A backtracking matcher in continuation-passing style: alternatives
    are tried in the order the engine tries them (a greedy repetition
    takes the longer match first, a lazy one the shorter), and the first
    success stands. *)

Module Re.

Inductive regex :=
| Eps
| Lit (p : pystr)                 (* literal text *)
| Cls (f : cp -> bool)            (* one character of a class; also [.] *)
| Cat (r1 r2 : regex)
| Opt (r : regex)                 (* [r?] *)
| Star (f : cp -> bool)           (* [c*] over a class, greedy *)
| Lazy (f : cp -> bool)           (* [c*?] over a class *)
| Grp (n : nat) (r : regex).      (* the n-th parenthesis *)

(** [c+] *)
Definition Plus (f : cp -> bool) : regex := Cat (Cls f) (Star f).

(** The text each group captured. *)
Definition caps := nat -> pystr.

Definition no_caps : caps := fun _ => [].

(** The groups of a match, given in order: [groups [g1; g2]] has
    [group(1) = g1] and [group(2) = g2]. *)
Definition groups (l : list pystr) : caps :=
  fun n => match n with O => [] | S i => nth i l [] end.

Definition set_group (n : nat) (v : pystr) (cs : caps) : caps :=
  fun m => if Nat.eqb m n then v else cs m.

(** A continuation receives the rest of the input, the number of
    characters consumed so far and the groups. *)
Definition cont := pystr -> nat -> caps -> option (caps * nat).

Fixpoint star_greedy (f : cp -> bool) (k : cont)
    (s : pystr) (pos : nat) (cs : caps) : option (caps * nat) :=
  match s with
  | c :: t =>
      if f c then
        match star_greedy f k t (S pos) cs with
        | Some m => Some m
        | None => k s pos cs
        end
      else k s pos cs
  | [] => k s pos cs
  end.

Fixpoint star_lazy (f : cp -> bool) (k : cont)
    (s : pystr) (pos : nat) (cs : caps) : option (caps * nat) :=
  match k s pos cs with
  | Some m => Some m
  | None =>
      match s with
      | c :: t => if f c then star_lazy f k t (S pos) cs else None
      | [] => None
      end
  end.

Fixpoint mtch (r : regex) (k : cont)
    (s : pystr) (pos : nat) (cs : caps) : option (caps * nat) :=
  match r with
  | Eps => k s pos cs
  | Lit p =>
      if startswith p s
      then k (skipn (List.length p) s) (pos + List.length p) cs
      else None
  | Cls f =>
      match s with
      | c :: t => if f c then k t (S pos) cs else None
      | [] => None
      end
  | Cat r1 r2 => mtch r1 (fun s' pos' cs' => mtch r2 k s' pos' cs') s pos cs
  | Opt r' =>
      match mtch r' k s pos cs with
      | Some m => Some m
      | None => k s pos cs
      end
  | Star f => star_greedy f k s pos cs
  | Lazy f => star_lazy f k s pos cs
  | Grp n r' =>
      mtch r'
        (fun s' pos' cs' => k s' pos' (set_group n (firstn (pos' - pos) s) cs'))
        s pos cs
  end.

(** A match of [r] at the start of [s]: the groups and the length. *)
Definition match_at (r : regex) (s : pystr) : option (caps * nat) :=
  mtch r (fun _ pos cs => Some (cs, pos)) s 0 no_caps.

(** [re.sub(r, repl, s)]: leftmost matches, not overlapping.  [skip]
    counts the characters of the current match still to be dropped. *)
Fixpoint sub_go (r : regex) (repl : caps -> pystr) (skip : nat) (s : pystr)
    : pystr :=
  match skip with
  | S n =>
      match s with
      | [] => []
      | _ :: t => sub_go r repl n t
      end
  | O =>
      match match_at r s with
      | Some (cs, S n) =>
          repl cs ++ match s with
                     | [] => []
                     | _ :: t => sub_go r repl n t
                     end
      | Some (cs, O) =>
          repl cs ++ match s with
                     | [] => []
                     | c :: t => c :: sub_go r repl 0 t
                     end
      | None =>
          match s with
          | [] => []
          | c :: t => c :: sub_go r repl 0 t
          end
      end
  end.

Definition sub (r : regex) (repl : caps -> pystr) (s : pystr) : pystr :=
  sub_go r repl 0 s.

Definition cons_head (c : cp) (ps : list pystr) : list pystr :=
  match ps with
  | [] => [[c]]
  | p :: ps' => (c :: p) :: ps'
  end.

(** [re.split(r, s)] for a pattern without groups that matches no empty
    string: the pieces between the matches. *)
Fixpoint split_go (r : regex) (skip : nat) (s : pystr) : list pystr :=
  match s with
  | [] => [[]]
  | c :: t =>
      match skip with
      | S n => split_go r n t
      | O =>
          match match_at r s with
          | Some (_, S n) => [] :: split_go r n t
          | _ => cons_head c (split_go r 0 t)
          end
      end
  end.

Definition split (r : regex) (s : pystr) : list pystr := split_go r 0 s.

(** The length of the longest prefix of [s] within the class [f]. *)
Fixpoint run_length (f : cp -> bool) (s : pystr) : nat :=
  match s with
  | [] => 0
  | c :: t => if f c then S (run_length f t) else 0
  end.

End Re.

Import Re.

(** ** The Windows-1252 repair table, as both programs write it *)

Definition windows_1252_table : list (cp * pystr) :=
  [ (0x80, [0x20AC]); (0x81, []);       (0x82, [0x201A]); (0x83, [0x0192]);
    (0x84, [0x201E]); (0x85, [0x2026]); (0x86, [0x2020]); (0x87, [0x2021]);
    (0x88, [0x02C6]); (0x89, [0x2030]); (0x8A, [0x0160]); (0x8B, [0x2039]);
    (0x8C, [0x0152]); (0x8D, []);       (0x8E, [0x017D]); (0x8F, []);
    (0x90, []);       (0x91, [0x2018]); (0x92, [0x2019]); (0x93, [0x201C]);
    (0x94, [0x201D]); (0x95, [0x2022]); (0x96, [0x2013]); (0x97, [0x2014]);
    (0x98, [0x02DC]); (0x99, [0x2122]); (0x9A, [0x0161]); (0x9B, [0x203A]);
    (0x9C, [0x0153]); (0x9D, []);       (0x9E, [0x017E]); (0x9F, [0x0178]) ]%N.

(** The loop [for win_char, unicode_char in mapping.items(): text =
    text.replace(win_char, unicode_char)]. *)
Definition replace_all (m : list (cp * pystr)) (text : pystr) : pystr :=
  fold_left (fun t wu => replace [fst wu] (snd wu) t) m text.

Definition keys_of (m : list (cp * pystr)) : list cp := map fst m.

(** Decidable form of: no replacement text contains a remapped character. *)
Definition outputs_avoid_keys (m : list (cp * pystr)) : bool :=
  forallb (fun wu =>
    forallb (fun c => negb (existsb (N.eqb c) (keys_of m))) (snd wu)) m.

Module DM.

Record message := {
  m_MessageID : pykey;            (* ['MessageID'] *)
  m_ConversationID : pykey;       (* ['ConversationID'] *)
  m_Body : pystr;                 (* ['Body'] *)
  m_InsertUserID : pykey;         (* ['InsertUserID'] *)
  m_DateInserted : pystr          (* ['DateInserted'] *)
}.

(** [self.messages] after [load_message_data], from [self_messages];
    [batches] are the message files in the order the directories yield
    them. *)
Definition load_message_data (self_messages : dict pykey (list message))
    (batches : list (list message)) : dict pykey (list message) :=
  let loaded :=
    fold_left (fun acc batch =>
                 fold_left (fun acc m => dict_append (m_ConversationID m) m acc)
                           batch acc)
              batches self_messages in
  map (fun kv => (fst kv, sort_by m_DateInserted (snd kv))) loaded.

Definition windows_1252_mapping := windows_1252_table.

Definition fix_windows_1252_encoding (text : pystr) : pystr :=
  if negb (str_truthy text) then text
  else replace_all windows_1252_mapping text.

(** The messages of conversation [k], and those stamped [ts]. *)
Definition in_conversation (k : pykey) (m : message) : bool :=
  key_eqb (m_ConversationID m) k.

Definition message_dated (ts : pystr) (m : message) : bool :=
  str_eqb (m_DateInserted m) ts.

(** The body of a message as the text files show it:
    [fix_windows_1252_encoding(message['Body'])], then
    [.replace('\r\n', '\n').replace('\r', '\n').strip()]. *)
Definition message_body (db : unicode_db) (body : pystr) : pystr :=
  let message_body := fix_windows_1252_encoding body in
  strip db (replace [CR] [LF] (replace [CR; LF] [LF] message_body)).

(** *** Conversations *)

Record conversation := {
  cv_ConversationID : pykey;          (* ['ConversationID'] *)
  cv_Contributors : list pykey        (* [.get('Contributors', [])] *)
}.

(** [self.conversations] after [load_conversation_data], from
    [self_conversations]; [batches] are the conversation files in the
    order the directory yields them. *)
Definition load_conversation_data
    (self_conversations : dict pykey conversation)
    (batches : list (list conversation)) : dict pykey conversation :=
  fold_left
    (fun acc conversations_batch =>
       fold_left (fun acc conversation =>
                    dict_set key_eqb (cv_ConversationID conversation)
                             conversation acc)
                 conversations_batch acc)
    batches self_conversations.

Section Conversations.
Variable self_conversations : dict pykey conversation.
Variable self_messages : dict pykey (list message).

(** [messages[-1]['DateInserted']] of [self.messages.get(conv_id, [])],
    or ["0000-00-00"] when there is no message. *)
Definition get_conversation_last_date (conv_id : pykey) : pystr :=
  let messages := values_of key_eqb conv_id self_messages in
  match messages with
  | [] => py "0000-00-00"
  | m :: _ => m_DateInserted (last messages m)
  end.

(** [user_id in contributors] *)
Definition contributes (user_id : pykey) (cv : conversation) : bool :=
  existsb (key_eqb user_id) (cv_Contributors cv).

Definition get_user_conversations (user_id : pykey) : list conversation :=
  let user_convos :=
    filter (contributes user_id) (map snd self_conversations) in
  sort_by_desc
    (fun x => get_conversation_last_date (cv_ConversationID x)) user_convos.
End Conversations.

End DM.

Module Forum.

(** *** The entity store of [PlushForumsConverter] *)

Record discussion := {
  d_Name : pystr;                 (* ['Name'] *)
  d_Body : pystr                  (* ['Body'] *)
}.

Record comment := {
  c_CommentID : pykey;            (* ['CommentID'] *)
  c_DiscussionID : pykey;         (* ['DiscussionID'] *)
  c_Body : pystr;                 (* ['Body'] *)
  c_InsertUserID : pykey;         (* ['InsertUserID'] *)
  c_DateInserted : pystr          (* ['DateInserted'] *)
}.

Record converter := {
  discussions : dict pykey discussion;      (* [self.discussions] *)
  comments : dict pykey (list comment);     (* [self.comments] *)
  members : dict pykey pystr                (* [self.members] *)
}.

Definition windows_1252_mapping := windows_1252_table.

Definition fix_windows_1252_encoding (text : pystr) : pystr :=
  if negb (str_truthy text) then text
  else replace_all windows_1252_mapping text.

Section Engine.
Variable db : unicode_db.

(** Character classes of the patterns. *)
Definition any : cp -> bool := fun _ => true.             (* [.] with DOTALL *)
Definition dot : cp -> bool := fun c => negb (N.eqb c LF). (* [.] *)
Definition none_of (l : list cp) : cp -> bool :=
  fun c => negb (existsb (N.eqb c) l).
Definition HYPHEN : cp := 45%N.
Definition SEMI : cp := 59%N.
Definition RBRACKET : cp := 93%N.

(** [[^\w\s-]] *)
Definition slug_junk (c : cp) : bool :=
  negb (is_word db c || is_space db c || N.eqb c HYPHEN).

(** [[-\s]] *)
Definition slug_sep (c : cp) : bool :=
  N.eqb c HYPHEN || is_space db c.

Definition generate_slug (title : pystr) : pystr :=
  let slug := sub (Cls slug_junk) (fun _ => []) (lower db title) in
  let slug := sub (Plus slug_sep) (fun _ => py "-") slug in
  firstn 50 slug.

Variable self : converter.

Definition _convert_reply_tag (m : caps)
    (current_discussion_id : option pykey) : pystr :=
  let username := m 1 in
  let target_id := m 2 in
  if startswith (py "d") target_id then
    let disc_id := skipn 1 target_id in
    if opt_truthy current_discussion_id
       && str_eqb disc_id (opt_str current_discussion_id)
    then pyq "<a href=`#discussion-top` class=`reply-link`>Reply to "
           ++ username ++ py "</a>"
    else
      match dict_get key_eqb (KStr disc_id) (discussions self) with
      | Some discussion =>
          let slug := generate_slug (d_Name discussion) in
          pyq "<a href=`/discussions/" ++ disc_id ++ py "-" ++ slug
            ++ pyq ".html` class=`reply-link`>Reply to "
            ++ username ++ py "</a>"
      | None =>
          pyq "<a href=`/discussions/" ++ disc_id
            ++ pyq "` class=`reply-link`>Reply to "
            ++ username ++ py "</a>"
      end
  else
    pyq "<a href=`#comment-" ++ target_id
      ++ pyq "` class=`reply-link`>Reply to " ++ username ++ py "</a>".

Definition _convert_complex_quote (m : caps)
    (current_discussion_id : option pykey) : pystr :=
  let username := m 1 in
  let target_id := m 2 in
  let quoted_content := m 3 in
  if startswith (py "d") target_id then
    let disc_id := skipn 1 target_id in
    if opt_truthy current_discussion_id
       && str_eqb disc_id (opt_str current_discussion_id)
    then pyq "<a href=`#discussion-top` class=`quote-link`>Quoting "
           ++ username ++ pyq "</a><blockquote class=`user-quote`>"
           ++ quoted_content ++ py "</blockquote>"
    else
      match dict_get key_eqb (KStr disc_id) (discussions self) with
      | Some discussion =>
          let slug := generate_slug (d_Name discussion) in
          pyq "<a href=`/discussions/" ++ disc_id ++ py "-" ++ slug
            ++ pyq ".html` class=`quote-link`>Quoting "
            ++ username ++ pyq "</a><blockquote class=`user-quote`>"
            ++ quoted_content ++ py "</blockquote>"
      | None =>
          pyq "<a href=`/discussions/" ++ disc_id
            ++ pyq "` class=`quote-link`>Quoting "
            ++ username ++ pyq "</a><blockquote class=`user-quote`>"
            ++ quoted_content ++ py "</blockquote>"
      end
  else
    pyq "<a href=`#comment-" ++ target_id
      ++ pyq "` class=`quote-link`>Quoting "
      ++ username ++ pyq "</a><blockquote class=`user-quote`>"
      ++ quoted_content ++ py "</blockquote>".

(** The loop [for uid, name in self.members.items(): if name ==
    username: user_id = uid; break], from [user_id = None]. *)
Fixpoint find_member (username : pystr) (ms : dict pykey pystr)
    : option pykey :=
  match ms with
  | [] => None
  | (uid, name) :: ms' =>
      if str_eqb name username then Some uid else find_member username ms'
  end.

Definition _convert_user_mention (m : caps) : pystr :=
  let username := m 1 in
  let user_id := find_member username (members self) in
  if opt_truthy user_id then
    pyq "<a href=`/members/" ++ opt_str user_id
      ++ pyq ".html` class=`user-mention`>@" ++ username ++ py "</a>"
  else
    pyq "<span class=`user-mention unknown`>@" ++ username ++ py "</span>".

(** [item = re.sub(r'<br>\s*', '', item); item = item.strip()] *)
Definition clean_item (item : pystr) : pystr :=
  let item := sub (Cat (Lit (py "<br>")) (Star (is_space db)))
                  (fun _ => []) item in
  strip db item.

(** The loop that fills [cleaned_items]. *)
Fixpoint clean_loop (list_items cleaned_items : list pystr) : list pystr :=
  match list_items with
  | [] => cleaned_items
  | item :: rest =>
      let item := clean_item item in
      if str_truthy item
      then clean_loop rest (cleaned_items ++ [item])
      else clean_loop rest cleaned_items
  end.

(** [''.join(f'<li>{item}</li>' for item in cleaned_items)] *)
Definition li_join (cleaned_items : list pystr) : pystr :=
  List.concat (map (fun item => py "<li>" ++ item ++ py "</li>") cleaned_items).

Definition _convert_ordered_list (m : caps) : pystr :=
  let list_type := m 1 in
  let list_content := m 2 in
  let list_items := split (Lit (py "[*]")) list_content in
  let cleaned_items := clean_loop list_items [] in
  let li_tags := li_join cleaned_items in
  if existsb (str_eqb list_type) [py "1"; py "a"; py "A"; py "i"; py "I"]
  then pyq "<ol type=`" ++ list_type ++ pyq "`>" ++ li_tags ++ py "</ol>"
  else py "<ol>" ++ li_tags ++ py "</ol>".

Definition _convert_unordered_list (m : caps) : pystr :=
  let list_content := m 1 in
  let list_items := split (Lit (py "[*]")) list_content in
  let cleaned_items := clean_loop list_items [] in
  let li_tags := li_join cleaned_items in
  py "<ul>" ++ li_tags ++ py "</ul>".

(** The patterns of [convert_plush_bbcode], in the order of use. *)
Definition re_reply : regex :=
  Cat (Lit (pyq "[reply=`"))
   (Cat (Grp 1 (Plus (none_of [DQ; SEMI])))
   (Cat (Lit (py ";"))
   (Cat (Grp 2 (Cat (Opt (Lit (py "d"))) (Plus (is_digit db))))
      (Lit (pyq "`]"))))).

Definition re_complex_quote : regex :=
  Cat (Lit (pyq "[quote=`"))
   (Cat (Grp 1 (Plus (none_of [DQ; SEMI])))
   (Cat (Lit (py ";"))
   (Cat (Grp 2 (Plus (none_of [DQ])))
   (Cat (Lit (pyq "`]"))
   (Cat (Grp 3 (Lazy any))
      (Lit (py "[/quote]"))))))).

Definition re_named_quote : regex :=
  Cat (Lit (pyq "[quote=`"))
   (Cat (Grp 1 (Plus (none_of [DQ])))
   (Cat (Lit (pyq "`]"))
   (Cat (Grp 2 (Lazy any))
      (Lit (py "[/quote]"))))).

(** [\[tag\](.*?)\[/tag\]] *)
Definition re_pair (open : pystr) (body : cp -> bool) (close : pystr)
    : regex :=
  Cat (Lit open) (Cat (Grp 1 (Lazy body)) (Lit close)).

Definition re_mention : regex :=
  Cat (Lit (pyq "@`")) (Cat (Grp 1 (Plus (none_of [DQ]))) (Lit (pyq "`"))).

Definition re_url_text : regex :=
  Cat (Lit (py "[url="))
   (Cat (Grp 1 (Lazy dot))
   (Cat (Lit (py "]"))
   (Cat (Grp 2 (Lazy dot))
      (Lit (py "[/url]"))))).

Definition re_ordered_list : regex :=
  Cat (Lit (py "[list="))
   (Cat (Grp 1 (Plus (none_of [RBRACKET])))
   (Cat (Lit (py "]"))
   (Cat (Grp 2 (Lazy any))
      (Lit (py "[/list]"))))).

(** [text.replace('\r\n', '\n').replace('\r', '\n')] *)
Definition normalize_newlines (text : pystr) : pystr :=
  replace [CR] [LF] (replace [CR; LF] [LF] text).

(** [text.replace('\n', '<br>\n')] *)
Definition insert_breaks (text : pystr) : pystr :=
  replace [LF] (py "<br>" ++ [LF]) text.

Definition convert_plush_bbcode (text : pystr)
    (current_discussion_id : option pykey) : pystr :=
  if negb (str_truthy text) then []
  else
    let text := normalize_newlines text in
    let text := insert_breaks text in
    (* reply tags *)
    let text :=
      sub re_reply
          (fun m => _convert_reply_tag m current_discussion_id) text in
    (* quotes with a user name and an ID *)
    let text :=
      sub re_complex_quote
          (fun m => _convert_complex_quote m current_discussion_id) text in
    (* quotes with a user name *)
    let text :=
      sub re_named_quote
          (fun m => pyq "<blockquote class=`user-quote`><cite>" ++ m 1
                      ++ py ":</cite>" ++ m 2 ++ py "</blockquote>") text in
    (* simple quotes *)
    let text :=
      sub (re_pair (py "[quote]") any (py "[/quote]"))
          (fun m => pyq "<blockquote class=`simple-quote`>" ++ m 1
                      ++ py "</blockquote>") text in
    (* user mentions *)
    let text := sub re_mention _convert_user_mention text in
    (* basic formatting *)
    let text :=
      sub (re_pair (py "[b]") dot (py "[/b]"))
          (fun m => py "<strong>" ++ m 1 ++ py "</strong>") text in
    let text :=
      sub (re_pair (py "[i]") dot (py "[/i]"))
          (fun m => py "<em>" ++ m 1 ++ py "</em>") text in
    let text :=
      sub (re_pair (py "[u]") dot (py "[/u]"))
          (fun m => py "<u>" ++ m 1 ++ py "</u>") text in
    (* links *)
    let text :=
      sub re_url_text
          (fun m => pyq "<a href=`" ++ m 1
                      ++ pyq "` class=`external-link`>" ++ m 2
                      ++ py "</a>") text in
    let text :=
      sub (re_pair (py "[url]") dot (py "[/url]"))
          (fun m => pyq "<a href=`" ++ m 1
                      ++ pyq "` class=`external-link`>" ++ m 1
                      ++ py "</a>") text in
    (* media embeds *)
    let text :=
      sub (re_pair (py "[media]") dot (py "[/media]"))
          (fun m => pyq "<div class=`media-embed`><a href=`" ++ m 1
                      ++ pyq "` target=`_blank`>" ++ [0x1F517%N]
                      ++ py " Media content</a></div>") text in
    (* images *)
    let text :=
      sub (re_pair (py "[img]") dot (py "[/img]"))
          (fun m => pyq "<img src=`" ++ m 1
                      ++ pyq "` alt=`User image` class=`user-image` loading=`lazy`>")
          text in
    (* code blocks *)
    let text :=
      sub (re_pair (py "[code]") any (py "[/code]"))
          (fun m => py "<pre><code>" ++ m 1 ++ py "</code></pre>") text in
    (* lists *)
    let text := sub re_ordered_list _convert_ordered_list text in
    let text :=
      sub (re_pair (py "[list]") any (py "[/list]"))
          _convert_unordered_list text in
    text.
End Engine.

(** *** Loading the comments *)

Definition with_Body (c : comment) (body : pystr) : comment :=
  {| c_CommentID := c_CommentID c;
     c_DiscussionID := c_DiscussionID c;
     c_Body := body;
     c_InsertUserID := c_InsertUserID c;
     c_DateInserted := c_DateInserted c |}.

(** The body of [for comment in comments_batch]. *)
Definition load_comment (self_discussions : dict pykey discussion)
    (self_comments : dict pykey (list comment)) (c : comment)
    : dict pykey (list comment) :=
  let disc_id := c_DiscussionID c in
  if negb (dict_mem key_eqb disc_id self_discussions) then self_comments
  else
    let c := with_Body c (fix_windows_1252_encoding (c_Body c)) in
    dict_append disc_id c self_comments.

(** [batches] are the comment files in the order the directories yield
    them, each an array of comments. *)
Definition _load_comments (self : converter) (batches : list (list comment))
    : converter :=
  let loaded :=
    fold_left (fun acc batch =>
                 fold_left (load_comment (discussions self)) batch acc)
              batches (comments self) in
  {| discussions := discussions self;
     comments :=
       map (fun kv => (fst kv, sort_by c_DateInserted (snd kv))) loaded;
     members := members self |}.

(** *** The user chunks *)

Record meta := {
  meta_id : pykey;
  meta_title : pystr;
  meta_date : pystr;
  meta_url : pystr;
  meta_author_id : pykey
}.

Record disc_entry := {
  de_id : pykey;
  de_title : pystr;
  de_date : pystr;
  de_url : pystr;
  de_excerpt : pystr
}.

Record comment_entry := {
  ce_id : pykey;
  ce_discussion_id : pykey;
  ce_discussion_title : pystr;
  ce_date : pystr;
  ce_url : pystr;
  ce_excerpt : pystr
}.

Record user_data := {
  ud_username : pystr;
  ud_discussions : list disc_entry;
  ud_comments : list comment_entry
}.

(** What a written file holds: the data of a chunk or the chunk mapping. *)
Inductive file :=
| ChunkFile (chunk_data : dict pykey user_data)
| MappingFile (user_chunks : dict pykey nat).

(** The output tree: path below [output_path] to content; [open(p, 'w')]
    creates or overwrites. *)
Definition files := dict pystr file.

Definition write (path : pystr) (f : file) (fs : files) : files :=
  dict_set str_eqb path f fs.

Definition chunk_size : nat := 50.

Definition chunk_path (chunk_num : nat) : pystr :=
  py "assets/user-chunks/chunk-" ++ str_of_int (Z.of_nat chunk_num)
    ++ py ".js".

Definition mapping_path : pystr := py "assets/js/user-chunk-mapping.js".

(** [body[:n] + '...' if len(body) > n else body] *)
Definition excerpt (n : nat) (body : pystr) : pystr :=
  if Nat.ltb n (List.length body) then firstn n body ++ py "..." else body.

Section Chunks.
Variable db : unicode_db.
Variable self : converter.

Definition get_username (user_id : pykey) : pystr :=
  match dict_get key_eqb user_id (members self) with
  | Some name => name
  | None => py "User " ++ key_str user_id
  end.

(** The loop over [discussions_meta]; [None] stands for the [KeyError]
    of [self.discussions[disc['id']]]. *)
Fixpoint build_user_discussions (discussions_meta : list meta)
    (user_discussions : dict pykey (list disc_entry))
    : option (dict pykey (list disc_entry)) :=
  match discussions_meta with
  | [] => Some user_discussions
  | disc :: rest =>
      let user_id := meta_author_id disc in
      match dict_get key_eqb (meta_id disc) (discussions self) with
      | None => None
      | Some discussion =>
          build_user_discussions rest
            (dict_append user_id
               {| de_id := meta_id disc;
                  de_title := meta_title disc;
                  de_date := meta_date disc;
                  de_url := meta_url disc;
                  de_excerpt := excerpt 200 (d_Body discussion) |}
               user_discussions)
      end
  end.

Definition comment_entry_of (disc_id : pykey) (c : comment)
    : comment_entry :=
  let disc_title :=
    match dict_get key_eqb disc_id (discussions self) with
    | Some discussion => d_Name discussion
    | None => py "Unknown Discussion"
    end in
  {| ce_id := c_CommentID c;
     ce_discussion_id := disc_id;
     ce_discussion_title := disc_title;
     ce_date := c_DateInserted c;
     ce_url := py "/discussions/" ++ key_str disc_id ++ py "-"
                 ++ generate_slug db disc_title ++ py ".html#comment-"
                 ++ key_str (c_CommentID c);
     ce_excerpt := excerpt 150 (c_Body c) |}.

(** The loop over [self.comments.items()]. *)
Definition build_user_comments : dict pykey (list comment_entry) :=
  fold_left
    (fun acc kv =>
       fold_left
         (fun acc c =>
            dict_append (c_InsertUserID c) (comment_entry_of (fst kv) c) acc)
         (snd kv) acc)
    (comments self) [].

Definition dict_get_default {V : Type} (k : pykey)
    (d : dict pykey (list V)) : list V :=
  match dict_get key_eqb k d with
  | Some l => l
  | None => []
  end.

Variable user_discussions : dict pykey (list disc_entry).
Variable user_comments : dict pykey (list comment_entry).

(** The [user_data] of [for user_id in chunk_user_ids]. *)
Definition user_data_of (user_id : pykey) : user_data :=
  let username := get_username user_id in
  {| ud_username := username;
     ud_discussions := dict_get_default user_id user_discussions;
     ud_comments := dict_get_default user_id user_comments |}.

(** The body of [for user_id in chunk_user_ids], on the pair
    [(chunk_data, user_chunks)]. *)
Definition chunk_user (chunk_num : nat)
    (st : dict pykey user_data * dict pykey nat) (user_id : pykey)
    : dict pykey user_data * dict pykey nat :=
  let user_data := user_data_of user_id in
  (dict_set key_eqb user_id user_data (fst st),
   dict_set key_eqb user_id chunk_num (snd st)).

(** The body of [for chunk_num, i in enumerate(range(...))], on the
    pair of the output tree and [user_chunks]. *)
Definition chunk_step (all_users : list pykey)
    (st : files * dict pykey nat) (ni : nat * nat)
    : files * dict pykey nat :=
  let chunk_num := fst ni in
  let i := snd ni in
  let chunk_user_ids := slice all_users i (i + chunk_size) in
  let filled :=
    fold_left (chunk_user chunk_num) chunk_user_ids ([], snd st) in
  (write (chunk_path chunk_num) (ChunkFile (fst filled)) (fst st),
   snd filled).

Definition chunk_users (fs : files) : files :=
  let all_users := dict_keys (members self) in
  let st :=
    fold_left (chunk_step all_users)
      (enumerate (range 0 (List.length all_users) chunk_size))
      (fs, []) in
  write mapping_path (MappingFile (snd st)) (fst st).
End Chunks.

Definition generate_user_data_chunks (db : unicode_db) (self : converter)
    (discussions_meta : list meta) (fs : files) : option files :=
  match build_user_discussions self discussions_meta [] with
  | None => None
  | Some user_discussions =>
      let user_comments := build_user_comments db self in
      Some (chunk_users self user_discussions user_comments fs)
  end.

(** *** The incremental cache

    The four maps are written as they are: the cache sees an entity as
    the JSON value the export gave, whatever its fields. *)

Record entity_maps := {
  em_discussions : dict pykey pyval;
  em_comments : dict pykey pyval;
  em_members : dict pykey pyval;
  em_categories : dict pykey pyval
}.

(** The directory [processed_data]: its four files, when they exist. *)
Record processed_data := {
  discussions_json : option json;
  comments_json : option json;
  members_json : option json;
  categories_json : option json
}.

Definition _save_processed_data (self : entity_maps) : processed_data :=
  {| discussions_json := Some (json_dump (VDict (em_discussions self)));
     comments_json := Some (json_dump (VDict (em_comments self)));
     members_json := Some (json_dump (VDict (em_members self)));
     categories_json := Some (json_dump (VDict (em_categories self))) |}.

Section Load.
Variable db : unicode_db.

(** [int(k)] of a key. *)
Definition int_of_key (k : pykey) : option Z :=
  match k with
  | KInt z => Some z
  | KStr s => int_of_str db s
  end.

(** [{int(k): v for k, v in data.items()}]; [None] stands for the
    exception that makes the load return [False]. *)
Fixpoint int_keys (items : list (pykey * pyval)) (acc : dict pykey pyval)
    : option (dict pykey pyval) :=
  match items with
  | [] => Some acc
  | (k, v) :: rest =>
      match int_of_key k with
      | Some z => int_keys rest (dict_set key_eqb (KInt z) v acc)
      | None => None
      end
  end.

Definition load_map (f : option json) : option (dict pykey pyval) :=
  match f with
  | None => None
  | Some j =>
      match json_load j with
      | VDict d => int_keys d []
      | _ => None
      end
  end.

(** [None] stands for the result [False]. *)
Definition _load_processed_data (data_dir : option processed_data)
    : option entity_maps :=
  match data_dir with
  | None => None
  | Some dir =>
      match load_map (discussions_json dir) with
      | None => None
      | Some ds =>
      match load_map (comments_json dir) with
      | None => None
      | Some cs =>
      match load_map (members_json dir) with
      | None => None
      | Some ms =>
      match load_map (categories_json dir) with
      | None => None
      | Some cats =>
          Some {| em_discussions := ds;
                  em_comments := cs;
                  em_members := ms;
                  em_categories := cats |}
      end end end end
  end.
End Load.

(** *** The link forms of a reply and of a quote, named *)

Definition reply_link (href username : pystr) : pystr :=
  pyq "<a href=`" ++ href ++ pyq "` class=`reply-link`>Reply to "
    ++ username ++ py "</a>".

Definition quote_link (href username quoted_content : pystr) : pystr :=
  pyq "<a href=`" ++ href ++ pyq "` class=`quote-link`>Quoting "
    ++ username ++ pyq "</a><blockquote class=`user-quote`>"
    ++ quoted_content ++ py "</blockquote>".

Definition top_anchor : pystr := py "#discussion-top".

(** [/discussions/<id>-<slug>.html] *)
Definition discussion_url (disc_id slug : pystr) : pystr :=
  py "/discussions/" ++ disc_id ++ py "-" ++ slug ++ py ".html".

(** [/discussions/<id>] *)
Definition bare_discussion_url (disc_id : pystr) : pystr :=
  py "/discussions/" ++ disc_id.

(** Every key of the map is an integer, as the export and the cache
    give them. *)
Definition int_keyed {V : Type} (d : dict pykey V) : Prop :=
  Forall (fun kv => exists z, fst kv = KInt z) d.

Definition mention_link (user_id username : pystr) : pystr :=
  pyq "<a href=`/members/" ++ user_id ++ pyq ".html` class=`user-mention`>@"
    ++ username ++ py "</a>".

Definition unknown_mention (username : pystr) : pystr :=
  pyq "<span class=`user-mention unknown`>@" ++ username ++ py "</span>".

(** *** Slugs and lists, in the words of the specification *)

Section Words.
Variable db : unicode_db.

(** A character that is a word character, whitespace or a hyphen. *)
Definition slug_char (c : cp) : bool :=
  is_word db c || is_space db c || N.eqb c HYPHEN.

(** Every run of whitespace and hyphens becomes one hyphen; [in_run]
    tells that the run has begun. *)
Fixpoint collapse_runs (in_run : bool) (s : pystr) : pystr :=
  match s with
  | [] => []
  | c :: t =>
      if slug_sep db c
      then if in_run then collapse_runs true t
           else HYPHEN :: collapse_runs true t
      else c :: collapse_runs false t
  end.

(** No two hyphens side by side. *)
Fixpoint single_hyphens (s : pystr) : bool :=
  match s with
  | [] => true
  | a :: t =>
      match t with
      | [] => true
      | b :: _ => negb (N.eqb a HYPHEN && N.eqb b HYPHEN) && single_hyphens t
      end
  end.

(** The items of a list block that are not empty once the break
    markers are removed and the whitespace is trimmed. *)
Definition kept_items (list_content : pystr) : list pystr :=
  filter str_truthy
    (map (clean_item db) (split (Lit (py "[*]")) list_content)).
End Words.

(** The style tokens [_convert_ordered_list] knows. *)
Definition known_styles : list pystr :=
  [py "1"; py "a"; py "A"; py "i"; py "I"].

(** *** Plain text, in the words of the specification *)

(** [p in s] *)
Fixpoint occurs (p s : pystr) : bool :=
  startswith p s
  || match s with
     | [] => false
     | _ :: t => occurs p t
     end.

(** The opening forms of the markup: the bracketed tags and the quoted
    mention. *)
Definition tag_openers : list pystr :=
  [ pyq "[reply=`"; pyq "[quote=`"; py "[quote]"; pyq "@`";
    py "[b]"; py "[i]"; py "[u]"; py "[url="; py "[url]";
    py "[media]"; py "[img]"; py "[code]"; py "[list="; py "[list]" ].

(** A body without forum markup: none of the opening forms occurs. *)
Definition no_markup (text : pystr) : bool :=
  forallb (fun p => negb (occurs p text)) tag_openers.

(** The break marker and the line break after it. *)
Definition BR : pystr := py "<br>" ++ [LF].

(** Line-break normalization: each CR LF, each lone CR and each LF
    becomes one break marker followed by a line break.  [after_cr] tells
    that the character before was a CR. *)
Fixpoint break_lines (after_cr : bool) (s : pystr) : pystr :=
  match s with
  | [] => []
  | c :: t =>
      if N.eqb c CR then BR ++ break_lines true t
      else if N.eqb c LF then
        if after_cr then break_lines false t
        else BR ++ break_lines false t
      else c :: break_lines false t
  end.

(** An opening form: it begins with a bracket or an at sign and holds no
    CR, no LF and no [<]. *)
Definition opener (p : pystr) : bool :=
  match p with
  | [] => false
  | x :: _ => N.eqb x 91 || N.eqb x 64
  end
  && forallb (fun c => negb (N.eqb c CR || N.eqb c LF || N.eqb c 60)) p.

(** *** Comment loading, in the words of the specification *)

(** The comments that are kept, in input order: those of a discussion
    in the store, with the body repaired. *)
Definition kept_comments (self : converter) (batches : list (list comment))
    : list comment :=
  map (fun c => with_Body c (fix_windows_1252_encoding (c_Body c)))
      (filter (fun c => dict_mem key_eqb (c_DiscussionID c) (discussions self))
              (List.concat batches)).

(** The comments of discussion [k], and those stamped [ts]. *)
Definition in_discussion (k : pykey) (c : comment) : bool :=
  key_eqb (c_DiscussionID c) k.

Definition comment_dated (ts : pystr) (c : comment) : bool :=
  str_eqb (c_DateInserted c) ts.

(** The converter as [__init__] leaves it, with the discussions and the
    members loaded. *)
Definition loaded (ds : dict pykey discussion) (ms : dict pykey pystr)
    : converter :=
  {| discussions := ds; comments := []; members := ms |}.

(** *** The cache, in the words of the specification *)

(** A map of the entity store that the cache can hold: keyed by
    integers, each key once, its values JSON values. *)
Definition cacheable_map (d : dict pykey pyval) : Prop :=
  int_keyed d /\ NoDup (dict_keys d) /\ Forall (fun kv => native (snd kv)) d.

Definition cacheable (self : entity_maps) : Prop :=
  cacheable_map (em_discussions self)
  /\ cacheable_map (em_comments self)
  /\ cacheable_map (em_members self)
  /\ cacheable_map (em_categories self).

(** *** The user chunks, in the words of the specification *)

(** An entry of the output tree that is a chunk file. *)
Definition is_chunk_file (pf : pystr * file) : bool :=
  match snd pf with
  | ChunkFile _ => true
  | MappingFile _ => false
  end.

(** The smallest number of chunks of 50 that hold [n] members. *)
Definition chunk_count (n : nat) : nat := (n + 49) / 50.

(** *** Loading the members *)

(** A member file: [None] when it cannot be read as JSON, otherwise its
    ['UserID'] and its ['Name'], each when present. *)
Definition member_file := option (option pykey * option pystr).

(** The body of [for json_file in member_files]: a file without an ID
    or without a name is counted as an error and skipped. *)
Definition load_member (self_members : dict pykey pystr) (f : member_file)
    : dict pykey pystr :=
  match f with
  | Some (Some user_id, Some username) =>
      dict_set key_eqb user_id username self_members
  | _ => self_members
  end.

Definition load_member_data (self : converter) (member_files : list member_file)
    : converter :=
  {| discussions := discussions self;
     comments := comments self;
     members := fold_left load_member member_files (members self) |}.

(** *** The user search index *)

Record search_index := {
  si_usernames : dict pystr pykey;      (* ['usernames'] *)
  si_post_counts : dict pykey nat;      (* ['post_counts'] *)
  si_total_users : nat                  (* ['total_users'] *)
}.

(** [counts[user_id] = counts.get(user_id, 0) + 1] *)
Definition count_post (counts : dict pykey nat) (user_id : pykey)
    : dict pykey nat :=
  let n := match dict_get key_eqb user_id counts with
           | Some n => n
           | None => 0
           end in
  dict_set key_eqb user_id (n + 1) counts.

(** The index written to [user-search-index.js]. *)
Definition generate_user_search_index (db : unicode_db) (self : converter)
    (discussions_meta : list meta) : search_index :=
  let user_post_counts :=
    fold_left (fun counts disc => count_post counts (meta_author_id disc))
              discussions_meta [] in
  let user_post_counts :=
    fold_left
      (fun counts kv =>
         fold_left (fun counts c => count_post counts (c_InsertUserID c))
                   (snd kv) counts)
      (comments self) user_post_counts in
  let usernames :=
    fold_left (fun us kv => dict_set str_eqb (lower db (snd kv)) (fst kv) us)
              (members self) [] in
  {| si_usernames := usernames;
     si_post_counts := user_post_counts;
     si_total_users := List.length usernames |}.

(** *** The homepage *)

(** [prev_url], when the previous link is live. *)
Definition prev_url (current_page : nat) : option pystr :=
  if Nat.ltb 0 current_page then
    Some (if Nat.eqb current_page 1 then py "/index.html"
          else py "/page-" ++ str_of_int (Z.of_nat current_page)
                 ++ py ".html")
  else None.

(** [next_url], when the next link is live. *)
Definition next_url (current_page total_pages : nat) : option pystr :=
  if Nat.ltb current_page (total_pages - 1) then
    Some (py "/page-" ++ str_of_int (Z.of_nat (current_page + 2))
            ++ py ".html")
  else None.

Definition LARROW : cp := 0x2190%N.
Definition RARROW : cp := 0x2192%N.

Definition generate_pagination_html (current_page total_pages : nat)
    : pystr :=
  let pagination_html := pyq "<div class=`pagination`>" in
  let pagination_html :=
    match prev_url current_page with
    | Some prev_url =>
        pagination_html ++ pyq "<a href=`" ++ prev_url
          ++ pyq "` class=`pagination-arrow`>" ++ [LARROW]
          ++ py " Previous</a> "
    | None =>
        pagination_html ++ pyq "<span class=`pagination-arrow disabled`>"
          ++ [LARROW] ++ py " Previous</span> "
    end in
  let pagination_html :=
    pagination_html ++ pyq "<span class=`page-info`>Page "
      ++ str_of_int (Z.of_nat (current_page + 1)) ++ py " of "
      ++ str_of_int (Z.of_nat total_pages) ++ py "</span>" in
  let pagination_html :=
    match next_url current_page total_pages with
    | Some next_url =>
        pagination_html ++ pyq " <a href=`" ++ next_url
          ++ pyq "` class=`pagination-arrow`>Next " ++ [RARROW]
          ++ py "</a>"
    | None =>
        pagination_html ++ pyq " <span class=`pagination-arrow disabled`>Next "
          ++ [RARROW] ++ py "</span>"
    end in
  pagination_html ++ py "</div>".

(** ["index.html" if page_num == 0 else f"page-{page_num + 1}.html"] *)
Definition page_filename (page_num : nat) : pystr :=
  if Nat.eqb page_num 0 then py "index.html"
  else py "page-" ++ str_of_int (Z.of_nat (page_num + 1)) ++ py ".html".

(** What one page of the homepage is rendered from: the values handed
    to the templates, which are files of their own. *)
Record homepage_page := {
  hp_title : pystr;                     (* [title] of the layout *)
  hp_total_discussions : nat;
  hp_top_pagination : pystr;
  hp_bottom_pagination : pystr;
  hp_start_idx : nat;
  hp_end_idx : nat;
  hp_page_discussions : list meta       (* rendered into [discussions_list] *)
}.

(** The body of [for page_num in range(total_pages)]. *)
Definition homepage_step (page_size total_pages : nat)
    (discussions_meta : list meta) (fs : dict pystr homepage_page)
    (page_num : nat) : dict pystr homepage_page :=
  let start_idx := page_num * page_size in
  let end_idx := start_idx + page_size in
  let page_discussions := slice discussions_meta start_idx end_idx in
  dict_set str_eqb (page_filename page_num)
    {| hp_title := py "Page " ++ str_of_int (Z.of_nat (page_num + 1));
       hp_total_discussions := List.length discussions_meta;
       hp_top_pagination := generate_pagination_html page_num total_pages;
       hp_bottom_pagination := generate_pagination_html page_num total_pages;
       hp_start_idx := start_idx + 1;
       hp_end_idx := Nat.min end_idx (List.length discussions_meta);
       hp_page_discussions := page_discussions |}
    fs.

(** The pages written below [output_path], and [discussions_meta] as the
    call leaves it: the list is sorted in place.  [page_size] is
    [config['homepage_page_size']]; [None] stands for the
    [ZeroDivisionError] of a page size 0. *)
Definition generate_homepage (page_size : nat) (discussions_meta : list meta)
    (fs : dict pystr homepage_page)
    : option (dict pystr homepage_page * list meta) :=
  let discussions_meta := sort_by_desc meta_date discussions_meta in
  if Nat.eqb page_size 0 then None
  else
    let total_pages :=
      (List.length discussions_meta + page_size - 1) / page_size in
    Some (fold_left (homepage_step page_size total_pages discussions_meta)
                    (range 0 total_pages 1) fs,
          discussions_meta).

(** *** The category list of the search page *)

Record category := {
  cat_Name : pystr                      (* ['Name'] *)
}.

Record category_item := {
  ci_id : pykey;                        (* ['id'] *)
  ci_name : pystr                       (* ['name'] *)
}.

(** The two categories the list leaves out. *)
Definition hidden_category (name : pystr) : bool :=
  str_eqb name (py "Moderators") || str_eqb name (py "Editors: Private Group").

(** The loop over [self.categories.items()]. *)
Fixpoint collect_categories (cats : dict pykey category)
    (categories_list : list category_item) : list category_item :=
  match cats with
  | [] => categories_list
  | (cat_id, cat_info) :: rest =>
      if hidden_category (cat_Name cat_info)
      then collect_categories rest categories_list
      else collect_categories rest
             (categories_list
                ++ [{| ci_id := cat_id; ci_name := cat_Name cat_info |}])
  end.

(** [categories_list], sorted by name. *)
Definition search_categories (self_categories : dict pykey category)
    : list category_item :=
  sort_by ci_name (collect_categories self_categories []).

(** [{cat['id']: cat['name'] for cat in categories_list}] *)
Definition category_lookup (categories_list : list category_item)
    : dict pykey pystr :=
  fold_left (fun d cat => dict_set key_eqb (ci_id cat) (ci_name cat) d)
            categories_list [].

(** *** Loading the discussions *)

(** What the loader reads and writes of a discussion's JSON object:
    [None] stands for a key that is absent.  The renderer and the chunk
    generator see a stored discussion through its name and its body
    only ([discussion]). *)
Record discussion_json := {
  dj_DiscussionID : option pykey;       (* ['DiscussionID'] *)
  dj_CategoryID : option pykey;         (* [.get('CategoryID')] *)
  dj_Name : option pystr;               (* ['Name'] *)
  dj_Body : option pystr;               (* ['Body'] *)
  dj_CategoryName : option pystr        (* ['CategoryName'] *)
}.

(** The name of a category of the store, which has one, or
    [Uncategorized]. *)
Definition get_category_name (self_categories : dict pykey category)
    (category_id : option pykey) : pystr :=
  match category_id with
  | Some k =>
      match dict_get key_eqb k self_categories with
      | Some cat => cat_Name cat
      | None => py "Uncategorized"
      end
  | None => py "Uncategorized"
  end.

(** [category_id in excluded_categories] *)
Definition excluded (excluded_categories : list pykey)
    (category_id : option pykey) : bool :=
  match category_id with
  | Some k => existsb (key_eqb k) excluded_categories
  | None => false
  end.

(** The body of [for json_file in batch_dir.glob("*.json")]; [f] is
    [None] for a file that is no JSON.  Every exception is caught and
    leaves the store as it was: that of the missing ['DiscussionID'],
    and, for an excluded discussion, that of the counter of a category
    other than 21 and 22. *)
Definition load_discussion (excluded_categories : list pykey)
    (self_categories : dict pykey category)
    (self_discussions : dict pykey discussion_json)
    (f : option discussion_json) : dict pykey discussion_json :=
  match f with
  | None => self_discussions
  | Some discussion =>
      let body := option_map fix_windows_1252_encoding (dj_Body discussion) in
      let name := option_map fix_windows_1252_encoding (dj_Name discussion) in
      let category_id := dj_CategoryID discussion in
      if excluded excluded_categories category_id then self_discussions
      else
        let category_name := get_category_name self_categories category_id in
        match dj_DiscussionID discussion with
        | None => self_discussions
        | Some discussion_id =>
            dict_set key_eqb discussion_id
              {| dj_DiscussionID := dj_DiscussionID discussion;
                 dj_CategoryID := category_id;
                 dj_Name := name;
                 dj_Body := body;
                 dj_CategoryName := Some category_name |}
              self_discussions
        end
  end.

(** [files] are the discussion files in the order the directories
    yield them. *)
Definition _load_discussions (excluded_categories : list pykey)
    (self_categories : dict pykey category)
    (self_discussions : dict pykey discussion_json)
    (files : list (option discussion_json)) : dict pykey discussion_json :=
  fold_left (load_discussion excluded_categories self_categories)
            files self_discussions.

(** *** The category name on the search page *)

(** [category_name] of [generate_search_page], for the
    [discussion.get('CategoryID')] of a discussion. *)
Definition search_category_name (self_categories : dict pykey category)
    (category_id : option pykey) : pystr :=
  let category_name := py "Uncategorized" in
  match category_id with
  | Some k =>
      if key_truthy k then
        match dict_get key_eqb k self_categories with
        | Some cat => cat_Name cat
        | None => category_name
        end
      else category_name
  | None => category_name
  end.

(** *** Properties read off the source: helpers *)

(** A character the Windows-1252 repair remaps. *)
Definition remapped (c : cp) : bool := between 0x80 0x9F c.

(** The literal text a pattern ends with, when it ends with one. *)
Fixpoint final_literal (r : regex) : option pystr :=
  match r with
  | Lit p => Some p
  | Cat _ r2 => final_literal r2
  | _ => None
  end.

(** The literal text each pattern of [convert_plush_bbcode] begins and
    ends with. *)
Definition tag_pairs : list (pystr * pystr) :=
  [ (pyq "[reply=`", pyq "`]"); (pyq "[quote=`", py "[/quote]");
    (py "[quote]", py "[/quote]"); (pyq "@`", pyq "`");
    (py "[b]", py "[/b]"); (py "[i]", py "[/i]"); (py "[u]", py "[/u]");
    (py "[url=", py "[/url]"); (py "[url]", py "[/url]");
    (py "[media]", py "[/media]"); (py "[img]", py "[/img]");
    (py "[code]", py "[/code]"); (py "[list=", py "[/list]");
    (py "[list]", py "[/list]") ].

(** A body in which no tag is complete: of every pattern the opening
    text or the closing text does not occur. *)
Definition no_tag_pair (text : pystr) : bool :=
  forallb (fun oc => negb (occurs (fst oc) text && occurs (snd oc) text))
          tag_pairs.

(** The well-formed files among [member_files], as ID and name. *)
Definition well_formed_members (member_files : list member_file)
    : list (pykey * pystr) :=
  flat_map (fun f => match f with
                     | Some (Some user_id, Some username) =>
                         [(user_id, username)]
                     | _ => []
                     end) member_files.

End Forum.

(** ** Sample data *)

Module Sample.

Definition hello : Forum.discussion :=
  {| Forum.d_Name := py "Hello, World!"; Forum.d_Body := py "First post" |}.

(** One discussion, ID 10; members 0, 7 and 8. *)
Definition store : Forum.converter :=
  {| Forum.discussions := [(KInt 10%Z, hello)];
     Forum.comments := [];
     Forum.members :=
       [(KInt 0%Z, py "Zed"); (KInt 7%Z, py "Bob"); (KInt 8%Z, py "Ann")] |}.

(** The four maps of a small forum, as the export gives them. *)
Definition maps : Forum.entity_maps :=
  {| Forum.em_discussions :=
       [(KInt 10%Z,
         VDict [(KStr (py "DiscussionID"), VInt 10%Z);
                (KStr (py "Name"), VStr (py "Hello, World!"));
                (KStr (py "CategoryID"), VInt 1%Z);
                (KStr (py "Closed"), VBool false)]);
        (KInt (-3)%Z, VDict [(KStr (py "Name"), VStr (py "Old"))])];
     Forum.em_comments :=
       [(KInt 10%Z,
         VList [VDict [(KStr (py "CommentID"), VInt 5%Z);
                       (KStr (py "Body"), VStr (py "Hi"));
                       (KStr (py "Attachments"), VNone)]])];
     Forum.em_members :=
       [(KInt 7%Z, VStr (py "Bob")); (KInt 0%Z, VStr (py "Zed"))];
     Forum.em_categories :=
       [(KInt 1%Z, VDict [(KStr (py "Name"), VStr (py "General"))])] |}.

(** The metadata record of discussion 10. *)
Definition meta10 : Forum.meta :=
  {| Forum.meta_id := KInt 10%Z;
     Forum.meta_title := py "Hello, World!";
     Forum.meta_date := py "2020-01-01T00:00:00";
     Forum.meta_url := py "/discussions/10-hello-world.html";
     Forum.meta_author_id := KInt 7%Z |}.

(** A store of 120 members, IDs 1 to 120. *)
Definition crowd : Forum.converter :=
  {| Forum.discussions := [(KInt 10%Z, hello)];
     Forum.comments := [];
     Forum.members :=
       map (fun i => (KInt (Z.of_nat i), py "member")) (seq 1 120) |}.

End Sample.

(* ================================================================== *)
(** * Properties *)

(** ** Encoding repair *)

Lemma replace_char_In (w : cp) (u : pystr) (c : cp) (s : pystr) :
  In c (replace [w] u s) -> (In c s /\ c <> w) \/ In c u.
Proof.
  unfold replace. induction s as [|x t IH]; simpl; [tauto|].
  destruct (N.eqb_spec w x) as [->|Hne]; simpl.
  - rewrite in_app_iff. intros [H|H]; [now right|].
    destruct (IH H) as [[H1 H2]|H1]; [left; split; auto | now right].
  - intros [<-|H].
    + left; split; [now left | congruence].
    + destruct (IH H) as [[H1 H2]|H1]; [left; split; auto | now right].
Qed.

Lemma replace_char_absent (w : cp) (u s : pystr) :
  ~ In w s -> replace [w] u s = s.
Proof.
  unfold replace. induction s as [|x t IH]; simpl; [reflexivity|].
  intros Hn. destruct (N.eqb_spec w x) as [->|Hne]; simpl.
  - exfalso; apply Hn; now left.
  - f_equal. apply IH. intros H; apply Hn; now right.
Qed.

Lemma replace_all_absent (m : list (cp * pystr)) (s : pystr) :
  (forall w, In w (keys_of m) -> ~ In w s) -> replace_all m s = s.
Proof.
  unfold replace_all. revert s.
  induction m as [|[w u] m IH]; simpl; intros s H; [reflexivity|].
  rewrite replace_char_absent by (apply H; now left).
  apply IH. intros w' Hw'. apply H. now right.
Qed.

(** A character of [K] survives the loop only if no replacement put it
    there: with replacement texts free of [K], it was in the input and is
    no key of the table. *)
Lemma replace_all_In (K : list cp) (m : list (cp * pystr)) :
  (forall w u c, In (w, u) m -> In c u -> ~ In c K) ->
  forall s c, In c K -> In c (replace_all m s) ->
              In c s /\ ~ In c (keys_of m).
Proof.
  unfold replace_all.
  induction m as [|[w u] m IH]; simpl; intros Hout s c HK Hc.
  - tauto.
  - assert (Hout' : forall w0 u0 c0, In (w0, u0) m -> In c0 u0 -> ~ In c0 K)
      by (intros w0 u0 c0 Hin; apply (Hout w0 u0 c0); now right).
    destruct (IH Hout' _ _ HK Hc) as [H1 H2].
    destruct (replace_char_In _ _ _ _ H1) as [[H3 H4]|H3].
    + split; [assumption|]. intros [E|E]; [congruence | contradiction].
    + exfalso. apply (Hout w u c); [now left | assumption | assumption].
Qed.

Lemma outputs_avoid_keys_spec (m : list (cp * pystr)) :
  outputs_avoid_keys m = true ->
  forall w u c, In (w, u) m -> In c u -> ~ In c (keys_of m).
Proof.
  unfold outputs_avoid_keys. rewrite forallb_forall.
  intros H w u c Hin Hc Hk.
  specialize (H _ Hin). simpl in H. rewrite forallb_forall in H.
  specialize (H _ Hc). apply negb_true_iff in H.
  assert (existsb (N.eqb c) (keys_of m) = true)
    by (apply existsb_exists; exists c; split; [assumption | apply N.eqb_refl]).
  congruence.
Qed.

Lemma replace_all_idempotent (m : list (cp * pystr)) (s : pystr) :
  outputs_avoid_keys m = true ->
  replace_all m (replace_all m s) = replace_all m s.
Proof.
  intros Hm. apply replace_all_absent. intros w Hw Hin.
  destruct (replace_all_In (keys_of m) m (outputs_avoid_keys_spec m Hm) s w Hw Hin)
    as [_ Hn].
  contradiction.
Qed.

(** No replacement character of the table lies in U+0080..U+009F. *)
Lemma windows_1252_outputs_outside_range :
  forall w u c, In (w, u) windows_1252_table -> In c u ->
                ~ (0x80 <= c <= 0x9F)%N.
Proof.
  intros w u c Hin Hc.
  unfold windows_1252_table in Hin. simpl in Hin.
  repeat (destruct Hin as [Hin|Hin];
          [inversion Hin; subst; simpl in Hc;
           repeat (destruct Hc as [<-|Hc]; [lia|]); contradiction|]).
  contradiction.
Qed.

(** C10: the Windows-1252 repair is idempotent, in the forum converter and
    in the private-message converter: applying it twice equals applying it
    once, for every input string; and no replacement character of either
    table lies in the remapped range U+0080..U+009F. *)
Theorem fix_windows_1252_encoding_idempotent (text : pystr) :
  Forum.fix_windows_1252_encoding (Forum.fix_windows_1252_encoding text)
    = Forum.fix_windows_1252_encoding text
  /\ DM.fix_windows_1252_encoding (DM.fix_windows_1252_encoding text)
    = DM.fix_windows_1252_encoding text
  /\ Forall (fun wu => Forall (fun c => ~ (0x80 <= c <= 0x9F)%N) (snd wu))
       Forum.windows_1252_mapping
  /\ Forall (fun wu => Forall (fun c => ~ (0x80 <= c <= 0x9F)%N) (snd wu))
       DM.windows_1252_mapping.
Proof.
  assert (Hm : outputs_avoid_keys windows_1252_table = true) by reflexivity.
  assert (H : forall t,
    (if negb (str_truthy t) then t else replace_all windows_1252_table t)
    = replace_all windows_1252_table t).
  { intros [|c t]; [reflexivity | reflexivity]. }
  assert (Hr : Forall
            (fun wu => Forall (fun c => ~ (0x80 <= c <= 0x9F)%N) (snd wu))
            windows_1252_table).
  { apply Forall_forall. intros [w u] Hin. apply Forall_forall. intros c Hc.
    exact (windows_1252_outputs_outside_range w u c Hin Hc). }
  unfold Forum.fix_windows_1252_encoding, DM.fix_windows_1252_encoding,
    Forum.windows_1252_mapping, DM.windows_1252_mapping.
  rewrite !H.
  repeat split; try (apply replace_all_idempotent; exact Hm); exact Hr.
Qed.

(** ** Strings and keys *)

Lemma str_eqb_refl (a : pystr) : str_eqb a a = true.
Proof.
  induction a as [|x a IH]; simpl; [reflexivity|].
  now rewrite N.eqb_refl, IH.
Qed.

Lemma str_eqb_eq (a b : pystr) : str_eqb a b = true <-> a = b.
Proof.
  split; [|intros ->; apply str_eqb_refl].
  revert b; induction a as [|x a IH]; intros [|y b]; simpl; try discriminate.
  - reflexivity.
  - intros H. apply andb_true_iff in H as [H1 H2].
    apply N.eqb_eq in H1. apply IH in H2. now subst.
Qed.

Lemma key_eqb_eq (a b : pykey) : key_eqb a b = true <-> a = b.
Proof.
  destruct a as [x|x], b as [y|y]; simpl.
  - rewrite Z.eqb_eq. split; congruence.
  - split; discriminate.
  - split; discriminate.
  - rewrite str_eqb_eq. split; congruence.
Qed.

Lemma key_eqb_refl (a : pykey) : key_eqb a a = true.
Proof. now apply key_eqb_eq. Qed.

Lemma key_eqb_neq (a b : pykey) : key_eqb a b = false <-> a <> b.
Proof.
  rewrite <- key_eqb_eq. destruct (key_eqb a b); split; congruence.
Qed.

(** ** Reply and quote references *)

Section References.
Variable db : unicode_db.
Variable self : Forum.converter.

(** A text key is never found among integer keys. *)
Lemma int_keyed_no_text_key (V : Type) (d : dict pykey V) (s : pystr) :
  Forum.int_keyed d -> dict_get key_eqb (KStr s) d = None.
Proof.
  induction 1 as [|[k v] d [z Hk] _ IH]; simpl; [reflexivity|].
  simpl in Hk. subst k. simpl. exact IH.
Qed.

Lemma reply_tag_discussion (m : caps) (cur : option pykey) (disc_id : pystr) :
  m 2 = py "d" ++ disc_id ->
  Forum._convert_reply_tag db self m cur =
    if opt_truthy cur && str_eqb disc_id (opt_str cur)
    then Forum.reply_link Forum.top_anchor (m 1)
    else match dict_get key_eqb (KStr disc_id) (Forum.discussions self) with
         | Some d =>
             Forum.reply_link
               (Forum.discussion_url disc_id
                  (Forum.generate_slug db (Forum.d_Name d))) (m 1)
         | None => Forum.reply_link (Forum.bare_discussion_url disc_id) (m 1)
         end.
Proof.
  intros H. unfold Forum._convert_reply_tag. rewrite H.
  change (startswith (py "d") (py "d" ++ disc_id)) with true.
  change (skipn 1 (py "d" ++ disc_id)) with disc_id.
  cbv beta iota zeta.
  destruct (opt_truthy cur && str_eqb disc_id (opt_str cur)).
  - unfold Forum.reply_link, Forum.top_anchor.
    repeat rewrite <- app_assoc; reflexivity.
  - destruct (dict_get key_eqb (KStr disc_id) (Forum.discussions self)).
    + unfold Forum.reply_link, Forum.discussion_url.
      repeat rewrite <- app_assoc; reflexivity.
    + unfold Forum.reply_link, Forum.bare_discussion_url.
      repeat rewrite <- app_assoc; reflexivity.
Qed.

Lemma complex_quote_discussion (m : caps) (cur : option pykey)
    (disc_id : pystr) :
  m 2 = py "d" ++ disc_id ->
  Forum._convert_complex_quote db self m cur =
    if opt_truthy cur && str_eqb disc_id (opt_str cur)
    then Forum.quote_link Forum.top_anchor (m 1) (m 3)
    else match dict_get key_eqb (KStr disc_id) (Forum.discussions self) with
         | Some d =>
             Forum.quote_link
               (Forum.discussion_url disc_id
                  (Forum.generate_slug db (Forum.d_Name d))) (m 1) (m 3)
         | None =>
             Forum.quote_link (Forum.bare_discussion_url disc_id) (m 1) (m 3)
         end.
Proof.
  intros H. unfold Forum._convert_complex_quote. rewrite H.
  change (startswith (py "d") (py "d" ++ disc_id)) with true.
  change (skipn 1 (py "d" ++ disc_id)) with disc_id.
  cbv beta iota zeta.
  destruct (opt_truthy cur && str_eqb disc_id (opt_str cur)).
  - unfold Forum.quote_link, Forum.top_anchor.
    repeat rewrite <- app_assoc; reflexivity.
  - destruct (dict_get key_eqb (KStr disc_id) (Forum.discussions self)).
    + unfold Forum.quote_link, Forum.discussion_url.
      repeat rewrite <- app_assoc; reflexivity.
    + unfold Forum.quote_link, Forum.bare_discussion_url.
      repeat rewrite <- app_assoc; reflexivity.
Qed.

(** With the integer keys of the export, the store is never hit: a
    reference to another discussion gets the link without a slug,
    whether the discussion is in the store or not. *)
Lemma cross_reference_never_resolved (m : caps) (cur : option pykey)
    (disc_id : pystr) :
  Forum.int_keyed (Forum.discussions self) ->
  m 2 = py "d" ++ disc_id ->
  opt_truthy cur && str_eqb disc_id (opt_str cur) = false ->
  Forum._convert_reply_tag db self m cur
    = Forum.reply_link (Forum.bare_discussion_url disc_id) (m 1)
  /\ Forum._convert_complex_quote db self m cur
    = Forum.quote_link (Forum.bare_discussion_url disc_id) (m 1) (m 3).
Proof.
  intros Hk Hm Hc.
  rewrite (reply_tag_discussion m cur disc_id Hm),
          (complex_quote_discussion m cur disc_id Hm), Hc,
          (int_keyed_no_text_key _ _ disc_id Hk).
  split; reflexivity.
Qed.
End References.

(** C1: a reply or a quote that names discussion 10, from discussion 5,
    with discussion 10 in the store under its integer ID and the slug
    [hello-world]: the rendered link is [/discussions/10], without the
    slug.  The text ["10"] cut from the tag is looked up among integer
    keys and is not found. *)
Theorem cross_discussion_reference_loses_slug (db : unicode_db) :
  Forum.int_keyed (Forum.discussions Sample.store)
  /\ dict_get key_eqb (KInt 10) (Forum.discussions Sample.store)
       = Some Sample.hello
  /\ Forum.generate_slug db (Forum.d_Name Sample.hello) = py "hello-world"
  /\ Forum.convert_plush_bbcode db Sample.store
       (pyq "[reply=`Bob;d10`]") (Some (KInt 5))
     = Forum.reply_link (py "/discussions/10") (py "Bob")
  /\ Forum.convert_plush_bbcode db Sample.store
       (pyq "[quote=`Bob;d10`]hi[/quote]") (Some (KInt 5))
     = Forum.quote_link (py "/discussions/10") (py "Bob") (py "hi").
Proof.
  split.
  { repeat constructor. exists 10%Z. reflexivity. }
  repeat split; vm_compute; reflexivity.
Qed.

(** The two callbacks, for an owning discussion ID that is truthy (a
    non-zero integer or a non-empty text): a target that is [d] followed
    by the text of that ID gives the link to [#discussion-top], whatever
    the store holds. *)
Theorem same_discussion_anchor (db : unicode_db) (self : Forum.converter)
    (m : caps) (k : pykey) :
  key_truthy k = true ->
  m 2 = py "d" ++ key_str k ->
  Forum._convert_reply_tag db self m (Some k)
    = Forum.reply_link Forum.top_anchor (m 1)
  /\ Forum._convert_complex_quote db self m (Some k)
    = Forum.quote_link Forum.top_anchor (m 1) (m 3).
Proof.
  intros Hk Hm.
  rewrite (reply_tag_discussion db self m (Some k) (key_str k) Hm),
          (complex_quote_discussion db self m (Some k) (key_str k) Hm).
  simpl opt_truthy. simpl opt_str. rewrite Hk, str_eqb_refl.
  split; reflexivity.
Qed.

Lemma same_discussion_anchor_witness :
  Forum._convert_reply_tag ascii_only Sample.store
      (groups [py "Bob"; py "d10"; py "hi"]) (Some (KInt 10))
    = Forum.reply_link Forum.top_anchor (py "Bob")
  /\ Forum._convert_complex_quote ascii_only Sample.store
      (groups [py "Bob"; py "d10"; py "hi"]) (Some (KInt 10))
    = Forum.quote_link Forum.top_anchor (py "Bob") (py "hi").
Proof.
  apply (same_discussion_anchor ascii_only Sample.store
           (groups [py "Bob"; py "d10"; py "hi"]) (KInt 10));
    reflexivity.
Defined.

(** C2: the owning discussion has ID 0 and the tag names [d0], the
    owning discussion itself.  The reply and the quote render as the
    cross-discussion link [/discussions/0], not as the link to
    [#discussion-top]: the test [current_discussion_id and ...] reads
    the ID 0 as no owning discussion.  In discussion 10 the same tags
    with [d10] render the link to [#discussion-top]. *)
Theorem owning_discussion_zero_is_cross_reference (db : unicode_db) :
  py "d0" = py "d" ++ key_str (KInt 0)
  /\ Forum.convert_plush_bbcode db Sample.store
       (pyq "[reply=`Bob;d0`]") (Some (KInt 0))
     = Forum.reply_link (Forum.bare_discussion_url (py "0")) (py "Bob")
  /\ Forum.convert_plush_bbcode db Sample.store
       (pyq "[quote=`Bob;d0`]hi[/quote]") (Some (KInt 0))
     = Forum.quote_link (Forum.bare_discussion_url (py "0")) (py "Bob")
         (py "hi")
  /\ Forum.reply_link (Forum.bare_discussion_url (py "0")) (py "Bob")
     <> Forum.reply_link Forum.top_anchor (py "Bob")
  /\ Forum.quote_link (Forum.bare_discussion_url (py "0")) (py "Bob")
       (py "hi")
     <> Forum.quote_link Forum.top_anchor (py "Bob") (py "hi")
  /\ Forum.convert_plush_bbcode db Sample.store
       (pyq "[reply=`Bob;d10`]") (Some (KInt 10))
     = Forum.reply_link Forum.top_anchor (py "Bob")
  /\ Forum.convert_plush_bbcode db Sample.store
       (pyq "[quote=`Bob;d10`]hi[/quote]") (Some (KInt 10))
     = Forum.quote_link Forum.top_anchor (py "Bob") (py "hi").
Proof.
  repeat split; try (vm_compute; reflexivity); vm_compute; discriminate.
Qed.

(** The target is compared with the owning ID as text: in discussion 10
    the target [d010] is a reference to another discussion. *)
Example reference_with_leading_zero (db : unicode_db) :
  Forum.convert_plush_bbcode db Sample.store
    (pyq "[reply=`Bob;d010`]") (Some (KInt 10))
  = Forum.reply_link (Forum.bare_discussion_url (py "010")) (py "Bob").
Proof. vm_compute. reflexivity. Qed.

(** ** User mentions *)

Section Mentions.
Variable db : unicode_db.
Variable self : Forum.converter.

Lemma find_member_none (username : pystr) (ms : dict pykey pystr) :
  (forall uid name, In (uid, name) ms -> name <> username) ->
  Forum.find_member username ms = None.
Proof.
  induction ms as [|[uid name] ms IH]; simpl; intros H; [reflexivity|].
  destruct (str_eqb name username) eqn:E.
  - apply str_eqb_eq in E. exfalso. apply (H uid name); [now left | exact E].
  - apply IH. intros u n Hin. apply (H u n). now right.
Qed.

Lemma find_member_some (username : pystr) (ms : dict pykey pystr)
    (uid : pykey) :
  Forum.find_member username ms = Some uid -> In (uid, username) ms.
Proof.
  induction ms as [|[u name] ms IH]; simpl; [discriminate|].
  destruct (str_eqb name username) eqn:E.
  - apply str_eqb_eq in E. intros [= ->]. left. now subst.
  - intros H. right. now apply IH.
Qed.

(** No member of that exact name: the unknown-mention span. *)
Lemma mention_of_no_member (m : caps) :
  (forall uid name, In (uid, name) (Forum.members self) -> name <> m 1) ->
  Forum._convert_user_mention self m = Forum.unknown_mention (m 1).
Proof.
  intros H. unfold Forum._convert_user_mention.
  rewrite (find_member_none (m 1) _ H). reflexivity.
Qed.

(** The first member of that exact name, when its ID is truthy: the
    link to that member's page. *)
Lemma mention_of_member (m : caps) (uid : pykey) :
  Forum.find_member (m 1) (Forum.members self) = Some uid ->
  key_truthy uid = true ->
  Forum._convert_user_mention self m
    = Forum.mention_link (key_str uid) (m 1).
Proof.
  intros H Ht. unfold Forum._convert_user_mention. rewrite H.
  simpl opt_truthy. rewrite Ht. reflexivity.
Qed.
End Mentions.

(** C8: the member store holds member 0 with the display name [Zed]; the
    mention of [Zed] finds that member, and renders as the unknown-mention
    span, not as the link to the member's page. *)
Theorem mention_of_member_zero_is_unknown (db : unicode_db) :
  In (KInt 0, py "Zed") (Forum.members Sample.store)
  /\ Forum.find_member (py "Zed") (Forum.members Sample.store)
       = Some (KInt 0)
  /\ Forum.convert_plush_bbcode db Sample.store (pyq "@`Zed`") None
     = Forum.unknown_mention (py "Zed")
  /\ Forum.convert_plush_bbcode db Sample.store (pyq "@`Bob`") None
     = Forum.mention_link (py "7") (py "Bob").
Proof.
  split; [now left|]. repeat split; vm_compute; reflexivity.
Qed.

(** ** Substitution by a regular expression *)

Section Substitution.
Variable f : cp -> bool.

Lemma star_greedy_longest (s : pystr) (pos : nat) (cs : caps) :
  star_greedy f (fun _ p c => Some (c, p)) s pos cs
    = Some (cs, pos + run_length f s).
Proof.
  revert pos. induction s as [|c t IH]; intros pos; simpl.
  - now rewrite Nat.add_0_r.
  - destruct (f c).
    + rewrite IH. now rewrite Nat.add_succ_r.
    + now rewrite Nat.add_0_r.
Qed.

(** Deleting the characters of a class. *)
Lemma sub_class_delete (s : pystr) :
  sub (Cls f) (fun _ => []) s = filter (fun c => negb (f c)) s.
Proof.
  unfold sub. induction s as [|c t IH]; [reflexivity|].
  simpl. unfold match_at. simpl. destruct (f c); simpl; now rewrite IH.
Qed.

Lemma match_plus (c : cp) (t : pystr) :
  match_at (Plus f) (c :: t)
    = if f c then Some (no_caps, S (run_length f t)) else None.
Proof.
  unfold match_at, Plus. simpl. destruct (f c); [|reflexivity].
  now rewrite star_greedy_longest.
Qed.
End Substitution.

(** ** Slugs *)

Section Slugs.
Variable db : unicode_db.

Lemma sub_plus_collapse (s : pystr) :
  sub_go (Plus (Forum.slug_sep db)) (fun _ => py "-") 0 s
    = Forum.collapse_runs db false s
  /\ sub_go (Plus (Forum.slug_sep db)) (fun _ => py "-")
       (run_length (Forum.slug_sep db) s) s
    = Forum.collapse_runs db true s.
Proof.
  induction s as [|c t [IH0 IH1]]; [split; reflexivity|].
  assert (H0 : sub_go (Plus (Forum.slug_sep db)) (fun _ => py "-") 0 (c :: t)
               = Forum.collapse_runs db false (c :: t)).
  { cbn [sub_go]. rewrite match_plus. cbn [Forum.collapse_runs].
    destruct (Forum.slug_sep db c).
    - rewrite IH1. reflexivity.
    - now rewrite IH0. }
  split; [exact H0|].
  cbn [run_length Forum.collapse_runs].
  destruct (Forum.slug_sep db c) eqn:E.
  - cbn [sub_go]. exact IH1.
  - rewrite H0. cbn [Forum.collapse_runs]. now rewrite E.
Qed.

(** The slug as the specification words it. *)
Lemma generate_slug_stages (title : pystr) :
  Forum.generate_slug db title
    = firstn 50
        (Forum.collapse_runs db false
           (filter (Forum.slug_char db) (lower db title))).
Proof.
  unfold Forum.generate_slug. rewrite sub_class_delete.
  unfold sub. rewrite (proj1 (sub_plus_collapse _)).
  do 2 f_equal. apply filter_ext. intros c.
  unfold Forum.slug_junk, Forum.slug_char. now rewrite negb_involutive.
Qed.

Lemma hyphen_is_sep : Forum.slug_sep db Forum.HYPHEN = true.
Proof. reflexivity. Qed.

Lemma collapse_runs_In (b : bool) (s : pystr) (c : cp) :
  In c (Forum.collapse_runs db b s) ->
  c = Forum.HYPHEN \/ (In c s /\ Forum.slug_sep db c = false).
Proof.
  revert b. induction s as [|x t IH]; intros b; simpl; [tauto|].
  destruct (Forum.slug_sep db x) eqn:E.
  - destruct b; simpl.
    + intros H. destruct (IH _ H) as [H1|[H1 H2]]; [now left | right; auto].
    + intros [H|H]; [left; congruence|].
      destruct (IH _ H) as [H1|[H1 H2]]; [now left | right; auto].
  - simpl. intros [<-|H]; [right; auto|].
    destruct (IH _ H) as [H1|[H1 H2]]; [now left | right; auto].
Qed.

Lemma collapse_runs_head (s : pystr) :
  match Forum.collapse_runs db true s with
  | [] => True
  | c :: _ => c <> Forum.HYPHEN
  end.
Proof.
  induction s as [|x t IH]; simpl; [exact I|].
  destruct (Forum.slug_sep db x) eqn:E; [exact IH|].
  intros ->. rewrite hyphen_is_sep in E. discriminate.
Qed.

Lemma collapse_runs_single (b : bool) (s : pystr) :
  Forum.single_hyphens (Forum.collapse_runs db b s) = true.
Proof.
  revert b. induction s as [|x t IH]; intros b; [reflexivity|].
  cbn [Forum.collapse_runs].
  destruct (Forum.slug_sep db x) eqn:E.
  - destruct b; [apply IH|].
    cbn [Forum.single_hyphens].
    pose proof (collapse_runs_head t) as Hh. pose proof (IH true) as Ht.
    destruct (Forum.collapse_runs db true t) as [|y r]; [reflexivity|].
    rewrite Ht. apply N.eqb_neq in Hh. rewrite Hh.
    now rewrite andb_false_r.
  - cbn [Forum.single_hyphens].
    pose proof (IH false) as Ht.
    destruct (Forum.collapse_runs db false t) as [|y r]; [reflexivity|].
    rewrite Ht.
    assert (Hx : N.eqb x Forum.HYPHEN = false).
    { apply N.eqb_neq. intros ->. rewrite hyphen_is_sep in E. discriminate. }
    now rewrite Hx.
Qed.

Lemma single_hyphens_firstn (n : nat) (s : pystr) :
  Forum.single_hyphens s = true -> Forum.single_hyphens (firstn n s) = true.
Proof.
  revert n. induction s as [|a t IH]; intros [|n] H; try reflexivity.
  cbn [firstn]. cbn [Forum.single_hyphens] in H.
  destruct t as [|b r]; [destruct n; reflexivity|].
  apply andb_true_iff in H as [H1 H2].
  specialize (IH n H2).
  destruct n as [|n]; [reflexivity|].
  cbn [firstn] in *. cbn [Forum.single_hyphens].
  cbn [Forum.single_hyphens] in IH. now rewrite H1, IH.
Qed.

Lemma firstn_In (A : Type) (n : nat) (l : list A) (x : A) :
  In x (firstn n l) -> In x l.
Proof.
  revert n; induction l as [|a l IH]; intros [|n]; simpl; try tauto.
  intros [H|H]; [now left | right; eauto].
Qed.

(** The lowercased form of an ASCII title has no capital letter. *)
Lemma lower_ascii_no_capital (title : pystr) (c : cp) :
  forallb is_ascii title = true -> In c (lower db title) ->
  ascii_upper c = false.
Proof.
  intros Ha. unfold lower. rewrite Ha. intros Hc.
  apply in_map_iff in Hc as [x [E _]].
  destruct (ascii_upper x) eqn:Hx; [|congruence].
  subst c. unfold ascii_upper, between in *.
  apply andb_true_iff in Hx as [H1 H2].
  apply N.leb_le in H1, H2. apply andb_false_iff. right.
  apply N.leb_gt. lia.
Qed.
End Slugs.

(** C6: the slug of a title.  It is the lowercased title with every
    character deleted that is no word character, whitespace or hyphen,
    every run of whitespace and hyphens collapsed into one hyphen, cut to
    its first 50 characters: it has at most 50 characters, each a hyphen
    or a word character of the lowercased title, no whitespace, no two
    hyphens side by side and, for an ASCII title, no capital letter;
    equal titles have equal slugs. *)
Theorem generate_slug_properties (db : unicode_db) (title : pystr) :
  Forum.generate_slug db title
    = firstn 50
        (Forum.collapse_runs db false
           (filter (Forum.slug_char db) (lower db title)))
  /\ List.length (Forum.generate_slug db title) <= 50
  /\ (forall c, In c (Forum.generate_slug db title) ->
        c = Forum.HYPHEN
        \/ (In c (lower db title) /\ is_word db c = true
            /\ is_space db c = false))
  /\ (forall c, In c (Forum.generate_slug db title) -> is_space db c = false)
  /\ Forum.single_hyphens (Forum.generate_slug db title) = true
  /\ (forallb is_ascii title = true ->
      forall c, In c (Forum.generate_slug db title) -> ascii_upper c = false)
  /\ (forall title', title' = title ->
        Forum.generate_slug db title' = Forum.generate_slug db title).
Proof.
  assert (Hin : forall c, In c (Forum.generate_slug db title) ->
        c = Forum.HYPHEN
        \/ (In c (lower db title) /\ is_word db c = true
            /\ is_space db c = false)).
  { intros c Hc. rewrite generate_slug_stages in Hc.
    apply firstn_In in Hc. apply collapse_runs_In in Hc.
    destruct Hc as [Hc|[Hc Hs]]; [now left | right].
    apply filter_In in Hc as [Hc Hk].
    unfold Forum.slug_sep in Hs. apply orb_false_iff in Hs as [Hh Hsp].
    unfold Forum.slug_char in Hk. rewrite Hh, Hsp in Hk.
    rewrite !orb_false_r in Hk. auto. }
  split; [apply generate_slug_stages|].
  split; [rewrite generate_slug_stages; apply firstn_le_length|].
  split; [exact Hin|].
  split.
  { intros c Hc. destruct (Hin c Hc) as [->|[_ [_ H]]]; [reflexivity | exact H]. }
  split.
  { rewrite generate_slug_stages. apply single_hyphens_firstn.
    apply collapse_runs_single. }
  split.
  { intros Ha c Hc. destruct (Hin c Hc) as [->|[H _]]; [reflexivity|].
    exact (lower_ascii_no_capital db title c Ha H). }
  intros title' ->. reflexivity.
Qed.

Lemma generate_slug_properties_witness :
  Forum.generate_slug ascii_only (py "Hello, World!")
    = firstn 50
        (Forum.collapse_runs ascii_only false
           (filter (Forum.slug_char ascii_only)
                   (lower ascii_only (py "Hello, World!"))))
  /\ List.length (Forum.generate_slug ascii_only (py "Hello, World!")) <= 50
  /\ Forum.single_hyphens (Forum.generate_slug ascii_only (py "Hello, World!"))
     = true
  /\ (forall c, In c (Forum.generate_slug ascii_only (py "Hello, World!")) ->
        ascii_upper c = false).
Proof.
  destruct (generate_slug_properties ascii_only (py "Hello, World!"))
    as [H1 [H2 [_ [_ [H5 [H6 _]]]]]].
  split; [exact H1|]. split; [exact H2|].
  split; [exact H5 | exact (H6 eq_refl)].
Defined.

(** ** Lists *)

Section Lists.
Variable db : unicode_db.

Lemma clean_loop_filter (list_items cleaned_items : list pystr) :
  Forum.clean_loop db list_items cleaned_items
    = cleaned_items
        ++ filter str_truthy (map (Forum.clean_item db) list_items).
Proof.
  revert cleaned_items.
  induction list_items as [|item rest IH]; intros acc; simpl.
  - now rewrite app_nil_r.
  - destruct (str_truthy (Forum.clean_item db item)); rewrite IH.
    + now rewrite <- app_assoc.
    + reflexivity.
Qed.

Lemma known_style_spec (list_type : pystr) :
  existsb (str_eqb list_type) Forum.known_styles = true
  <-> In list_type Forum.known_styles.
Proof.
  rewrite existsb_exists. split.
  - intros [x [Hx E]]. apply str_eqb_eq in E. now subst.
  - intros H. exists list_type. split; [exact H | apply str_eqb_refl].
Qed.

Lemma kept_items_nonempty (list_content item : pystr) :
  In item (Forum.kept_items db list_content) -> item <> [].
Proof.
  unfold Forum.kept_items. intros H. apply filter_In in H as [_ H].
  now destruct item.
Qed.

Lemma kept_items_length (list_content : pystr) :
  List.length (Forum.kept_items db list_content)
  = List.length
      (filter (fun item => str_truthy (Forum.clean_item db item))
              (split (Lit (py "[*]")) list_content)).
Proof.
  unfold Forum.kept_items.
  induction (split (Lit (py "[*]")) list_content) as [|x l IH];
    [reflexivity|].
  cbn [map filter].
  destruct (str_truthy (Forum.clean_item db x)); cbn [List.length];
    now rewrite IH.
Qed.
End Lists.

(** C7: an ordered-list block.  The style token [a] gives [<ol type="a">];
    a token outside the known styles gives [<ol>] with no type; the
    [<li>] elements are those of the items that are not empty after the
    break markers are removed and the whitespace is trimmed, so an item
    that is empty then contributes none. *)
Theorem ordered_list_rendering (db : unicode_db) (m : caps) :
  (m 1 = py "a" ->
     Forum._convert_ordered_list db m
       = pyq "<ol type=`a`>"
           ++ Forum.li_join (Forum.kept_items db (m 2)) ++ py "</ol>")
  /\ (~ In (m 1) Forum.known_styles ->
     Forum._convert_ordered_list db m
       = py "<ol>" ++ Forum.li_join (Forum.kept_items db (m 2)) ++ py "</ol>")
  /\ (forall item, In item (split (Lit (py "[*]")) (m 2)) ->
        Forum.clean_item db item = [] ->
        ~ In (Forum.clean_item db item) (Forum.kept_items db (m 2)))
  /\ List.length (Forum.kept_items db (m 2))
     = List.length
         (filter (fun item => str_truthy (Forum.clean_item db item))
                 (split (Lit (py "[*]")) (m 2))).
Proof.
  assert (Hloop : Forum.clean_loop db (split (Lit (py "[*]")) (m 2)) []
                  = Forum.kept_items db (m 2))
    by (rewrite clean_loop_filter; reflexivity).
  split; [|split; [|split]].
  - intros Ha. unfold Forum._convert_ordered_list. rewrite Hloop, Ha.
    reflexivity.
  - intros Hn. unfold Forum._convert_ordered_list. rewrite Hloop.
    destruct (existsb (str_eqb (m 1)) [py "1"; py "a"; py "A"; py "i"; py "I"])
      eqn:E; [|reflexivity].
    exfalso. apply Hn. now apply known_style_spec.
  - intros item _ He Hin. rewrite He in Hin.
    now apply kept_items_nonempty in Hin.
  - apply kept_items_length.
Qed.

Lemma ordered_list_rendering_witness :
  Forum._convert_ordered_list ascii_only
      (groups [py "a"; py "[*]one<br> [*]  <br>[*]two"])
    = pyq "<ol type=`a`><li>one</li><li>two</li></ol>"
  /\ Forum._convert_ordered_list ascii_only
      (groups [py "x"; py "[*]one<br> [*]  <br>[*]two"])
    = py "<ol><li>one</li><li>two</li></ol>".
Proof.
  pose proof (ordered_list_rendering ascii_only
                (groups [py "a"; py "[*]one<br> [*]  <br>[*]two"]))
    as [Ha _].
  pose proof (ordered_list_rendering ascii_only
                (groups [py "x"; py "[*]one<br> [*]  <br>[*]two"]))
    as [_ [Hx _]].
  split.
  - rewrite Ha; reflexivity.
  - rewrite Hx; [reflexivity|].
    vm_compute. intuition discriminate.
Defined.

(** ** Text without markup *)

Lemma list_pair_ind (A : Type) (P : list A -> Prop) :
  P [] -> (forall x, P [x]) ->
  (forall x y l, P l -> P (y :: l) -> P (x :: y :: l)) ->
  forall l, P l.
Proof.
  intros H0 H1 H2 l.
  assert (H : P l /\ forall x, P (x :: l)).
  { induction l as [|y l [IH1 IH2]]; [split; auto|].
    split; [apply IH2|]. intros x. apply H2; [exact IH1 | apply IH2]. }
  exact (proj1 H).
Qed.

Lemma replace_char_flat_map (c : cp) (new s : pystr) :
  replace [c] new s
    = flat_map (fun x => if N.eqb c x then new else [x]) s.
Proof.
  unfold replace. induction s as [|x t IH]; [reflexivity|].
  cbn [replace_go startswith flat_map List.length Nat.sub].
  rewrite andb_true_r. destruct (N.eqb c x); now rewrite IH.
Qed.

Lemma break_lines_after_cr (x : cp) (t : pystr) :
  N.eqb x LF = false ->
  Forum.break_lines true (x :: t) = Forum.break_lines false (x :: t).
Proof.
  intros H. cbn [Forum.break_lines]. now rewrite H.
Qed.

Ltac eqb_lits :=
  unfold CR, LF in *;
  change (N.eqb 13 13) with true in *; change (N.eqb 13 10) with false in *;
  change (N.eqb 10 13) with false in *; change (N.eqb 10 10) with true in *;
  cbn iota in *.

Lemma replace_go_here (old new : pystr) (c : cp) (t : pystr) :
  replace_go old new 0 (c :: t)
    = if startswith old (c :: t)
      then new ++ replace_go old new (List.length old - 1) t
      else c :: replace_go old new 0 t.
Proof. reflexivity. Qed.

(** The three [replace] calls of the converter amount to the line-break
    normalization. *)
Lemma normalization_is_break_lines (text : pystr) :
  Forum.insert_breaks (Forum.normalize_newlines text)
    = Forum.break_lines false text.
Proof.
  unfold Forum.insert_breaks, Forum.normalize_newlines.
  rewrite !replace_char_flat_map. unfold replace.
  induction text as [|x|x y l IH1 IH2] using list_pair_ind.
  - reflexivity.
  - rewrite replace_go_here. cbn [startswith]. rewrite andb_false_r.
    cbn [replace_go flat_map Forum.break_lines]. unfold CR, LF in *.
    destruct (N.eqb_spec 13 x) as [<-|H1]; [reflexivity|].
    assert (E : N.eqb x 13 = false) by (apply N.eqb_neq; congruence).
    rewrite E. cbn [flat_map app].
    destruct (N.eqb_spec 10 x) as [<-|H2]; [reflexivity|].
    assert (E' : N.eqb x 10 = false) by (apply N.eqb_neq; congruence).
    now rewrite E'.
  - rewrite replace_go_here. cbn [startswith]. rewrite andb_true_r.
    unfold CR, LF in *.
    destruct (N.eqb_spec 13 x) as [<-|H1].
    + destruct (N.eqb_spec 10 y) as [<-|H2].
      * cbn [andb List.length Nat.sub app flat_map].
        change (replace_go [13%N; 10%N] [10%N] 1 (10%N :: l))
          with (replace_go [13%N; 10%N] [10%N] 0 l).
        eqb_lits. cbn [app flat_map]. eqb_lits.
        cbn [Forum.break_lines]. eqb_lits.
        unfold Forum.BR. f_equal. exact IH1.
      * cbn [andb flat_map]. eqb_lits. cbn [app flat_map]. eqb_lits.
        assert (E' : N.eqb y LF = false)
          by (apply N.eqb_neq; unfold LF; congruence).
        change (Forum.break_lines false (13%N :: y :: l))
          with (Forum.BR ++ Forum.break_lines true (y :: l)).
        rewrite (break_lines_after_cr y l E').
        unfold Forum.BR. f_equal. exact IH2.
    + cbn [andb flat_map].
      assert (E : N.eqb x 13 = false) by (apply N.eqb_neq; congruence).
      apply N.eqb_neq in H1. rewrite H1. cbn [flat_map app].
      cbn [Forum.break_lines]. unfold CR, LF. rewrite E.
      destruct (N.eqb_spec 10 x) as [<-|H2].
      * change (N.eqb 10 10) with true. cbn iota.
        unfold Forum.BR. f_equal. exact IH2.
      * assert (E' : N.eqb x 10 = false) by (apply N.eqb_neq; congruence).
        rewrite E'. cbn [app]. f_equal. exact IH2.
Qed.

Section PlainText.
Variable db : unicode_db.
Variable self : Forum.converter.

Lemma startswith_nil (p : pystr) : p <> [] -> startswith p [] = false.
Proof. destruct p; [congruence | reflexivity]. Qed.

(** A pattern that begins with literal text matches only where the text
    stands. *)
Lemma match_needs_literal (p : pystr) (r : regex) (s : pystr) :
  startswith p s = false -> match_at (Cat (Lit p) r) s = None.
Proof. intros H. unfold match_at. cbn [mtch]. now rewrite H. Qed.

(** Where the literal does not occur, the substitution changes nothing. *)
Lemma sub_without_literal (p : pystr) (r : regex) (repl : caps -> pystr)
    (s : pystr) :
  Forum.occurs p s = false -> sub (Cat (Lit p) r) repl s = s.
Proof.
  unfold sub. induction s as [|c t IH]; intros H.
  - cbn [Forum.occurs] in H. rewrite orb_false_r in H.
    cbn [sub_go]. now rewrite (match_needs_literal p r [] H).
  - cbn [Forum.occurs] in H. apply orb_false_iff in H as [H1 H2].
    cbn [sub_go]. rewrite (match_needs_literal p r (c :: t) H1).
    now rewrite (IH H2).
Qed.

Lemma opener_head (p : pystr) :
  Forum.opener p = true ->
  exists x p', p = x :: p' /\ (x = 91 \/ x = 64)%N.
Proof.
  destruct p as [|x p']; [discriminate|].
  unfold Forum.opener. intros H. apply andb_true_iff in H as [H _].
  exists x, p'. split; [reflexivity|].
  apply orb_true_iff in H as [H|H]; apply N.eqb_eq in H; auto.
Qed.

Lemma opener_clean (p : pystr) :
  Forum.opener p = true ->
  Forall (fun c => c <> CR /\ c <> LF /\ c <> 60%N) p.
Proof.
  unfold Forum.opener. intros H. apply andb_true_iff in H as [_ H].
  rewrite forallb_forall in H. apply Forall_forall. intros c Hc.
  specialize (H c Hc). apply negb_true_iff in H.
  apply orb_false_iff in H as [H H3]. apply orb_false_iff in H as [H1 H2].
  apply N.eqb_neq in H1, H2, H3. auto.
Qed.

(** A literal free of CR, LF and [<] that stands at the start of the
    normalized text stood at the start of the text. *)
Lemma startswith_break_lines (p s : pystr) :
  Forall (fun c => c <> CR /\ c <> LF /\ c <> 60%N) p ->
  startswith p (Forum.break_lines false s) = true -> startswith p s = true.
Proof.
  intros Hp. revert s. induction Hp as [|x p [H1 [H2 H3]] Hp IH]; intros s.
  - reflexivity.
  - destruct s as [|c t]; [discriminate|].
    cbn [Forum.break_lines].
    destruct (N.eqb_spec c CR) as [->|Hc1].
    + cbn [Forum.BR app py map list_ascii_of_string startswith].
      apply N.eqb_neq in H3. cbn. cbn in H3. rewrite H3. discriminate.
    + destruct (N.eqb_spec c LF) as [->|Hc2].
      * apply N.eqb_neq in H3. cbn. cbn in H3. rewrite H3. discriminate.
      * cbn [startswith]. intros H. apply andb_true_iff in H as [Ha Hb].
        rewrite Ha. now apply IH.
Qed.

Lemma occurs_after_break (p X : pystr) :
  Forum.opener p = true ->
  Forum.occurs p (Forum.BR ++ X) = Forum.occurs p X.
Proof.
  intros H. destruct (opener_head p H) as [x [p' [-> Hx]]].
  unfold Forum.BR. cbn [py map list_ascii_of_string app].
  cbn [Forum.occurs startswith].
  destruct Hx as [-> | ->]; reflexivity.
Qed.

Lemma occurs_break_lines (p : pystr) (b : bool) (s : pystr) :
  Forum.opener p = true ->
  Forum.occurs p s = false -> Forum.occurs p (Forum.break_lines b s) = false.
Proof.
  intros Hp. revert b. induction s as [|c t IH]; intros b H.
  - exact H.
  - pose proof H as H'. cbn [Forum.occurs] in H'.
    apply orb_false_iff in H' as [H1 H2].
    cbn [Forum.break_lines].
    destruct (N.eqb_spec c CR) as [->|Hc1].
    + rewrite occurs_after_break by exact Hp. now apply IH.
    + destruct (N.eqb_spec c LF) as [->|Hc2].
      * destruct b; [now apply IH|].
        rewrite occurs_after_break by exact Hp. now apply IH.
      * cbn [Forum.occurs]. rewrite (IH false H2), orb_false_r.
        destruct (startswith p (c :: Forum.break_lines false t)) eqn:E;
          [|reflexivity].
        assert (E' : startswith p (Forum.break_lines false (c :: t)) = true).
        { cbn [Forum.break_lines].
          apply N.eqb_neq in Hc1, Hc2. now rewrite Hc1, Hc2. }
        apply (startswith_break_lines p (c :: t) (opener_clean p Hp)) in E'.
        congruence.
Qed.

Lemma no_markup_opener (text p : pystr) :
  Forum.no_markup text = true -> In p Forum.tag_openers ->
  Forum.occurs p (Forum.break_lines false text) = false.
Proof.
  intros H Hin. unfold Forum.no_markup in H. rewrite forallb_forall in H.
  specialize (H p Hin). apply negb_true_iff in H.
  apply occurs_break_lines; [|exact H].
  unfold Forum.tag_openers in Hin. simpl in Hin.
  repeat (destruct Hin as [<-|Hin]; [reflexivity|]). contradiction.
Qed.
End PlainText.

(** C4: on a body without forum markup (none of the bracketed tags, no
    quoted mention) the renderer returns the text with its line breaks
    normalized, each CR LF, CR or LF turned into a break marker and a
    line break, and nothing else changed; the empty text gives the empty
    text. *)
Theorem render_plain_text (db : unicode_db) (self : Forum.converter)
    (text : pystr) (current_discussion_id : option pykey) :
  Forum.no_markup text = true ->
  Forum.convert_plush_bbcode db self text current_discussion_id
    = Forum.break_lines false text
  /\ Forum.break_lines false text
    = replace [LF] (py "<br>" ++ [LF])
        (replace [CR] [LF] (replace [CR; LF] [LF] text))
  /\ Forum.convert_plush_bbcode db self [] current_discussion_id = [].
Proof.
  intros H. split; [|split; [|reflexivity]].
  - destruct text as [|c t]; [reflexivity|].
    unfold Forum.convert_plush_bbcode. cbn [str_truthy negb].
    cbv zeta. rewrite normalization_is_break_lines.
    unfold Forum.re_reply, Forum.re_complex_quote, Forum.re_named_quote,
      Forum.re_pair, Forum.re_mention, Forum.re_url_text,
      Forum.re_ordered_list.
    repeat (rewrite (fun p r repl =>
                       sub_without_literal p r repl
                         (Forum.break_lines false (c :: t)));
            [|apply (no_markup_opener (c :: t) _ H); simpl; tauto]).
    reflexivity.
  - symmetry. apply normalization_is_break_lines.
Qed.

Lemma render_plain_text_witness :
  Forum.convert_plush_bbcode ascii_only Sample.store
      (py "Dear all," ++ [CR; LF] ++ py "see [1] or mail a@b" ++ [CR])
      (Some (KInt 10))
    = py "Dear all,<br>" ++ [LF] ++ py "see [1] or mail a@b<br>" ++ [LF].
Proof.
  destruct (render_plain_text ascii_only Sample.store
              (py "Dear all," ++ [CR; LF] ++ py "see [1] or mail a@b" ++ [CR])
              (Some (KInt 10)) eq_refl) as [H _].
  rewrite H. reflexivity.
Defined.

(** ** Ordering of comments and messages *)

Lemma str_leb_refl (a : pystr) : str_leb a a = true.
Proof.
  induction a as [|x a IH]; [reflexivity|].
  cbn [str_leb]. rewrite N.ltb_irrefl, N.eqb_refl. exact IH.
Qed.

Lemma str_leb_total (a b : pystr) : str_leb a b = false -> str_leb b a = true.
Proof.
  revert b. induction a as [|x a IH]; intros [|y b]; cbn [str_leb];
    try discriminate; try reflexivity.
  destruct (N.ltb_spec x y) as [Hxy|Hxy]; [discriminate|].
  destruct (N.eqb_spec x y) as [->|Hne].
  - rewrite N.ltb_irrefl, N.eqb_refl. apply IH.
  - intros _. assert (Hlt : (y < x)%N) by lia.
    apply N.ltb_lt in Hlt. now rewrite Hlt.
Qed.

Section StableSort.
Variable A : Type.
Variable key : A -> pystr.

Lemma sort_insert_perm (x : A) (l : list A) :
  Permutation (sort_insert key x l) (x :: l).
Proof.
  induction l as [|y l IH]; cbn [sort_insert]; [reflexivity|].
  destruct (str_leb (key x) (key y)); [reflexivity|].
  rewrite IH. apply perm_swap.
Qed.

Lemma sort_by_perm (l : list A) : Permutation (sort_by key l) l.
Proof.
  induction l as [|x l IH]; cbn [sort_by]; [reflexivity|].
  rewrite sort_insert_perm. now constructor.
Qed.

Lemma sort_insert_hd (x a : A) (l : list A) :
  key_le key a x -> HdRel (key_le key) a l ->
  HdRel (key_le key) a (sort_insert key x l).
Proof.
  intros Hax Hl. destruct l as [|y l]; cbn [sort_insert].
  - now constructor.
  - destruct (str_leb (key x) (key y)); constructor; [exact Hax|].
    now inversion Hl.
Qed.

Lemma sort_insert_sorted (x : A) (l : list A) :
  Sorted (key_le key) l -> Sorted (key_le key) (sort_insert key x l).
Proof.
  induction 1 as [|y l Hs IH Hh]; cbn [sort_insert].
  - repeat constructor.
  - destruct (str_leb (key x) (key y)) eqn:E.
    + constructor; [now constructor | now constructor].
    + constructor; [exact IH|].
      apply sort_insert_hd; [|exact Hh].
      now apply str_leb_total.
Qed.

Lemma sort_by_sorted (l : list A) : Sorted (key_le key) (sort_by key l).
Proof.
  induction l as [|x l IH]; cbn [sort_by]; [constructor|].
  now apply sort_insert_sorted.
Qed.

(** Elements of one key keep their order. *)
Lemma sort_insert_stable (k : pystr) (x : A) (l : list A) :
  filter (fun a => str_eqb (key a) k) (sort_insert key x l)
    = filter (fun a => str_eqb (key a) k) (x :: l).
Proof.
  induction l as [|y l IH]; cbn [sort_insert]; [reflexivity|].
  destruct (str_leb (key x) (key y)) eqn:E; [reflexivity|].
  cbn [filter] in *. rewrite IH.
  destruct (str_eqb (key x) k) eqn:Ex; [|reflexivity].
  destruct (str_eqb (key y) k) eqn:Ey; [|reflexivity].
  apply str_eqb_eq in Ex, Ey. rewrite Ex, Ey, str_leb_refl in E.
  discriminate.
Qed.

Lemma sort_by_stable (k : pystr) (l : list A) :
  filter (fun a => str_eqb (key a) k) (sort_by key l)
    = filter (fun a => str_eqb (key a) k) l.
Proof.
  induction l as [|x l IH]; cbn [sort_by]; [reflexivity|].
  rewrite sort_insert_stable. cbn [filter]. now rewrite IH.
Qed.
End StableSort.

(** ** Dictionaries *)

Section Dictionaries.
Variable V : Type.

Lemma dict_get_set_same (k : pykey) (v : V) (d : dict pykey V) :
  dict_get key_eqb k (dict_set key_eqb k v d) = Some v.
Proof.
  induction d as [|[k' v'] d IH]; cbn [dict_set dict_get].
  - now rewrite key_eqb_refl.
  - destruct (key_eqb k k') eqn:E; cbn [dict_get]; rewrite E;
      [reflexivity | exact IH].
Qed.

Lemma dict_get_set_other (k k' : pykey) (v : V) (d : dict pykey V) :
  k <> k' -> dict_get key_eqb k' (dict_set key_eqb k v d)
             = dict_get key_eqb k' d.
Proof.
  intros Hne.
  assert (E' : key_eqb k' k = false) by (apply key_eqb_neq; congruence).
  induction d as [|[k0 v0] d IH]; cbn [dict_set dict_get].
  - now rewrite E'.
  - destruct (key_eqb k k0) eqn:E; cbn [dict_get].
    + apply key_eqb_eq in E. subst k0. now rewrite E'.
    + now rewrite IH.
Qed.

Lemma dict_keys_set (k : pykey) (v : V) (d : dict pykey V) :
  dict_keys (dict_set key_eqb k v d)
    = if dict_mem key_eqb k d then dict_keys d else dict_keys d ++ [k].
Proof.
  unfold dict_mem, dict_keys.
  induction d as [|[k' v'] d IH]; cbn [dict_set dict_get map]; [reflexivity|].
  destruct (key_eqb k k') eqn:E; cbn [map fst]; [reflexivity|].
  rewrite IH. now destruct (dict_get key_eqb k d).
Qed.

Lemma dict_mem_In (k : pykey) (d : dict pykey V) :
  dict_mem key_eqb k d = true <-> In k (dict_keys d).
Proof.
  unfold dict_mem, dict_keys.
  induction d as [|[k' v'] d IH]; cbn [dict_get map In fst].
  - split; [discriminate | tauto].
  - destruct (key_eqb k k') eqn:E.
    + apply key_eqb_eq in E. split; auto.
    + apply key_eqb_neq in E. rewrite IH. split; [auto|].
      intros [H|H]; [congruence | exact H].
Qed.

Lemma dict_set_NoDup (k : pykey) (v : V) (d : dict pykey V) :
  NoDup (dict_keys d) -> NoDup (dict_keys (dict_set key_eqb k v d)).
Proof.
  intros H. rewrite dict_keys_set.
  destruct (dict_mem key_eqb k d) eqn:E; [exact H|].
  apply NoDup_app; [exact H | repeat constructor; auto |].
  intros x Hx [<-|[]].
  apply dict_mem_In in Hx. congruence.
Qed.

Lemma dict_get_In (k : pykey) (v : V) (d : dict pykey V) :
  NoDup (dict_keys d) -> In (k, v) d -> dict_get key_eqb k d = Some v.
Proof.
  unfold dict_keys.
  induction d as [|[k' v'] d IH]; cbn [map fst dict_get]; [contradiction|].
  intros Hnd [Hin|Hin].
  - injection Hin as -> ->. now rewrite key_eqb_refl.
  - inversion Hnd as [|? ? Hk Hd]; subst.
    destruct (key_eqb k k') eqn:E.
    + apply key_eqb_eq in E. subst k'. exfalso. apply Hk.
      change k with (fst (k, v)). now apply in_map.
    + now apply IH.
Qed.
End Dictionaries.

Section Grouping.
Variable A : Type.
Variable owner : A -> pykey.

Lemma values_of_append (k : pykey) (x : A) (d : dict pykey (list A)) :
  values_of key_eqb k (dict_append (owner x) x d)
    = values_of key_eqb k d ++ (if key_eqb (owner x) k then [x] else []).
Proof.
  unfold values_of, dict_append.
  destruct (key_eqb (owner x) k) eqn:E.
  - apply key_eqb_eq in E. subst k.
    destruct (dict_get key_eqb (owner x) d); now rewrite dict_get_set_same.
  - apply key_eqb_neq in E. rewrite app_nil_r.
    destruct (dict_get key_eqb (owner x) d);
      now rewrite dict_get_set_other.
Qed.

Lemma dict_append_NoDup (x : A) (d : dict pykey (list A)) :
  NoDup (dict_keys d) -> NoDup (dict_keys (dict_append (owner x) x d)).
Proof.
  intros H. unfold dict_append.
  destruct (dict_get key_eqb (owner x) d); now apply dict_set_NoDup.
Qed.

Lemma group_values (k : pykey) (xs : list A) (d : dict pykey (list A)) :
  values_of key_eqb k
    (fold_left (fun acc x => dict_append (owner x) x acc) xs d)
  = values_of key_eqb k d ++ filter (fun x => key_eqb (owner x) k) xs.
Proof.
  revert d. induction xs as [|x xs IH]; intros d; cbn [fold_left filter].
  - now rewrite app_nil_r.
  - rewrite IH, values_of_append, <- app_assoc.
    now destruct (key_eqb (owner x) k).
Qed.

Lemma group_NoDup (xs : list A) (d : dict pykey (list A)) :
  NoDup (dict_keys d) ->
  NoDup (dict_keys (fold_left (fun acc x => dict_append (owner x) x acc) xs d)).
Proof.
  revert d. induction xs as [|x xs IH]; intros d H; cbn [fold_left];
    [exact H|].
  apply IH. now apply dict_append_NoDup.
Qed.

(** Each entry of the grouping holds the elements of its key, in input
    order. *)
Lemma group_entries (xs : list A) (k : pykey) (l : list A) :
  In (k, l) (fold_left (fun acc x => dict_append (owner x) x acc) xs []) ->
  l = filter (fun x => key_eqb (owner x) k) xs.
Proof.
  intros Hin.
  pose proof (group_NoDup xs [] (NoDup_nil _)) as Hnd.
  pose proof (dict_get_In _ k l _ Hnd Hin) as Hg.
  pose proof (group_values k xs []) as Hv.
  unfold values_of in Hv at 1. rewrite Hg in Hv. exact Hv.
Qed.

Lemma fold_left_concat (B : Type) (f : B -> A -> B) (ls : list (list A))
    (b : B) :
  fold_left (fun acc l => fold_left f l acc) ls b
    = fold_left f (List.concat ls) b.
Proof.
  revert b. induction ls as [|l ls IH]; intros b; cbn [fold_left List.concat];
    [reflexivity|].
  now rewrite IH, fold_left_app.
Qed.
End Grouping.

Lemma load_comments_grouping (ds : dict pykey Forum.discussion)
    (xs : list Forum.comment) (acc : dict pykey (list Forum.comment)) :
  fold_left (Forum.load_comment ds) xs acc
    = fold_left (fun acc c => dict_append (Forum.c_DiscussionID c) c acc)
        (map (fun c => Forum.with_Body c
                         (Forum.fix_windows_1252_encoding (Forum.c_Body c)))
             (filter (fun c => dict_mem key_eqb (Forum.c_DiscussionID c) ds)
                     xs))
        acc.
Proof.
  revert acc. induction xs as [|c xs IH]; intros acc; [reflexivity|].
  cbn [fold_left filter]. rewrite IH. unfold Forum.load_comment at 1.
  destruct (dict_mem key_eqb (Forum.c_DiscussionID c) ds); reflexivity.
Qed.

Lemma sorted_entries (A : Type) (key : A -> pystr) (owner : A -> pykey)
    (xs : list A) :
  Forall
    (fun kv =>
       Sorted (key_le key) (snd kv)
       /\ Permutation (snd kv)
            (filter (fun x => key_eqb (owner x) (fst kv)) xs)
       /\ forall ts,
            filter (fun x => str_eqb (key x) ts) (snd kv)
            = filter (fun x => str_eqb (key x) ts)
                (filter (fun x => key_eqb (owner x) (fst kv)) xs))
    (map (fun kv => (fst kv, sort_by key (snd kv)))
         (fold_left (fun acc x => dict_append (owner x) x acc) xs [])).
Proof.
  apply Forall_forall. intros [k l] Hin.
  apply in_map_iff in Hin as [[k0 l0] [E Hin]].
  cbn [fst snd] in E. injection E as <- <-.
  apply group_entries in Hin. subst l0. cbn [fst snd].
  split; [apply sort_by_sorted|].
  split; [apply sort_by_perm|].
  intros ts. apply sort_by_stable.
Qed.

(** ** Integers and their decimal text *)

Section DecimalText.
Variable db : unicode_db.

Lemma digit_cp_value (n : N) :
  (n <= 9)%N -> digit_value db (digit_cp n) = Some (Z.of_N n).
Proof.
  intros H. unfold digit_value, digit_cp, is_ascii, ascii_digit, between.
  assert (H1 : N.ltb (48 + n) 128 = true) by (apply N.ltb_lt; lia).
  assert (H2 : N.leb 48 (48 + n) = true) by (apply N.leb_le; lia).
  assert (H3 : N.leb (48 + n) 57 = true) by (apply N.leb_le; lia).
  rewrite H1, H2, H3. cbn [andb]. do 2 f_equal. lia.
Qed.

Lemma digit_cp_not_space (n : N) :
  (n <= 9)%N -> int_space db (digit_cp n) = false.
Proof.
  intros H. unfold int_space, digit_cp, is_ascii, between.
  assert (H1 : N.ltb (48 + n) 128 = true) by (apply N.ltb_lt; lia).
  rewrite H1. apply orb_false_iff; split.
  - apply andb_false_iff. right. apply N.leb_gt. lia.
  - apply N.eqb_neq. lia.
Qed.

Ltac uint_cases d IH :=
  induction d as [|d IH|d IH|d IH|d IH|d IH|d IH|d IH|d IH|d IH|d IH].

Lemma uint_digits_not_space (d : Decimal.uint) (c : cp) :
  In c (uint_digits d) -> int_space db c = false.
Proof.
  uint_cases d IH; cbn [uint_digits In]; [tauto | ..];
    (intros [<-|H]; [apply digit_cp_not_space; lia | now apply IH]).
Qed.

Lemma parse_uint_acc (d : Decimal.uint) (p : positive) :
  parse_digits db (uint_digits d) (Zpos p) true
    = Some (Zpos (Pos.of_uint_acc d p)).
Proof.
  revert p. uint_cases d IH; intros p; cbn [uint_digits parse_digits];
    [reflexivity | ..];
    (rewrite digit_cp_value by lia; cbn [Pos.of_uint_acc];
     rewrite <- IH; f_equal; lia).
Qed.

Lemma parse_uint (d : Decimal.uint) :
  parse_digits db (uint_digits d) 0 true = Some (Z.of_N (Pos.of_uint d)).
Proof.
  uint_cases d IH; cbn [uint_digits parse_digits]; [reflexivity | ..];
    rewrite digit_cp_value by lia; cbn [Pos.of_uint];
    [exact IH | ..]; apply parse_uint_acc.
Qed.

Lemma parse_uint_first (d : Decimal.uint) :
  d <> Decimal.Nil ->
  parse_digits db (uint_digits d) 0 false
    = parse_digits db (uint_digits d) 0 true.
Proof.
  destruct d; [congruence | ..]; intros _; cbn [uint_digits parse_digits];
    now rewrite digit_cp_value by lia.
Qed.

Lemma lstrip_none (s : pystr) :
  (forall c, In c s -> int_space db c = false) ->
  lstrip_by (int_space db) s = s.
Proof.
  destruct s as [|c t]; [reflexivity|]. intros H. cbn [lstrip_by].
  now rewrite (H c (or_introl eq_refl)).
Qed.

Lemma strip_none (s : pystr) :
  (forall c, In c s -> int_space db c = false) -> int_strip db s = s.
Proof.
  intros H. unfold int_strip. rewrite (lstrip_none s H).
  rewrite lstrip_none; [apply rev_involutive|].
  intros c Hc. apply H. now apply in_rev.
Qed.

Lemma uint_digits_head (d : Decimal.uint) :
  d <> Decimal.Nil ->
  exists n t, uint_digits d = digit_cp n :: t /\ (n <= 9)%N.
Proof.
  destruct d; [congruence | ..]; intros _; cbn [uint_digits];
    eexists; eexists; (split; [reflexivity | lia]).
Qed.

(** [int(str(z)) = z] *)
Lemma int_of_str_of_int (z : Z) : int_of_str db (str_of_int z) = Some z.
Proof.
  assert (Hminus : int_space db 45 = false) by reflexivity.
  assert (Hparse : forall d, d <> Decimal.Nil ->
            int_of_str db (uint_digits d) = Some (Z.of_N (Pos.of_uint d))
            /\ int_of_str db (45%N :: uint_digits d)
               = Some (- Z.of_N (Pos.of_uint d))%Z).
  { intros d Hd. unfold int_of_str. split.
    - rewrite strip_none by apply uint_digits_not_space.
      destruct (uint_digits_head d Hd) as [n [t [E Hn]]].
      rewrite <- (parse_uint d), <- (parse_uint_first d Hd). rewrite E.
      unfold digit_cp.
      destruct n as [|p]; [reflexivity|].
      do 4 (destruct p as [p|p|]; try reflexivity; try lia).
    - rewrite strip_none.
      + rewrite (parse_uint_first d Hd), parse_uint. reflexivity.
      + intros c [<-|Hc]; [exact Hminus | now apply uint_digits_not_space in Hc]. }
  rewrite <- (DecimalZ.of_to z) at 2. unfold str_of_int.
  destruct z as [|p|p]; cbn [Z.to_int Z.of_int]; unfold Z.of_uint.
  - reflexivity.
  - apply Hparse. apply DecimalPos.Unsigned.to_uint_nonnil.
  - apply Hparse. apply DecimalPos.Unsigned.to_uint_nonnil.
Qed.

Lemma str_of_int_inj (a b : Z) : str_of_int a = str_of_int b -> a = b.
Proof.
  intros H. pose proof (int_of_str_of_int a) as Ha.
  rewrite H, int_of_str_of_int in Ha. congruence.
Qed.
End DecimalText.

(** ** The incremental cache *)

Lemma pyval_nested_ind (P : pyval -> Prop) :
  P VNone -> (forall b, P (VBool b)) -> (forall z, P (VInt z)) ->
  (forall s, P (VStr s)) ->
  (forall l, Forall P l -> P (VList l)) ->
  (forall d, Forall (fun kv => P (snd kv)) d -> P (VDict d)) ->
  forall v, P v.
Proof.
  intros HN HB HI HS HL HD. fix IH 1. intros [|b|z|s|l|d].
  - exact HN.
  - apply HB.
  - apply HI.
  - apply HS.
  - apply HL. induction l as [|x l IHl]; constructor; [apply IH | exact IHl].
  - apply HD. induction d as [|[k x] d IHd]; constructor;
      [apply IH | exact IHd].
Qed.

Section CacheRoundTrip.
Variable db : unicode_db.

Lemma dict_set_fresh (V : Type) (k : pykey) (v : V) (d : dict pykey V) :
  ~ In k (dict_keys d) -> dict_set key_eqb k v d = d ++ [(k, v)].
Proof.
  unfold dict_keys.
  induction d as [|[k' v'] d IH]; cbn [dict_set map fst In app];
    [reflexivity|].
  intros H. destruct (key_eqb k k') eqn:E.
  - apply key_eqb_eq in E. subst. tauto.
  - rewrite IH; [reflexivity | tauto].
Qed.

Lemma set_all_fresh (V : Type) (l acc : dict pykey V) :
  NoDup (dict_keys (acc ++ l)) ->
  fold_left (fun d kv => dict_set key_eqb (fst kv) (snd kv) d) l acc
    = acc ++ l.
Proof.
  revert acc. induction l as [|[k v] l IH]; intros acc H; cbn [fold_left].
  - now rewrite app_nil_r.
  - cbn [fst snd].
    assert (Hk : ~ In k (dict_keys acc)).
    { unfold dict_keys in *. rewrite map_app in H.
      apply NoDup_remove_2 in H. intros Hin. apply H.
      apply in_or_app. now left. }
    rewrite (dict_set_fresh _ k v acc Hk).
    rewrite IH; rewrite <- app_assoc; [reflexivity | exact H].
Qed.

Lemma json_load_object (ms : list (pystr * json)) :
  json_load (JObj ms)
    = VDict (fold_left
               (fun d kv => dict_set key_eqb (fst kv) (snd kv) d)
               (map (fun kv => (KStr (fst kv), json_load (snd kv))) ms) []).
Proof.
  cbn [json_load]. f_equal. generalize (@nil (pykey * pyval)).
  induction ms as [|[k j] ms IH]; intros acc; [reflexivity|].
  cbn [map fold_left fst snd]. apply IH.
Qed.

(** What [json.load] reads back from the dump of a dictionary whose
    values survive the round trip: the same entries, each key as text. *)
Lemma json_load_dump_dict (d : dict pykey pyval) :
  Forall (fun kv => json_load (json_dump (snd kv)) = snd kv) d ->
  NoDup (map (fun kv => KStr (key_str (fst kv))) d) ->
  json_load (json_dump (VDict d))
    = VDict (map (fun kv => (KStr (key_str (fst kv)), snd kv)) d).
Proof.
  intros Hv Hk. cbn [json_dump]. rewrite json_load_object. f_equal.
  rewrite map_map. cbn [fst snd].
  assert (E : map (fun kv => (KStr (key_str (fst kv)),
                              json_load (json_dump (snd kv)))) d
              = map (fun kv => (KStr (key_str (fst kv)), snd kv)) d).
  { induction Hv as [|kv d Hx _ IH]; [reflexivity|].
    cbn [map]. rewrite Hx. f_equal. apply IH. now inversion Hk. }
  rewrite E. rewrite set_all_fresh; [reflexivity|].
  cbn [app]. unfold dict_keys. now rewrite map_map.
Qed.

(** A value that [json.load] can return is read back as it was written. *)
Lemma json_round_trip (v : pyval) : native v -> json_load (json_dump v) = v.
Proof.
  induction v as [|b|z|s|l IH|d IH] using pyval_nested_ind; intros Hn;
    try reflexivity.
  - inversion Hn as [| | | |l' Hl|]; subst. cbn [json_dump json_load].
    f_equal. rewrite map_map. clear Hn.
    induction l as [|x l IHl]; [reflexivity|].
    inversion IH; inversion Hl; subst. cbn [map]. f_equal; auto.
  - inversion Hn as [| | | | |d' Hnd Hd]; subst.
    assert (Hid : map (fun kv => (KStr (key_str (fst kv)), snd kv)) d = d).
    { clear IH Hnd Hn. induction Hd as [|[k x] d [[s Hs] _] _ IHd];
        [reflexivity|].
      cbn [map fst snd] in *. subst k. cbn [key_str]. now rewrite IHd. }
    rewrite json_load_dump_dict.
    + now rewrite Hid.
    + apply Forall_forall. intros kv Hin.
      rewrite Forall_forall in IH, Hd. apply IH; [exact Hin|].
      now apply (Hd kv Hin).
    + replace (map (fun kv => KStr (key_str (fst kv))) d)
        with (map fst (map (fun kv => (KStr (key_str (fst kv)), snd kv)) d))
        by (now rewrite map_map).
      now rewrite Hid.
Qed.

Lemma int_keys_restore (l acc : dict pykey pyval) :
  Forum.int_keyed l -> NoDup (dict_keys (acc ++ l)) ->
  Forum.int_keys db
    (map (fun kv => (KStr (key_str (fst kv)), snd kv)) l) acc
  = Some (acc ++ l).
Proof.
  intros Hk. revert acc.
  induction Hk as [|[k v] l [z Hz] _ IH]; intros acc Hnd.
  - now rewrite app_nil_r.
  - cbn [fst] in Hz. subst k. cbn [map Forum.int_keys fst snd key_str].
    cbn [Forum.int_of_key]. rewrite int_of_str_of_int.
    assert (Hfresh : ~ In (KInt z) (dict_keys acc)).
    { unfold dict_keys in *. rewrite map_app in Hnd.
      apply NoDup_remove_2 in Hnd. intros Hin. apply Hnd.
      apply in_or_app. now left. }
    rewrite (dict_set_fresh _ (KInt z) v acc Hfresh).
    rewrite IH; rewrite <- app_assoc; [reflexivity | exact Hnd].
Qed.

Lemma int_keyed_text_keys_NoDup (d : dict pykey pyval) :
  Forum.int_keyed d -> NoDup (dict_keys d) ->
  NoDup (map (fun kv => KStr (key_str (fst kv))) d).
Proof.
  intros Hk Hnd.
  rewrite <- (map_map fst (fun k => KStr (key_str k))).
  apply NoDup_map_NoDup_ForallPairs; [|exact Hnd].
  intros a b Ha Hb E.
  unfold Forum.int_keyed in Hk. rewrite Forall_forall in Hk.
  apply in_map_iff in Ha as [[ka va] [<- Ha]].
  apply in_map_iff in Hb as [[kb vb] [<- Hb]].
  destruct (Hk _ Ha) as [za Hza]. destruct (Hk _ Hb) as [zb Hzb].
  cbn [fst] in *. subst ka kb. cbn [key_str] in E.
  injection E as E. apply (str_of_int_inj db) in E. now subst.
Qed.

(** One map written and read back. *)
Lemma load_map_of_dump (d : dict pykey pyval) :
  Forum.cacheable_map d ->
  Forum.load_map db (Some (json_dump (VDict d))) = Some d.
Proof.
  intros [Hk [Hnd Hv]]. unfold Forum.load_map.
  rewrite json_load_dump_dict.
  - apply (int_keys_restore d [] Hk Hnd).
  - apply Forall_forall. intros kv Hin. rewrite Forall_forall in Hv.
    apply json_round_trip. now apply Hv.
  - now apply int_keyed_text_keys_NoDup.
Qed.
End CacheRoundTrip.

(** C3: an entity store whose four maps are keyed by integers and hold
    JSON values, written to the cache and read back, is the same store:
    the same keys, as integers and in the same order, with the same
    values. *)
Theorem cache_round_trip (db : unicode_db) (self : Forum.entity_maps) :
  Forum.cacheable self ->
  Forum._load_processed_data db (Some (Forum._save_processed_data self))
    = Some self.
Proof.
  intros [Hd [Hc [Hm Hcat]]].
  unfold Forum._load_processed_data, Forum._save_processed_data.
  cbn [Forum.discussions_json Forum.comments_json Forum.members_json
       Forum.categories_json].
  rewrite !load_map_of_dump by assumption.
  now destruct self.
Qed.

Lemma cache_round_trip_witness :
  Forum._load_processed_data ascii_only
      (Some (Forum._save_processed_data Sample.maps))
    = Some Sample.maps.
Proof.
  apply (cache_round_trip ascii_only Sample.maps).
  unfold Forum.cacheable, Forum.cacheable_map, Forum.int_keyed, Sample.maps.
  cbn [Forum.em_discussions Forum.em_comments Forum.em_members
       Forum.em_categories dict_keys map fst].
  repeat split;
    repeat (first
      [ apply Forall_nil
      | apply Forall_cons
      | apply NoDup_nil
      | apply NoDup_cons
      | apply native_dict
      | apply native_list
      | apply native_none
      | apply native_bool
      | apply native_int
      | apply native_str
      | split
      | (eexists; reflexivity)
      | (cbn [In map fst]; intuition discriminate) ]).
Defined.

(** ** User chunks *)

Section Chunking.
Variable A : Type.

Lemma chunk_count_bounds (n : nat) :
  n <= 50 * Forum.chunk_count n /\ 50 * Forum.chunk_count n < n + 50.
Proof.
  unfold Forum.chunk_count.
  pose proof (Nat.div_mod_eq (n + 49) 50) as E.
  pose proof (Nat.mod_upper_bound (n + 49) 50) as B.
  lia.
Qed.

Lemma range_go_closed (k fuel i stop : nat) :
  stop <= i + 50 * k -> i + 50 * k < stop + 50 -> k <= fuel ->
  range_go fuel i stop 50 = map (fun j => i + 50 * j) (seq 0 k).
Proof.
  revert fuel i. induction k as [|k IH]; intros fuel i H1 H2 H3.
  - destruct fuel as [|f]; [reflexivity|]. cbn [range_go].
    assert (E : Nat.ltb i stop = false) by (apply Nat.ltb_ge; lia).
    now rewrite E.
  - destruct fuel as [|f]; [lia|]. cbn [range_go].
    assert (E : Nat.ltb i stop = true) by (apply Nat.ltb_lt; lia).
    rewrite E. rewrite (IH f (i + 50)) by lia.
    cbn [seq map]. rewrite <- seq_shift, map_map.
    f_equal; [lia|]. apply map_ext. intros j. lia.
Qed.

Lemma range_chunks (n : nat) :
  range 0 n 50 = map (fun j => 50 * j) (seq 0 (Forum.chunk_count n)).
Proof.
  unfold range. pose proof (chunk_count_bounds n) as [H1 H2].
  rewrite (range_go_closed (Forum.chunk_count n)) by lia.
  reflexivity.
Qed.

Lemma enumerate_map_seq (f : nat -> A) (k : nat) :
  enumerate (map f (seq 0 k)) = map (fun j => (j, f j)) (seq 0 k).
Proof.
  unfold enumerate. rewrite length_map, length_seq.
  generalize 0. induction k as [|k IH]; intros s; [reflexivity|].
  cbn [seq map combine]. now rewrite IH.
Qed.

(** The slices of 50 make up the list. *)
Lemma slices_concat (k : nat) (l : list A) :
  List.length l <= 50 * k ->
  List.concat (map (fun j => firstn 50 (skipn (50 * j) l)) (seq 0 k)) = l.
Proof.
  revert l. induction k as [|k IH]; intros l H.
  - destruct l; [reflexivity | cbn in H; lia].
  - cbn [seq map List.concat]. rewrite <- seq_shift, map_map.
    rewrite (map_ext _ (fun j => firstn 50 (skipn (50 * j) (skipn 50 l)))).
    + rewrite IH; [|rewrite length_skipn; lia].
      change (50 * 0) with 0. cbn [skipn]. apply firstn_skipn.
    + intros j. rewrite skipn_skipn. do 2 f_equal. lia.
Qed.

Lemma slice_chunk (l : list A) (i : nat) :
  slice l i (i + 50) = firstn 50 (skipn i l).
Proof. unfold slice. f_equal. lia. Qed.
End Chunking.

Section FreshKeys.
Variables K V : Type.
Variable eqb : K -> K -> bool.
Hypothesis eqb_eq : forall a b, eqb a b = true <-> a = b.

Lemma dict_set_new (k : K) (v : V) (d : dict K V) :
  ~ In k (dict_keys d) -> dict_set eqb k v d = d ++ [(k, v)].
Proof.
  unfold dict_keys.
  induction d as [|[k' v'] d IH]; cbn [dict_set map fst In app];
    [reflexivity|].
  intros H. destruct (eqb k k') eqn:E.
  - apply eqb_eq in E. subst. tauto.
  - rewrite IH; [reflexivity | tauto].
Qed.

Lemma dict_get_entry (k : K) (v : V) (d : dict K V) :
  NoDup (dict_keys d) -> In (k, v) d -> dict_get eqb k d = Some v.
Proof.
  unfold dict_keys.
  induction d as [|[k' v'] d IH]; cbn [map fst dict_get]; [contradiction|].
  intros Hnd [Hin|Hin].
  - injection Hin as -> ->.
    now rewrite (proj2 (eqb_eq k k) eq_refl).
  - inversion Hnd as [|? ? Hk Hd]; subst.
    destruct (eqb k k') eqn:E.
    + apply eqb_eq in E. subst k'. exfalso. apply Hk.
      change k with (fst (k, v)). now apply in_map.
    + now apply IH.
Qed.

Lemma dict_get_found (k : K) (v : V) (d : dict K V) :
  dict_get eqb k d = Some v -> In (k, v) d.
Proof.
  induction d as [|[k' v'] d IH]; cbn [dict_get]; [discriminate|].
  destruct (eqb k k') eqn:E.
  - apply eqb_eq in E. intros [= ->]. subst. now left.
  - intros H. right. now apply IH.
Qed.
End FreshKeys.

Lemma NoDup_app_fresh (A : Type) (l1 l2 : list A) (x : A) :
  NoDup (l1 ++ x :: l2) -> ~ In x l1 /\ NoDup ((l1 ++ [x]) ++ l2).
Proof.
  intros H. split.
  - apply NoDup_remove_2 in H. intros Hin. apply H. apply in_or_app. now left.
  - now rewrite <- app_assoc.
Qed.

Section ChunkFiles.
Variable self : Forum.converter.
Variable user_discussions : dict pykey (list Forum.disc_entry).
Variable user_comments : dict pykey (list Forum.comment_entry).

Let data_of := Forum.user_data_of self user_discussions user_comments.

Lemma fill_chunk (chunk_num : nat) (ids : list pykey)
    (cd : dict pykey Forum.user_data) (uc : dict pykey nat) :
  NoDup (dict_keys cd ++ ids) -> NoDup (dict_keys uc ++ ids) ->
  fold_left (Forum.chunk_user self user_discussions user_comments chunk_num)
    ids (cd, uc)
  = (cd ++ map (fun u => (u, data_of u)) ids,
     uc ++ map (fun u => (u, chunk_num)) ids).
Proof.
  revert cd uc. induction ids as [|u ids IH]; intros cd uc H1 H2.
  - cbn [fold_left map]. now rewrite !app_nil_r.
  - cbn [fold_left map]. unfold Forum.chunk_user at 2. cbn [fst snd].
    apply NoDup_app_fresh in H1 as [F1 N1].
    apply NoDup_app_fresh in H2 as [F2 N2].
    rewrite (dict_set_new _ _ key_eqb key_eqb_eq u _ cd F1).
    rewrite (dict_set_new _ _ key_eqb key_eqb_eq u _ uc F2).
    rewrite IH.
    + now rewrite <- !app_assoc.
    + unfold dict_keys in *. rewrite map_app. exact N1.
    + unfold dict_keys in *. rewrite map_app. exact N2.
Qed.
End ChunkFiles.

Lemma NoDup_app_disjoint (A : Type) (l1 l2 : list A) (x : A) :
  NoDup (l1 ++ l2) -> In x l1 -> In x l2 -> False.
Proof.
  induction l1 as [|a l1 IH]; cbn [app In]; [tauto|].
  intros H [->|H1] H2.
  - inversion H as [|? ? Hn _]; subst. apply Hn. apply in_or_app. now right.
  - inversion H; subst. now apply IH.
Qed.

Lemma NoDup_flat_map_unique (A B : Type) (f : A -> list B) (js : list A)
    (j j' : A) (x : B) :
  NoDup (flat_map f js) -> In j js -> In j' js ->
  In x (f j) -> In x (f j') -> j = j'.
Proof.
  induction js as [|a js IH]; cbn [flat_map In]; [tauto|].
  intros H [->|Hj] [->|Hj'] Hx Hx'.
  - reflexivity.
  - exfalso. apply (NoDup_app_disjoint _ _ _ x H Hx).
    apply in_flat_map. now exists j'.
  - exfalso. apply (NoDup_app_disjoint _ _ _ x H Hx').
    apply in_flat_map. now exists j.
  - apply IH; auto. now apply NoDup_app_remove_l in H.
Qed.

Lemma chunk_path_inj (a b : nat) :
  Forum.chunk_path a = Forum.chunk_path b -> a = b.
Proof.
  unfold Forum.chunk_path. intros H.
  apply app_inv_head in H. apply app_inv_tail in H.
  apply (str_of_int_inj ascii_only) in H. lia.
Qed.

Lemma chunk_path_not_mapping (j : nat) :
  Forum.chunk_path j <> Forum.mapping_path.
Proof.
  intros H. apply (f_equal (fun l => nth 7 l 0%N)) in H.
  vm_compute in H. discriminate.
Qed.

Section ChunkLoop.
Variable self : Forum.converter.
Variable user_discussions : dict pykey (list Forum.disc_entry).
Variable user_comments : dict pykey (list Forum.comment_entry).
Variable all_users : list pykey.

Let data_of := Forum.user_data_of self user_discussions user_comments.
Let ids (j : nat) : list pykey := firstn 50 (skipn (50 * j) all_users).
Let file_of (j : nat) : pystr * Forum.file :=
  (Forum.chunk_path j, Forum.ChunkFile (map (fun u => (u, data_of u)) (ids j))).
Let entries (j : nat) : list (pykey * nat) := map (fun u => (u, j)) (ids j).

Lemma chunk_loop (js : list nat) (fs : Forum.files) (uc : dict pykey nat) :
  NoDup (dict_keys fs ++ map Forum.chunk_path js) ->
  NoDup (dict_keys uc ++ flat_map ids js) ->
  fold_left
    (Forum.chunk_step self user_discussions user_comments all_users)
    (map (fun j => (j, 50 * j)) js) (fs, uc)
  = (fs ++ map file_of js, uc ++ flat_map entries js).
Proof.
  revert fs uc. induction js as [|j js IH]; intros fs uc H1 H2.
  - cbn [map fold_left flat_map]. now rewrite !app_nil_r.
  - cbn [map fold_left flat_map] in *.
    unfold Forum.chunk_step at 2. cbn [fst snd].
    unfold Forum.chunk_size. rewrite slice_chunk.
    rewrite app_assoc in H2.
    pose proof (fill_chunk self user_discussions user_comments j
                  (firstn 50 (skipn (50 * j) all_users)) [] uc) as Hf.
    unfold dict in Hf |- *. rewrite Hf; clear Hf.
    + cbn [fst snd app]. unfold Forum.write.
      apply NoDup_app_fresh in H1 as [F1 N1].
      rewrite (dict_set_new _ _ str_eqb str_eqb_eq _ _ fs F1).
      rewrite IH.
      * unfold file_of, entries, ids, data_of. now rewrite <- !app_assoc.
      * unfold dict_keys in *. rewrite map_app. exact N1.
      * unfold dict_keys in *. rewrite map_app, map_map. cbn [fst].
        rewrite map_id. exact H2.
    + cbn [dict_keys map app].
      apply NoDup_app_remove_r in H2. now apply NoDup_app_remove_l in H2.
    + now apply NoDup_app_remove_r in H2.
Qed.
End ChunkLoop.

Lemma build_user_discussions_total (self : Forum.converter)
    (discussions_meta : list Forum.meta)
    (acc : dict pykey (list Forum.disc_entry)) :
  (forall m, In m discussions_meta ->
     dict_mem key_eqb (Forum.meta_id m) (Forum.discussions self) = true) ->
  exists user_discussions,
    Forum.build_user_discussions self discussions_meta acc
      = Some user_discussions.
Proof.
  revert acc. induction discussions_meta as [|m ms IH]; intros acc H.
  - now exists acc.
  - cbn [Forum.build_user_discussions].
    pose proof (H m (or_introl eq_refl)) as Hm. unfold dict_mem in Hm.
    destruct (dict_get key_eqb (Forum.meta_id m) (Forum.discussions self));
      [|discriminate].
    apply IH. intros m' Hin. apply H. now right.
Qed.

Section ChunkOutput.
Variable self : Forum.converter.
Variable user_discussions : dict pykey (list Forum.disc_entry).
Variable user_comments : dict pykey (list Forum.comment_entry).

Let all_users := dict_keys (Forum.members self).
Let k := Forum.chunk_count (List.length (Forum.members self)).
Let data_of := Forum.user_data_of self user_discussions user_comments.
Let ids (j : nat) : list pykey := firstn 50 (skipn (50 * j) all_users).
Let file_of (j : nat) : pystr * Forum.file :=
  (Forum.chunk_path j, Forum.ChunkFile (map (fun u => (u, data_of u)) (ids j))).
Let entries (j : nat) : list (pykey * nat) := map (fun u => (u, j)) (ids j).

Lemma ids_partition : flat_map ids (seq 0 k) = all_users.
Proof.
  rewrite flat_map_concat_map. apply slices_concat.
  unfold all_users, dict_keys, k. rewrite length_map.
  apply chunk_count_bounds.
Qed.

(** The output tree of the chunk loop, from an empty tree: one file per
    slice of 50 members, then the mapping. *)
Lemma chunk_users_output :
  NoDup all_users ->
  Forum.chunk_users self user_discussions user_comments []
    = map file_of (seq 0 k)
        ++ [(Forum.mapping_path,
             Forum.MappingFile (flat_map entries (seq 0 k)))].
Proof.
  intros Hnd. unfold Forum.chunk_users. cbv zeta.
  fold all_users. unfold Forum.chunk_size.
  rewrite range_chunks, enumerate_map_seq.
  replace (List.length all_users) with (List.length (Forum.members self))
    by (unfold all_users, dict_keys; now rewrite length_map).
  fold k.
  assert (H1 : NoDup (dict_keys (@nil (pystr * Forum.file))
                      ++ map Forum.chunk_path (seq 0 k))).
  { cbn [dict_keys map app].
    apply NoDup_map_NoDup_ForallPairs; [|apply seq_NoDup].
    intros a b _ _. apply chunk_path_inj. }
  assert (H2 : NoDup (dict_keys (@nil (pykey * nat))
                      ++ flat_map (fun j => firstn 50 (skipn (50 * j) all_users))
                           (seq 0 k))).
  { cbn [dict_keys map app]. fold ids. now rewrite ids_partition. }
  pose proof (chunk_loop self user_discussions user_comments all_users
                (seq 0 k) [] [] H1 H2) as Hl.
  unfold Forum.files, dict in Hl |- *. rewrite Hl; clear Hl.
  cbn [fst snd app]. unfold Forum.write.
  rewrite (dict_set_new _ _ str_eqb str_eqb_eq).
  - reflexivity.
  - unfold dict_keys. rewrite map_map. cbn [fst].
    intros Hin. apply in_map_iff in Hin as [j [Hj _]].
    now apply chunk_path_not_mapping in Hj.
Qed.
End ChunkOutput.

(** C5: for a member store of N members, the user-chunk generator, run
    on an empty output tree, writes ceil(N/50) chunk files and the chunk
    mapping; every member ID is in the data of a chunk file, of no other
    chunk file, and the mapping gives that ID the number of that file. *)
Theorem user_chunks_partition (db : unicode_db) (self : Forum.converter)
    (discussions_meta : list Forum.meta) :
  NoDup (dict_keys (Forum.members self)) ->
  (forall m, In m discussions_meta ->
     dict_mem key_eqb (Forum.meta_id m) (Forum.discussions self) = true) ->
  exists fs mapping,
    Forum.generate_user_data_chunks db self discussions_meta [] = Some fs
    /\ List.length (filter Forum.is_chunk_file fs)
       = Forum.chunk_count (List.length (Forum.members self))
    /\ (List.length (Forum.members self)
          <= 50 * Forum.chunk_count (List.length (Forum.members self))
        /\ 50 * Forum.chunk_count (List.length (Forum.members self))
          < List.length (Forum.members self) + 50)
    /\ dict_get str_eqb Forum.mapping_path fs = Some (Forum.MappingFile mapping)
    /\ forall user_id, In user_id (dict_keys (Forum.members self)) ->
         exists chunk_num chunk_data,
           chunk_num < Forum.chunk_count (List.length (Forum.members self))
           /\ dict_get str_eqb (Forum.chunk_path chunk_num) fs
              = Some (Forum.ChunkFile chunk_data)
           /\ In user_id (dict_keys chunk_data)
           /\ dict_get key_eqb user_id mapping = Some chunk_num
           /\ forall path chunk_data',
                dict_get str_eqb path fs = Some (Forum.ChunkFile chunk_data') ->
                In user_id (dict_keys chunk_data') ->
                path = Forum.chunk_path chunk_num.
Proof.
  intros Hnd Hmeta. unfold Forum.generate_user_data_chunks.
  destruct (build_user_discussions_total self discussions_meta [] Hmeta)
    as [ud Hud].
  rewrite Hud.
  set (ucm := Forum.build_user_comments db self).
  set (k := Forum.chunk_count (List.length (Forum.members self))).
  set (all := dict_keys (Forum.members self)) in *.
  set (ids := fun j => firstn 50 (skipn (50 * j) all)).
  set (data_of := Forum.user_data_of self ud ucm).
  set (file_of := fun j =>
         (Forum.chunk_path j,
          Forum.ChunkFile (map (fun u => (u, data_of u)) (ids j)))).
  set (mapping := flat_map (fun j => map (fun u => (u, j)) (ids j)) (seq 0 k)).
  assert (Hfs : Forum.chunk_users self ud ucm []
                = map file_of (seq 0 k)
                    ++ [(Forum.mapping_path, Forum.MappingFile mapping)])
    by (apply chunk_users_output; exact Hnd).
  assert (Hpart : flat_map ids (seq 0 k) = all) by apply ids_partition.
  assert (Hkeys_fs : NoDup (dict_keys
            (map file_of (seq 0 k)
               ++ [(Forum.mapping_path, Forum.MappingFile mapping)]))).
  { unfold dict_keys. rewrite map_app, map_map. cbn [map fst].
    apply NoDup_app.
    - apply NoDup_map_NoDup_ForallPairs; [|apply seq_NoDup].
      intros a b _ _. apply chunk_path_inj.
    - repeat constructor. auto.
    - intros p Hp [<-|[]]. apply in_map_iff in Hp as [j [Hj _]].
      now apply chunk_path_not_mapping in Hj. }
  assert (Hkeys_map : dict_keys mapping = all).
  { unfold dict_keys, mapping. rewrite <- Hpart.
    rewrite !flat_map_concat_map, concat_map, map_map.
    f_equal. apply map_ext. intros j. rewrite map_map. cbn [fst].
    apply map_id. }
  exists (Forum.chunk_users self ud ucm []), mapping.
  rewrite Hfs. split; [reflexivity|]. split.
  { rewrite filter_app. cbn [filter Forum.is_chunk_file snd].
    rewrite app_nil_r.
    rewrite forallb_filter_id.
    - now rewrite length_map, length_seq.
    - apply forallb_forall. intros pf Hin.
      apply in_map_iff in Hin as [j [<- _]]. reflexivity. }
  split; [apply chunk_count_bounds|]. split.
  { apply (dict_get_entry _ _ str_eqb str_eqb_eq _ _ _ Hkeys_fs).
    apply in_or_app. right. now left. }
  intros uid Huid. fold all in Huid. rewrite <- Hpart in Huid.
  apply in_flat_map in Huid as [j [Hj Hin]].
  exists j, (map (fun u => (u, data_of u)) (ids j)).
  split; [now apply in_seq in Hj|]. split.
  { apply (dict_get_entry _ _ str_eqb str_eqb_eq _ _ _ Hkeys_fs).
    apply in_or_app. left. apply in_map_iff. now exists j. }
  split.
  { unfold dict_keys. rewrite map_map. cbn [fst]. now rewrite map_id. }
  split.
  { apply (dict_get_entry _ _ key_eqb key_eqb_eq).
    - rewrite Hkeys_map. exact Hnd.
    - unfold mapping. apply in_flat_map. exists j. split; [exact Hj|].
      apply in_map_iff. now exists uid. }
  intros path cd' Hget Hcd'.
  apply (dict_get_found _ _ str_eqb str_eqb_eq) in Hget.
  apply in_app_or in Hget as [Hget|[Hget|[]]]; [|discriminate].
  apply in_map_iff in Hget as [j' [E Hj']].
  unfold file_of in E. injection E as <- <-.
  f_equal. symmetry.
  apply (NoDup_flat_map_unique _ _ ids (seq 0 k) j j' uid); auto.
  - rewrite Hpart. exact Hnd.
  - unfold dict_keys in Hcd'. rewrite map_map in Hcd'. cbn [fst] in Hcd'.
    now rewrite map_id in Hcd'.
Qed.

Lemma user_chunks_partition_witness :
  exists fs mapping,
    Forum.generate_user_data_chunks ascii_only Sample.store [Sample.meta10] []
      = Some fs
    /\ List.length (filter Forum.is_chunk_file fs)
       = Forum.chunk_count (List.length (Forum.members Sample.store))
    /\ (List.length (Forum.members Sample.store)
          <= 50 * Forum.chunk_count (List.length (Forum.members Sample.store))
        /\ 50 * Forum.chunk_count (List.length (Forum.members Sample.store))
          < List.length (Forum.members Sample.store) + 50)
    /\ dict_get str_eqb Forum.mapping_path fs = Some (Forum.MappingFile mapping)
    /\ forall user_id, In user_id (dict_keys (Forum.members Sample.store)) ->
         exists chunk_num chunk_data,
           chunk_num
             < Forum.chunk_count (List.length (Forum.members Sample.store))
           /\ dict_get str_eqb (Forum.chunk_path chunk_num) fs
              = Some (Forum.ChunkFile chunk_data)
           /\ In user_id (dict_keys chunk_data)
           /\ dict_get key_eqb user_id mapping = Some chunk_num
           /\ forall path chunk_data',
                dict_get str_eqb path fs = Some (Forum.ChunkFile chunk_data') ->
                In user_id (dict_keys chunk_data') ->
                path = Forum.chunk_path chunk_num.
Proof.
  apply (user_chunks_partition ascii_only Sample.store [Sample.meta10]).
  - cbn. repeat constructor; cbn; intuition discriminate.
  - intros m [<-|[]]. reflexivity.
Defined.

(** With 120 members the generator writes three chunk files; member 51
    is in the second, [chunk-1.js], and the mapping says so. *)
Example chunks_of_120_members :
  option_map (fun fs => List.length (filter Forum.is_chunk_file fs))
    (Forum.generate_user_data_chunks ascii_only Sample.crowd [] []) = Some 3
  /\ option_map
       (fun fs =>
          match dict_get str_eqb (py "assets/user-chunks/chunk-1.js") fs with
          | Some (Forum.ChunkFile cd) => dict_mem key_eqb (KInt 51) cd
          | _ => false
          end)
       (Forum.generate_user_data_chunks ascii_only Sample.crowd [] [])
     = Some true
  /\ option_map
       (fun fs =>
          match dict_get str_eqb Forum.mapping_path fs with
          | Some (Forum.MappingFile m) => dict_get key_eqb (KInt 51) m
          | _ => None
          end)
       (Forum.generate_user_data_chunks ascii_only Sample.crowd [] [])
     = Some (Some 1).
Proof. repeat split; vm_compute; reflexivity. Qed.

(** ** The programs run on small inputs *)

(** The slug of the title of the specification's end-to-end scenario;
    separators collapse, also at the ends of the title. *)
Example slug_examples (db : unicode_db) :
  Forum.generate_slug db (py "Hello, World!") = py "hello-world"
  /\ Forum.generate_slug db (py "a - -b  c-") = py "a-b-c-"
  /\ Forum.generate_slug db (py " What_is 'Truth'? ") = py "-what_is-truth-".
Proof. repeat split; vm_compute; reflexivity. Qed.

(** A lazy body ends at the first closing tag: of two nested quotes the
    outer pattern takes the text up to the inner closing tag. *)
Example lazy_body_stops_at_first_close :
  sub Forum.re_complex_quote
      (fun m => py "<" ++ m 1 ++ py "|" ++ m 2 ++ py "|" ++ m 3 ++ py ">")
      (pyq "[quote=`A;12`]x [quote=`B;d10`]y[/quote] z[/quote] t")
  = pyq "<A|12|x [quote=`B;d10`]y> z[/quote] t".
Proof. vm_compute. reflexivity. Qed.

(** [.] stops at a line break unless the pattern is compiled with
    DOTALL: bold text over two lines stays as it is, code does not. *)
Example bold_needs_one_line (db : unicode_db) :
  Forum.convert_plush_bbcode db Sample.store
    (py "[b]one" ++ [LF] ++ py "two[/b] [code]a" ++ [LF] ++ py "b[/code]")
    None
  = py "[b]one<br>" ++ [LF] ++ py "two[/b] <pre><code>a<br>" ++ [LF]
      ++ py "b</code></pre>".
Proof. vm_compute. reflexivity. Qed.

(** A list block, an unordered one and a reply to a comment. *)
Example list_and_reply (db : unicode_db) :
  Forum.convert_plush_bbcode db Sample.store
    (pyq "[list=1][*]one[*] [*]two[/list][list][*]x[/list][reply=`Ann;42`]")
    (Some (KInt 10))
  = pyq "<ol type=`1`><li>one</li><li>two</li></ol><ul><li>x</li></ul>"
      ++ Forum.reply_link (py "#comment-42") (py "Ann").
Proof. vm_compute. reflexivity. Qed.

(** [re.split] keeps the empty pieces, which the cleaning loop drops. *)
Example split_keeps_empty_pieces :
  split (Lit (py "[*]")) (py "[*]a[*][*]b[*]") = [[]; py "a"; []; py "b"; []]
  /\ split (Lit (py "[*]")) [] = [[]].
Proof. split; reflexivity. Qed.

(** [int] of a key: whitespace, a sign and single underscores pass. *)
Example int_of_str_examples :
  int_of_str ascii_only (py " 12 ") = Some 12%Z
  /\ int_of_str ascii_only (py "-0") = Some 0%Z
  /\ int_of_str ascii_only (py "1_000") = Some 1000%Z
  /\ int_of_str ascii_only (py "1__0") = None
  /\ int_of_str ascii_only (py "_1") = None
  /\ int_of_str ascii_only (py "") = None
  /\ int_of_str ascii_only (py "ten") = None.
Proof. repeat split; reflexivity. Qed.

(** A cache file whose key is no integer makes the load fail. *)
Example cache_with_text_key_is_refused :
  Forum._load_processed_data ascii_only
    (Some {| Forum.discussions_json := Some (JObj [(py "ten", JNull)]);
             Forum.comments_json := Some (JObj []);
             Forum.members_json := Some (JObj []);
             Forum.categories_json := Some (JObj []) |})
  = None
  /\ Forum._load_processed_data ascii_only None = None.
Proof. split; reflexivity. Qed.

(** Comments of one timestamp stay in input order. *)
Example comments_sorted_stably :
  map (fun kv => (fst kv, map Forum.c_CommentID (snd kv)))
    (Forum.comments
       (Forum._load_comments
          (Forum.loaded [(KInt 10, Sample.hello)] [])
          [[ {| Forum.c_CommentID := KInt 3; Forum.c_DiscussionID := KInt 10;
                Forum.c_Body := py "c"; Forum.c_InsertUserID := KInt 7;
                Forum.c_DateInserted := py "2020-01-02" |};
             {| Forum.c_CommentID := KInt 1; Forum.c_DiscussionID := KInt 10;
                Forum.c_Body := py "a"; Forum.c_InsertUserID := KInt 7;
                Forum.c_DateInserted := py "2020-01-01" |} ];
           [ {| Forum.c_CommentID := KInt 9; Forum.c_DiscussionID := KInt 11;
                Forum.c_Body := py "x"; Forum.c_InsertUserID := KInt 7;
                Forum.c_DateInserted := py "2019-01-01" |};
             {| Forum.c_CommentID := KInt 2; Forum.c_DiscussionID := KInt 10;
                Forum.c_Body := py "b"; Forum.c_InsertUserID := KInt 8;
                Forum.c_DateInserted := py "2020-01-01" |} ]]))
  = [(KInt 10, [KInt 1; KInt 2; KInt 3])].
Proof. reflexivity. Qed.

(* ================================================================== *)
(** * Further properties of the two programs *)

(** ** Encoding repair, character by character *)

Lemma flat_map_flat_map (A B C : Type) (f : A -> list B) (g : B -> list C)
    (l : list A) :
  flat_map g (flat_map f l) = flat_map (fun a => flat_map g (f a)) l.
Proof.
  induction l as [|a l IH]; cbn [flat_map]; [reflexivity|].
  now rewrite flat_map_app, IH.
Qed.

Lemma replace_all_pointwise (m : list (cp * pystr)) (s : pystr) :
  replace_all m s = flat_map (fun c => replace_all m [c]) s.
Proof.
  revert s. induction m as [|[w u] m IH]; intros s.
  - cbn. induction s as [|c s IHs]; [reflexivity|]. cbn. now rewrite <- IHs.
  - change (replace_all ((w, u) :: m) s)
      with (replace_all m (replace [w] u s)).
    rewrite IH, replace_char_flat_map, flat_map_flat_map.
    apply flat_map_ext. intros c.
    change (replace_all ((w, u) :: m) [c])
      with (replace_all m (replace [w] u [c])).
    rewrite (IH (replace [w] u [c])), replace_char_flat_map.
    cbn [flat_map]. now rewrite app_nil_r.
Qed.

(** One character through the loop: its table entry, or itself. *)
Lemma replace_all_char (K : list cp) (m : list (cp * pystr)) (c : cp) :
  (forall w u x, In (w, u) m -> In x u -> ~ In x K) ->
  (forall w, In w (keys_of m) -> In w K) ->
  replace_all m [c]
    = match dict_get N.eqb c m with
      | Some u => u
      | None => [c]
      end.
Proof.
  induction m as [|[w u] m IH]; intros Hout Hkeys; [reflexivity|].
  change (replace_all ((w, u) :: m) [c])
    with (replace_all m (replace [w] u [c])).
  rewrite replace_char_flat_map. cbn [flat_map dict_get].
  rewrite app_nil_r, (N.eqb_sym c w).
  destruct (N.eqb w c) eqn:E.
  - apply replace_all_absent. intros w' Hw' Hin.
    apply (Hout w u w'); [now left | exact Hin |].
    apply Hkeys. now right.
  - apply IH.
    + intros w0 u0 x Hin. apply (Hout w0 u0 x). now right.
    + intros w0 Hin. apply Hkeys. now right.
Qed.

Lemma remapped_is_key (c : cp) :
  Forum.remapped c = true <-> In c (keys_of windows_1252_table).
Proof.
  split.
  - unfold Forum.remapped, between. intros H.
    apply andb_true_iff in H as [H1 H2]. apply N.leb_le in H1, H2.
    assert (Hn : forall n : nat, n < 32 ->
              In (N.of_nat (128 + n)) (keys_of windows_1252_table)).
    { intros n Hn.
      do 32 (destruct n as [|n]; [cbn; tauto|]). lia. }
    replace c with (N.of_nat (128 + (N.to_nat c - 128))) by lia.
    apply Hn. lia.
  - intros H. cbn in H.
    repeat (destruct H as [<-|H]; [reflexivity|]). contradiction.
Qed.

(** The table entry of a character, or the character itself. *)
Lemma table_lookup_spec (c : cp) :
  match dict_get N.eqb c windows_1252_table with
  | Some u => Forum.remapped c = true /\ List.length u <= 1
              /\ forall x, In x u -> Forum.remapped x = false
  | None => Forum.remapped c = false
  end.
Proof.
  destruct (Forum.remapped c) eqn:E.
  - apply remapped_is_key in E. cbn in E.
    repeat (destruct E as [<-|E];
            [cbn; repeat split; try lia;
             intros x [<-|[]]; reflexivity |]).
    contradiction.
  - destruct (dict_get N.eqb c windows_1252_table) eqn:G; [|reflexivity].
    exfalso.
    assert (Hin : In c (keys_of windows_1252_table)).
    { clear E. revert G. unfold keys_of.
      induction windows_1252_table as [|[w u] m IH]; cbn [dict_get map fst In];
        [discriminate|].
      destruct (N.eqb_spec c w) as [->|Hne]; [now left|].
      intros G. right. now apply IH. }
    apply remapped_is_key in Hin. congruence.
Qed.

Lemma fix_is_replace_all (text : pystr) :
  Forum.fix_windows_1252_encoding text = replace_all windows_1252_table text
  /\ DM.fix_windows_1252_encoding text = replace_all windows_1252_table text.
Proof. destruct text; split; reflexivity. Qed.

(** X1: the 32 replacements in a row amount to one pass over the text:
    every character is replaced by its table entry, independently of its
    neighbours, and every other character is kept; in both programs. *)
Theorem fix_windows_1252_encoding_single_pass (text : pystr) :
  Forum.fix_windows_1252_encoding text
    = flat_map (fun c => match dict_get N.eqb c Forum.windows_1252_mapping with
                         | Some u => u
                         | None => [c]
                         end) text
  /\ DM.fix_windows_1252_encoding text
    = flat_map (fun c => match dict_get N.eqb c DM.windows_1252_mapping with
                         | Some u => u
                         | None => [c]
                         end) text.
Proof.
  assert (H : replace_all windows_1252_table text
              = flat_map (fun c =>
                  match dict_get N.eqb c windows_1252_table with
                  | Some u => u
                  | None => [c]
                  end) text).
  { rewrite replace_all_pointwise. apply flat_map_ext. intros c.
    apply (replace_all_char (keys_of windows_1252_table)).
    - apply outputs_avoid_keys_spec. reflexivity.
    - auto. }
  destruct (fix_is_replace_all text) as [-> ->].
  unfold Forum.windows_1252_mapping, DM.windows_1252_mapping.
  split; exact H.
Qed.

Lemma single_pass_facts (text : pystr) :
  (forall c, In c (replace_all windows_1252_table text) ->
     Forum.remapped c = false)
  /\ List.length (replace_all windows_1252_table text) <= List.length text
  /\ ((forall c, In c text -> Forum.remapped c = false) ->
      replace_all windows_1252_table text = text).
Proof.
  assert (H : replace_all windows_1252_table text
              = flat_map (fun c =>
                  match dict_get N.eqb c windows_1252_table with
                  | Some u => u
                  | None => [c]
                  end) text).
  { rewrite replace_all_pointwise. apply flat_map_ext. intros c.
    apply (replace_all_char (keys_of windows_1252_table)).
    - apply outputs_avoid_keys_spec. reflexivity.
    - auto. }
  rewrite H. clear H. split; [|split].
  - intros c Hc. apply in_flat_map in Hc as [x [_ Hc]].
    pose proof (table_lookup_spec x) as Hx.
    destruct (dict_get N.eqb x windows_1252_table).
    + now apply Hx.
    + destruct Hc as [<-|[]]. exact Hx.
  - induction text as [|x t IH]; [reflexivity|].
    cbn [flat_map]. rewrite length_app. cbn [List.length].
    pose proof (table_lookup_spec x) as Hx.
    destruct (dict_get N.eqb x windows_1252_table).
    + destruct Hx as [_ [Hx _]]. lia.
    + cbn [List.length]. lia.
  - intros Hc. induction text as [|x t IH]; [reflexivity|].
    cbn [flat_map].
    pose proof (table_lookup_spec x) as Hx.
    destruct (dict_get N.eqb x windows_1252_table).
    + destruct Hx as [Hx _]. rewrite (Hc x (or_introl eq_refl)) in Hx.
      discriminate.
    + cbn [app]. f_equal. apply IH. intros c Hin. apply Hc. now right.
Qed.

(** X2: the repaired text holds no character of U+0080..U+009F, whatever
    the input; in both programs. *)
Theorem fix_windows_1252_encoding_leaves_no_c1 (text : pystr) (c : cp) :
  (In c (Forum.fix_windows_1252_encoding text) -> Forum.remapped c = false)
  /\ (In c (DM.fix_windows_1252_encoding text) -> Forum.remapped c = false).
Proof.
  destruct (fix_is_replace_all text) as [-> ->].
  destruct (single_pass_facts text) as [H _]. split; apply H.
Qed.

(** X3: the repair never lengthens a text, and a text without a
    character of U+0080..U+009F is returned as it is; in both programs. *)
Theorem fix_windows_1252_encoding_shrinks (text : pystr) :
  List.length (Forum.fix_windows_1252_encoding text) <= List.length text
  /\ List.length (DM.fix_windows_1252_encoding text) <= List.length text
  /\ ((forall c, In c text -> Forum.remapped c = false) ->
      Forum.fix_windows_1252_encoding text = text
      /\ DM.fix_windows_1252_encoding text = text).
Proof.
  destruct (fix_is_replace_all text) as [-> ->].
  destruct (single_pass_facts text) as [_ [H1 H2]].
  repeat split; auto.
Qed.

Lemma fix_windows_1252_encoding_chars (text : pystr) (c : cp) :
  In c (Forum.fix_windows_1252_encoding text) -> Forum.remapped c = false.
Proof.
  destruct (fix_is_replace_all text) as [-> _].
  destruct (single_pass_facts text) as [H _]. apply H.
Qed.

(** ** Unordered lists *)

Lemma lstrip_by_head (f : cp -> bool) (s : pystr) (d : cp) :
  lstrip_by f s <> [] -> f (hd d (lstrip_by f s)) = false.
Proof.
  induction s as [|c t IH]; cbn [lstrip_by]; [congruence|].
  destruct (f c) eqn:E; [exact IH | intros _; exact E].
Qed.

Lemma lstrip_by_snoc (f : cp -> bool) (s : pystr) (c : cp) :
  f c = false -> lstrip_by f (s ++ [c]) = lstrip_by f s ++ [c].
Proof.
  intros Hc. induction s as [|x t IH]; cbn [lstrip_by app].
  - now rewrite Hc.
  - destruct (f x); [exact IH | reflexivity].
Qed.

(** A stripped text that is not empty begins and ends with a character
    that is no whitespace. *)
Lemma strip_ends (db : unicode_db) (s : pystr) (d : cp) :
  strip db s <> [] ->
  is_space db (hd d (strip db s)) = false
  /\ is_space db (last (strip db s) d) = false.
Proof.
  unfold strip, rstrip, lstrip. intros Hne.
  set (l := lstrip_by (is_space db) s) in *.
  assert (Hl : l <> []).
  { intros E. apply Hne. rewrite E. reflexivity. }
  pose proof (lstrip_by_head (is_space db) s d Hl) as Hhd. fold l in Hhd.
  destruct l as [|c t]; [congruence|]. cbn [hd] in Hhd.
  cbn [List.rev] in *. rewrite lstrip_by_snoc in * by exact Hhd.
  rewrite rev_app_distr in *. cbn [List.rev app hd] in *.
  split; [exact Hhd|].
  set (r := lstrip_by (is_space db) (List.rev t)) in *.
  destruct r as [|x r'] eqn:Er; [exact Hhd|].
  assert (Hr : lstrip_by (is_space db) (List.rev t) <> []).
  { fold r. rewrite Er. discriminate. }
  pose proof (lstrip_by_head (is_space db) (List.rev t) d Hr) as Hx.
  fold r in Hx. rewrite Er in Hx. cbn [hd] in Hx.
  cbn [List.rev]. 
  change (c :: (List.rev r' ++ [x])) with ((c :: List.rev r') ++ [x]).
  now rewrite last_last.
Qed.

(** X4: an unordered-list block becomes [<ul>] around one [<li>] for
    each item that is not empty once the break markers are removed and
    the whitespace is trimmed; such an item begins and ends with a
    character that is no whitespace, and there are no more of them than
    the pieces between the [[*]] markers. *)
Theorem bullet_list_rendering (db : unicode_db) (m : caps) :
  Forum._convert_unordered_list db m
    = py "<ul>" ++ Forum.li_join (Forum.kept_items db (m 1)) ++ py "</ul>"
  /\ (forall item d, In item (Forum.kept_items db (m 1)) ->
        item <> []
        /\ is_space db (hd d item) = false
        /\ is_space db (last item d) = false)
  /\ List.length (Forum.kept_items db (m 1))
     <= List.length (split (Lit (py "[*]")) (m 1)).
Proof.
  split; [|split].
  - unfold Forum._convert_unordered_list.
    rewrite clean_loop_filter. reflexivity.
  - intros item d Hin.
    assert (Hne : item <> []) by now apply kept_items_nonempty in Hin.
    split; [exact Hne|].
    unfold Forum.kept_items in Hin. apply filter_In in Hin as [Hin _].
    apply in_map_iff in Hin as [raw [E _]]. subst item.
    unfold Forum.clean_item in *. now apply strip_ends.
  - unfold Forum.kept_items.
    etransitivity; [apply filter_length_le|]. now rewrite length_map.
Qed.

(** ** What the grouped stores hold *)

Section GroupingMore.
Variable A : Type.
Variable owner : A -> pykey.

Lemma concat_set_append (k : pykey) (l : list A) (x : A)
    (d : dict pykey (list A)) :
  dict_get key_eqb k d = Some l ->
  Permutation (List.concat (map snd (dict_set key_eqb k (l ++ [x]) d)))
              (x :: List.concat (map snd d)).
Proof.
  induction d as [|[k' v'] d IH]; cbn [dict_get]; [discriminate|].
  cbn [dict_set]. destruct (key_eqb k k') eqn:E.
  - intros [= ->]. cbn [map snd List.concat].
    rewrite <- app_assoc. cbn [app].
    symmetry. apply Permutation_middle.
  - intros Hg. cbn [map snd List.concat]. rewrite (IH Hg).
    symmetry. apply Permutation_middle.
Qed.

Lemma concat_set_new (k : pykey) (x : A) (d : dict pykey (list A)) :
  dict_get key_eqb k d = None ->
  List.concat (map snd (dict_set key_eqb k [x] d))
    = List.concat (map snd d) ++ [x].
Proof.
  induction d as [|[k' v'] d IH]; cbn [dict_get dict_set]; [reflexivity|].
  destruct (key_eqb k k'); [discriminate|].
  intros Hg. cbn [map snd List.concat]. now rewrite (IH Hg), app_assoc.
Qed.

Lemma concat_append (x : A) (d : dict pykey (list A)) :
  Permutation (List.concat (map snd (dict_append (owner x) x d)))
              (x :: List.concat (map snd d)).
Proof.
  unfold dict_append.
  destruct (dict_get key_eqb (owner x) d) eqn:E.
  - now apply concat_set_append.
  - rewrite (concat_set_new _ _ _ E).
    symmetry. apply Permutation_cons_append.
Qed.

(** Grouping loses nothing and repeats nothing. *)
Lemma group_concat (xs : list A) (d : dict pykey (list A)) :
  Permutation
    (List.concat
       (map snd (fold_left (fun acc x => dict_append (owner x) x acc) xs d)))
    (List.concat (map snd d) ++ xs).
Proof.
  revert d. induction xs as [|x xs IH]; intros d; cbn [fold_left].
  - now rewrite app_nil_r.
  - rewrite IH, concat_append. cbn [app]. apply Permutation_middle.
Qed.

(** A key of the grouping is the key of an element. *)
Lemma group_keys (xs : list A) (d : dict pykey (list A)) (k : pykey) :
  In k (dict_keys (fold_left (fun acc x => dict_append (owner x) x acc) xs d))
  -> In k (dict_keys d) \/ exists x, In x xs /\ owner x = k.
Proof.
  revert d. induction xs as [|x xs IH]; intros d; cbn [fold_left];
    [now left|].
  intros H. apply IH in H as [H|[y [Hy E]]].
  - unfold dict_append in H.
    assert (Hk : forall v, In k (dict_keys (dict_set key_eqb (owner x) v d))
                -> In k (dict_keys d) \/ owner x = k).
    { intros v. rewrite dict_keys_set.
      destruct (dict_mem key_eqb (owner x) d); [now left|].
      intros Hin. apply in_app_or in Hin as [Hin|[<-|[]]]; auto. }
    destruct (dict_get key_eqb (owner x) d); apply Hk in H as [H|H];
      try (now left); right; exists x; split; auto; now left.
  - right. exists y. split; [now right | exact E].
Qed.

Variable key : A -> pystr.

Lemma concat_sorted_entries (d : dict pykey (list A)) :
  Permutation
    (List.concat (map snd (map (fun kv => (fst kv, sort_by key (snd kv))) d)))
    (List.concat (map snd d)).
Proof.
  induction d as [|[k l] d IH]; cbn [map snd fst List.concat]; [reflexivity|].
  apply Permutation_app; [apply sort_by_perm | exact IH].
Qed.

Lemma values_of_sorted_entries (k : pykey) (d : dict pykey (list A)) :
  values_of key_eqb k (map (fun kv => (fst kv, sort_by key (snd kv))) d)
    = sort_by key (values_of key_eqb k d).
Proof.
  unfold values_of.
  induction d as [|[k' l] d IH]; cbn [map dict_get fst snd]; [reflexivity|].
  destruct (key_eqb k k'); [reflexivity | exact IH].
Qed.
End GroupingMore.

Lemma kept_comment_spec (ds : dict pykey Forum.discussion)
    (ms : dict pykey pystr) (batches : list (list Forum.comment))
    (c : Forum.comment) :
  In c (Forum.kept_comments (Forum.loaded ds ms) batches) ->
  dict_mem key_eqb (Forum.c_DiscussionID c) ds = true
  /\ (forall x, In x (Forum.c_Body c) -> Forum.remapped x = false)
  /\ exists raw, In raw (List.concat batches)
       /\ c = Forum.with_Body raw
                (Forum.fix_windows_1252_encoding (Forum.c_Body raw)).
Proof.
  unfold Forum.kept_comments, Forum.loaded. cbn [Forum.discussions].
  intros H. apply in_map_iff in H as [raw [<- H]].
  apply filter_In in H as [Hin Hmem]. cbn [Forum.with_Body Forum.c_DiscussionID
    Forum.c_Body].
  split; [exact Hmem|]. split.
  - intros x. apply fix_windows_1252_encoding_chars.
  - now exists raw.
Qed.

Lemma comments_store (ds : dict pykey Forum.discussion)
    (ms : dict pykey pystr) (batches : list (list Forum.comment)) :
  Forum.comments (Forum._load_comments (Forum.loaded ds ms) batches)
  = map (fun kv => (fst kv, sort_by Forum.c_DateInserted (snd kv)))
      (fold_left (fun acc c => dict_append (Forum.c_DiscussionID c) c acc)
         (Forum.kept_comments (Forum.loaded ds ms) batches) []).
Proof.
  unfold Forum._load_comments, Forum.loaded, Forum.kept_comments.
  cbn [Forum.comments Forum.discussions].
  now rewrite fold_left_concat, load_comments_grouping.
Qed.

Lemma sort_by_nil (A : Type) (key : A -> pystr) (l : list A) :
  sort_by key l = [] -> l = [].
Proof.
  intros H. pose proof (sort_by_perm A key l) as P. rewrite H in P.
  now apply Permutation_nil in P.
Qed.

(** The entries of a grouping followed by the sort of each list. *)
Lemma sorted_group_entries (A : Type) (key : A -> pystr)
    (owner : A -> pykey) (xs : list A) (k : pykey) (l : list A) :
  In (k, l)
     (map (fun kv => (fst kv, sort_by key (snd kv)))
        (fold_left (fun acc x => dict_append (owner x) x acc) xs []))
  <-> l <> [] /\ l = sort_by key (filter (fun x => key_eqb (owner x) k) xs).
Proof.
  split.
  - intros Hin. apply in_map_iff in Hin as [[k0 l0] [E Hin]].
    cbn [fst snd] in E. injection E as <- <-.
    assert (Hk : In k0 (dict_keys
               (fold_left (fun acc x => dict_append (owner x) x acc) xs []))).
    { unfold dict_keys. change k0 with (fst (k0, l0)). now apply in_map. }
    apply group_keys in Hk as [[]|[x [Hx Ex]]].
    apply group_entries in Hin. subst l0. split; [|reflexivity].
    intros E. apply sort_by_nil in E.
    assert (Hf : In x (filter (fun x => key_eqb (owner x) k0) xs)).
    { apply filter_In. split; [exact Hx|]. now apply key_eqb_eq. }
    rewrite E in Hf. exact Hf.
  - intros [Hne ->].
    pose proof (group_values A owner k xs []) as Hv.
    unfold values_of in Hv. cbn [dict_get app] in Hv.
    destruct (dict_get key_eqb k
                (fold_left (fun acc x => dict_append (owner x) x acc) xs []))
      as [l0|] eqn:G.
    + apply (dict_get_found _ _ key_eqb key_eqb_eq) in G.
      apply in_map_iff. exists (k, l0). cbn [fst snd]. subst l0.
      split; [reflexivity | exact G].
    + exfalso. apply Hne. now rewrite <- Hv.
Qed.

(** X5: the comment store after the comments are loaded, entry by
    entry: it holds a list under [k] exactly for the discussions that
    have a kept comment, and that list is the kept comments of [k]
    sorted by timestamp.  So the store has no orphan and no empty
    entry: every key is a discussion of the discussion store. *)
Theorem load_comments_entries (ds : dict pykey Forum.discussion)
    (ms : dict pykey pystr) (batches : list (list Forum.comment))
    (k : pykey) (cs : list Forum.comment) :
  (In (k, cs)
      (Forum.comments (Forum._load_comments (Forum.loaded ds ms) batches))
   <-> cs <> []
       /\ cs = sort_by Forum.c_DateInserted
                 (filter (Forum.in_discussion k)
                    (Forum.kept_comments (Forum.loaded ds ms) batches)))
  /\ (In (k, cs)
        (Forum.comments (Forum._load_comments (Forum.loaded ds ms) batches))
      -> dict_mem key_eqb k ds = true).
Proof.
  rewrite comments_store.
  pose proof (sorted_group_entries _ Forum.c_DateInserted
                Forum.c_DiscussionID
                (Forum.kept_comments (Forum.loaded ds ms) batches) k cs)
    as H.
  split; [exact H|].
  intros Hin. apply H in Hin as [Hne ->]. clear H.
  destruct (filter (fun x => key_eqb (Forum.c_DiscussionID x) k)
              (Forum.kept_comments (Forum.loaded ds ms) batches))
    as [|c l] eqn:E; [elim Hne; reflexivity|].
  assert (Hc : In c (filter (fun x => key_eqb (Forum.c_DiscussionID x) k)
              (Forum.kept_comments (Forum.loaded ds ms) batches)))
    by (rewrite E; now left).
  apply filter_In in Hc as [Hc Hk]. apply key_eqb_eq in Hk.
  apply kept_comment_spec in Hc as [Hm _]. now rewrite <- Hk.
Qed.

(** X6: loading loses nothing and repeats nothing.  The comments of
    the store, taken together, are the kept comments, each as often as
    it was read, with no character of U+0080..U+009F left in a body;
    the messages of the message store are the messages read; and no key
    occurs twice in either store. *)
Theorem loading_conserves_posts (ds : dict pykey Forum.discussion)
    (ms : dict pykey pystr) (comment_batches : list (list Forum.comment))
    (message_batches : list (list DM.message)) :
  (Permutation
     (List.concat
        (map snd (Forum.comments
                    (Forum._load_comments (Forum.loaded ds ms)
                       comment_batches))))
     (Forum.kept_comments (Forum.loaded ds ms) comment_batches)
   /\ NoDup (dict_keys (Forum.comments
                          (Forum._load_comments (Forum.loaded ds ms)
                             comment_batches)))
   /\ forall k cs c x,
        In (k, cs) (Forum.comments
                      (Forum._load_comments (Forum.loaded ds ms)
                         comment_batches)) ->
        In c cs -> In x (Forum.c_Body c) -> Forum.remapped x = false)
  /\ Permutation
       (List.concat (map snd (DM.load_message_data [] message_batches)))
       (List.concat message_batches)
  /\ NoDup (dict_keys (DM.load_message_data [] message_batches)).
Proof.
  assert (Hkeys : forall (A : Type) (key : A -> pystr)
                    (d : dict pykey (list A)),
            dict_keys (map (fun kv => (fst kv, sort_by key (snd kv))) d)
            = dict_keys d).
  { intros A key d. unfold dict_keys. rewrite map_map. reflexivity. }
  split; [split; [|split]|split].
  - rewrite comments_store, concat_sorted_entries.
    apply (group_concat _ Forum.c_DiscussionID _ []).
  - rewrite comments_store, Hkeys. apply group_NoDup. constructor.
  - intros k cs c x Hin Hc Hx.
    rewrite comments_store in Hin.
    apply sorted_group_entries in Hin as [_ ->].
    apply (Permutation_in _ (sort_by_perm _ _ _)) in Hc.
    apply filter_In in Hc as [Hc _].
    apply kept_comment_spec in Hc as [_ [Hb _]]. now apply Hb.
  - unfold DM.load_message_data.
    rewrite (fold_left_concat _ _
               (fun acc m => dict_append (DM.m_ConversationID m) m acc)).
    rewrite concat_sorted_entries.
    apply (group_concat _ DM.m_ConversationID _ []).
  - unfold DM.load_message_data.
    rewrite (fold_left_concat _ _
               (fun acc m => dict_append (DM.m_ConversationID m) m acc)).
    rewrite Hkeys. apply group_NoDup. constructor.
Qed.

(** ** The conversations of a user *)

Lemma str_leb_trans (a b c : pystr) :
  str_leb a b = true -> str_leb b c = true -> str_leb a c = true.
Proof.
  revert b c. induction a as [|x a IH]; intros [|y b] [|z c];
    cbn [str_leb]; try easy.
  destruct (N.ltb_spec x y), (N.eqb_spec x y), (N.ltb_spec y z),
    (N.eqb_spec y z), (N.ltb_spec x z), (N.eqb_spec x z);
    try lia; try easy; subst; eauto.
Qed.

Section Descending.
Variable A : Type.
Variable key : A -> pystr.

Lemma sort_insert_desc_perm (x : A) (l : list A) :
  Permutation (sort_insert_desc key x l) (x :: l).
Proof.
  induction l as [|y l IH]; cbn [sort_insert_desc]; [reflexivity|].
  destruct (str_leb (key y) (key x)); [reflexivity|].
  rewrite IH. apply perm_swap.
Qed.

Lemma sort_by_desc_perm (l : list A) : Permutation (sort_by_desc key l) l.
Proof.
  induction l as [|x l IH]; cbn [sort_by_desc]; [reflexivity|].
  rewrite sort_insert_desc_perm. now constructor.
Qed.

Lemma sort_insert_desc_sorted (x : A) (l : list A) :
  Sorted (key_ge key) l -> Sorted (key_ge key) (sort_insert_desc key x l).
Proof.
  induction 1 as [|y l Hs IH Hh]; cbn [sort_insert_desc].
  - repeat constructor.
  - destruct (str_leb (key y) (key x)) eqn:E.
    + constructor; [now constructor | now constructor].
    + constructor; [exact IH|].
      assert (Hyx : key_ge key y x) by now apply str_leb_total.
      destruct l as [|z l]; cbn [sort_insert_desc].
      * now constructor.
      * destruct (str_leb (key z) (key x)); constructor;
          [exact Hyx | now inversion Hh].
Qed.

Lemma sort_by_desc_sorted (l : list A) :
  Sorted (key_ge key) (sort_by_desc key l).
Proof.
  induction l as [|x l IH]; cbn [sort_by_desc]; [constructor|].
  now apply sort_insert_desc_sorted.
Qed.

Lemma sort_insert_desc_stable (k : pystr) (x : A) (l : list A) :
  filter (fun a => str_eqb (key a) k) (sort_insert_desc key x l)
    = filter (fun a => str_eqb (key a) k) (x :: l).
Proof.
  induction l as [|y l IH]; cbn [sort_insert_desc]; [reflexivity|].
  destruct (str_leb (key y) (key x)) eqn:E; [reflexivity|].
  cbn [filter] in *. rewrite IH.
  destruct (str_eqb (key x) k) eqn:Ex; [|reflexivity].
  destruct (str_eqb (key y) k) eqn:Ey; [|reflexivity].
  apply str_eqb_eq in Ex, Ey. rewrite Ex, Ey, str_leb_refl in E.
  discriminate.
Qed.

Lemma sort_by_desc_stable (k : pystr) (l : list A) :
  filter (fun a => str_eqb (key a) k) (sort_by_desc key l)
    = filter (fun a => str_eqb (key a) k) l.
Proof.
  induction l as [|x l IH]; cbn [sort_by_desc]; [reflexivity|].
  rewrite sort_insert_desc_stable. cbn [filter]. now rewrite IH.
Qed.

(** The last element of an ascending list is a greatest one. *)
Lemma sorted_last_greatest (l : list A) (d x : A) :
  Sorted (key_le key) l -> In x l -> key_le key x (last l d).
Proof.
  intros Hs. revert x.
  induction Hs as [|y l Hs IH Hh]; intros x; [contradiction|].
  intros [<-|Hin].
  - destruct l as [|z l]; [apply str_leb_refl|].
    inversion Hh as [|? ? Hyz]; subst.
    unfold key_le in *.
    apply (str_leb_trans _ (key z)); [exact Hyz|].
    change (last (y :: z :: l) d) with (last (z :: l) d).
    apply IH. now left.
  - destruct l as [|z l]; [contradiction|].
    change (last (y :: z :: l) d) with (last (z :: l) d).
    now apply IH.
Qed.
End Descending.

Lemma loaded_messages_of (batches : list (list DM.message)) (k : pykey) :
  values_of key_eqb k (DM.load_message_data [] batches)
  = sort_by DM.m_DateInserted
      (filter (DM.in_conversation k) (List.concat batches)).
Proof.
  unfold DM.load_message_data.
  rewrite (fold_left_concat _ _
             (fun acc m => dict_append (DM.m_ConversationID m) m acc)).
  rewrite values_of_sorted_entries.
  now rewrite (group_values _ DM.m_ConversationID k _ []).
Qed.

Lemma loaded_comments_of (ds : dict pykey Forum.discussion)
    (ms : dict pykey pystr) (batches : list (list Forum.comment))
    (k : pykey) :
  values_of key_eqb k
    (Forum.comments (Forum._load_comments (Forum.loaded ds ms) batches))
  = sort_by Forum.c_DateInserted
      (filter (Forum.in_discussion k)
         (Forum.kept_comments (Forum.loaded ds ms) batches)).
Proof.
  rewrite comments_store, values_of_sorted_entries.
  now rewrite (group_values _ Forum.c_DiscussionID k _ []).
Qed.

(** C9: after the comments are loaded, for every discussion ID the
    comments the store holds for it are the kept comments of that
    discussion, all of them, in ascending order of their timestamp,
    those of one timestamp in input order; after the messages are
    loaded, the same holds of the messages of every conversation ID.
    The store holds one list for an ID, so this speaks of every entry
    of the store as well. *)
Theorem posts_in_timestamp_order (ds : dict pykey Forum.discussion)
    (ms : dict pykey pystr) (comment_batches : list (list Forum.comment))
    (message_batches : list (list DM.message)) :
  let self := Forum._load_comments (Forum.loaded ds ms) comment_batches in
  let kept := Forum.kept_comments (Forum.loaded ds ms) comment_batches in
  let messages := DM.load_message_data [] message_batches in
  let read := List.concat message_batches in
  (forall k,
     values_of key_eqb k (Forum.comments self)
       = sort_by Forum.c_DateInserted (filter (Forum.in_discussion k) kept)
     /\ Sorted (key_le Forum.c_DateInserted)
          (values_of key_eqb k (Forum.comments self))
     /\ Permutation (values_of key_eqb k (Forum.comments self))
          (filter (Forum.in_discussion k) kept)
     /\ forall ts,
          filter (Forum.comment_dated ts)
                 (values_of key_eqb k (Forum.comments self))
          = filter (Forum.comment_dated ts)
                   (filter (Forum.in_discussion k) kept))
  /\ (forall k,
       values_of key_eqb k messages
         = sort_by DM.m_DateInserted (filter (DM.in_conversation k) read)
       /\ Sorted (key_le DM.m_DateInserted) (values_of key_eqb k messages)
       /\ Permutation (values_of key_eqb k messages)
            (filter (DM.in_conversation k) read)
       /\ forall ts,
            filter (DM.message_dated ts) (values_of key_eqb k messages)
            = filter (DM.message_dated ts)
                     (filter (DM.in_conversation k) read))
  /\ (NoDup (dict_keys (Forum.comments self))
      /\ forall k cs, In (k, cs) (Forum.comments self) ->
           cs = values_of key_eqb k (Forum.comments self))
  /\ (NoDup (dict_keys messages)
      /\ forall k l, In (k, l) messages -> l = values_of key_eqb k messages).
Proof.
  cbv zeta.
  assert (Hentry : forall (V : Type) (d : dict pykey (list V)) k l,
            NoDup (dict_keys d) -> In (k, l) d ->
            l = values_of key_eqb k d).
  { intros V d k l Hnd Hin. unfold values_of.
    now rewrite (dict_get_In _ k l d Hnd Hin). }
  assert (Hkeys : forall (A : Type) (key : A -> pystr)
                    (d : dict pykey (list A)),
            dict_keys (map (fun kv => (fst kv, sort_by key (snd kv))) d)
            = dict_keys d).
  { intros A key d. unfold dict_keys. rewrite map_map. reflexivity. }
  assert (Hc : NoDup (dict_keys
            (Forum.comments
               (Forum._load_comments (Forum.loaded ds ms) comment_batches)))).
  { rewrite comments_store, Hkeys. apply group_NoDup. constructor. }
  assert (Hm : NoDup (dict_keys (DM.load_message_data [] message_batches))).
  { unfold DM.load_message_data.
    rewrite (fold_left_concat _ _
               (fun acc m => dict_append (DM.m_ConversationID m) m acc)).
    rewrite Hkeys. apply group_NoDup. constructor. }
  split; [|split; [|split]].
  - intros k. rewrite loaded_comments_of.
    split; [reflexivity|]. split; [apply sort_by_sorted|].
    split; [apply sort_by_perm|]. intros ts. apply sort_by_stable.
  - intros k. rewrite loaded_messages_of.
    split; [reflexivity|]. split; [apply sort_by_sorted|].
    split; [apply sort_by_perm|]. intros ts. apply sort_by_stable.
  - split; [exact Hc|]. intros k cs. now apply Hentry.
  - split; [exact Hm|]. intros k l. now apply Hentry.
Qed.

(** X7: once the messages are loaded, the last date of a conversation
    is the greatest timestamp among its messages: no message of the
    conversation is later, and some message of it carries that date;
    a conversation without a message has the date ["0000-00-00"]. *)
Theorem conversation_last_date_is_latest (batches : list (list DM.message))
    (k : pykey) :
  let last_date :=
    DM.get_conversation_last_date (DM.load_message_data [] batches) k in
  (forall m, In m (List.concat batches) -> DM.m_ConversationID m = k ->
     str_leb (DM.m_DateInserted m) last_date = true)
  /\ ((exists m, In m (List.concat batches) /\ DM.m_ConversationID m = k)
      -> exists m, In m (List.concat batches) /\ DM.m_ConversationID m = k
                   /\ DM.m_DateInserted m = last_date)
  /\ ((forall m, In m (List.concat batches) -> DM.m_ConversationID m <> k)
      -> last_date = py "0000-00-00").
Proof.
  cbv zeta. unfold DM.get_conversation_last_date.
  rewrite loaded_messages_of.
  set (own := filter (DM.in_conversation k) (List.concat batches)).
  assert (Hown : forall m, In m own <->
            In m (List.concat batches) /\ DM.m_ConversationID m = k).
  { intros m. unfold own. rewrite filter_In. unfold DM.in_conversation.
    now rewrite key_eqb_eq. }
  pose proof (sort_by_perm _ DM.m_DateInserted own) as P.
  pose proof (sort_by_sorted _ DM.m_DateInserted own) as S.
  destruct (sort_by DM.m_DateInserted own) as [|m0 l] eqn:E.
  - apply Permutation_nil in P.
    split; [|split].
    + intros m Hin Hk. exfalso.
      assert (Hm : In m own) by (apply Hown; auto).
      rewrite P in Hm. exact Hm.
    + intros [m [Hin Hk]]. exfalso.
      assert (Hm : In m own) by (apply Hown; auto).
      rewrite P in Hm. exact Hm.
    + reflexivity.
  - split; [|split].
    + intros m Hin Hk.
      apply (sorted_last_greatest _ DM.m_DateInserted _ m0 m S).
      apply (Permutation_in _ (Permutation_sym P)). apply Hown. auto.
    + intros _. exists (last (m0 :: l) m0). 
      assert (Hl : In (last (m0 :: l) m0) own).
      { apply (Permutation_in _ P).
        destruct (exists_last (l:=m0 :: l)) as [l' [a Ea]]; [discriminate|].
        rewrite Ea, last_last. apply in_or_app. right. now left. }
      apply Hown in Hl as [H1 H2]. auto.
    + intros Hnone. exfalso.
      assert (Hm : In m0 own).
      { apply (Permutation_in _ P). now left. }
      apply Hown in Hm as [H1 H2]. exact (Hnone m0 H1 H2).
Qed.

(** X8: the conversations listed for a user are those of the
    conversation store that name the user among the contributors, each
    as often as the store holds it; they are in descending order of
    their last date, and those of one last date keep the order of the
    store. *)
Theorem user_conversations_listed
    (self_conversations : dict pykey DM.conversation)
    (self_messages : dict pykey (list DM.message)) (user_id : pykey) :
  let last_date cv :=
    DM.get_conversation_last_date self_messages (DM.cv_ConversationID cv) in
  let listed :=
    DM.get_user_conversations self_conversations self_messages user_id in
  Permutation listed
    (filter (DM.contributes user_id) (map snd self_conversations))
  /\ (forall cv, In cv listed <->
        In cv (map snd self_conversations)
        /\ In user_id (DM.cv_Contributors cv))
  /\ Sorted (key_ge last_date) listed
  /\ forall ts,
       filter (fun cv => str_eqb (last_date cv) ts) listed
       = filter (fun cv => str_eqb (last_date cv) ts)
           (filter (DM.contributes user_id) (map snd self_conversations)).
Proof.
  cbv zeta. unfold DM.get_user_conversations.
  split; [apply sort_by_desc_perm|].
  split; [|split; [apply sort_by_desc_sorted|]].
  - intros cv. split.
    + intros H. apply (Permutation_in _ (sort_by_desc_perm _ _ _)) in H.
      apply filter_In in H as [H1 H2]. split; [exact H1|].
      unfold DM.contributes in H2. apply existsb_exists in H2 as [u [Hu E]].
      apply key_eqb_eq in E. now subst.
    + intros [H1 H2].
      apply (Permutation_in _ (Permutation_sym (sort_by_desc_perm _ _ _))).
      apply filter_In. split; [exact H1|].
      unfold DM.contributes. apply existsb_exists. exists user_id.
      split; [exact H2 | apply key_eqb_refl].
  - intros ts.
    apply (sort_by_desc_stable _
             (fun x => DM.get_conversation_last_date self_messages
                         (DM.cv_ConversationID x))).
Qed.

(** ** The homepage *)

Lemma range_go_seq (fuel i stop : nat) :
  stop <= i + fuel -> range_go fuel i stop 1 = seq i (stop - i).
Proof.
  revert i. induction fuel as [|f IH]; intros i H.
  - replace (stop - i) with 0 by lia. reflexivity.
  - cbn [range_go]. destruct (Nat.ltb_spec i stop) as [Hlt|Hge].
    + rewrite IH by lia.
      replace (stop - i) with (S (stop - (i + 1))) by lia.
      cbn [seq]. f_equal. f_equal. lia.
    + replace (stop - i) with 0 by lia. reflexivity.
Qed.

Lemma range_seq (n : nat) : range 0 n 1 = seq 0 n.
Proof.
  unfold range. rewrite range_go_seq by lia. f_equal. lia.
Qed.

Lemma page_count_bounds (n page_size : nat) :
  0 < page_size ->
  n <= page_size * ((n + page_size - 1) / page_size)
  /\ page_size * ((n + page_size - 1) / page_size) < n + page_size.
Proof.
  intros H.
  pose proof (Nat.div_mod_eq (n + page_size - 1) page_size) as E.
  pose proof (Nat.mod_upper_bound (n + page_size - 1) page_size) as B.
  lia.
Qed.

Lemma page_slices_concat (A : Type) (sz k : nat) (l : list A) :
  List.length l <= sz * k ->
  List.concat (map (fun j => slice l (j * sz) (j * sz + sz)) (seq 0 k)) = l.
Proof.
  revert l. induction k as [|k IH]; intros l H.
  - destruct l; [reflexivity | cbn in H; lia].
  - cbn [seq map List.concat]. rewrite <- seq_shift, map_map.
    rewrite (map_ext _ (fun j => slice (skipn sz l) (j * sz) (j * sz + sz))).
    + rewrite IH; [|rewrite length_skipn; lia].
      unfold slice. cbn [Nat.mul Nat.add skipn].
      replace (sz - 0) with sz by lia.
      apply firstn_skipn.
    + intros j. unfold slice. rewrite skipn_skipn. f_equal; [lia|].
      f_equal. lia.
Qed.

Lemma page_filename_inj (a b : nat) :
  Forum.page_filename a = Forum.page_filename b -> a = b.
Proof.
  unfold Forum.page_filename.
  destruct (Nat.eqb_spec a 0) as [->|Ha], (Nat.eqb_spec b 0) as [->|Hb];
    try reflexivity; try discriminate.
  intros H. apply app_inv_head in H. apply app_inv_tail in H.
  apply (str_of_int_inj ascii_only) in H. lia.
Qed.

Section Homepage.
Variables page_size total_pages : nat.
Variable discussions_meta : list Forum.meta.

Let step := Forum.homepage_step page_size total_pages discussions_meta.

Lemma homepage_step_entry (p : nat) :
  exists page,
    step [] p = [(Forum.page_filename p, page)]
    /\ Forum.hp_page_discussions page
       = slice discussions_meta (p * page_size) (p * page_size + page_size)
    /\ Forum.hp_top_pagination page
       = Forum.generate_pagination_html p total_pages
    /\ Forum.hp_bottom_pagination page
       = Forum.generate_pagination_html p total_pages.
Proof. eexists. repeat split. Qed.

Lemma homepage_fold (k a : nat) (fs : dict pystr Forum.homepage_page) :
  (forall q, In (Forum.page_filename q) (dict_keys fs) -> q < a) ->
  fold_left step (seq a k) fs = fs ++ flat_map (step []) (seq a k).
Proof.
  revert a fs. induction k as [|k IH]; intros a fs H; cbn [seq fold_left flat_map].
  - now rewrite app_nil_r.
  - assert (E : step fs a = fs ++ step [] a).
    { unfold step, Forum.homepage_step.
      rewrite (dict_set_new _ _ str_eqb str_eqb_eq); [reflexivity|].
      intros Hin. apply H in Hin. lia. }
    rewrite E, IH, <- app_assoc; [reflexivity|].
    intros q Hq. unfold dict_keys in Hq. rewrite map_app in Hq.
    apply in_app_or in Hq as [Hq|Hq].
    + apply H in Hq. lia.
    + destruct Hq as [Hq|[]]. cbn [fst] in Hq.
      apply page_filename_inj in Hq. lia.
Qed.

Lemma homepage_files_names (a k : nat) :
  map fst (flat_map (step []) (seq a k))
    = map Forum.page_filename (seq a k).
Proof.
  induction (seq a k) as [|p l IH]; [reflexivity|].
  cbn [flat_map map]. rewrite map_app, IH. reflexivity.
Qed.

Lemma homepage_files_slices (a k : nat) :
  map (fun f => Forum.hp_page_discussions (snd f))
      (flat_map (step []) (seq a k))
  = map (fun p => slice discussions_meta (p * page_size)
                    (p * page_size + page_size))
        (seq a k).
Proof.
  induction (seq a k) as [|p l IH]; [reflexivity|].
  cbn [flat_map map]. rewrite map_app, IH. reflexivity.
Qed.

Lemma homepage_files_In (a k : nat) (f : pystr * Forum.homepage_page) :
  In f (flat_map (step []) (seq a k)) <->
  exists p, a <= p < a + k /\ step [] p = [f].
Proof.
  rewrite in_flat_map. split.
  - intros [p [Hp Hf]]. apply in_seq in Hp. exists p. split; [lia|].
    destruct Hf as [<-|[]]. reflexivity.
  - intros [p [Hp E]]. exists p. split; [apply in_seq; lia|].
    rewrite E. now left.
Qed.
End Homepage.

Lemma generate_homepage_files (page_size : nat)
    (discussions_meta : list Forum.meta) :
  0 < page_size ->
  Forum.generate_homepage page_size discussions_meta []
  = Some (flat_map
            (Forum.homepage_step page_size
               ((List.length discussions_meta + page_size - 1) / page_size)
               (sort_by_desc Forum.meta_date discussions_meta) [])
            (seq 0 ((List.length discussions_meta + page_size - 1)
                    / page_size)),
          sort_by_desc Forum.meta_date discussions_meta).
Proof.
  intros H. unfold Forum.generate_homepage.
  destruct (Nat.eqb_spec page_size 0) as [E|_]; [lia|].
  assert (L : List.length (sort_by_desc Forum.meta_date discussions_meta)
              = List.length discussions_meta)
    by apply Permutation_length, sort_by_desc_perm.
  rewrite L, range_seq, homepage_fold; [reflexivity|].
  intros q [].
Qed.

(** X9: the homepage, for a positive page size and written into an
    empty tree.  The discussions are put in descending order of their
    date (those of one date in input order), and this order is also the
    one the caller's list is left in.  There are as many pages as the
    rounded-up quotient of the number of discussions by the page size;
    their files are [index.html], [page-2.html], [page-3.html], ..., all
    different; every page holds at least one and at most [page_size]
    discussions, and the pages in order hold the sorted list. *)
Theorem generate_homepage_pages (page_size : nat)
    (discussions_meta : list Forum.meta) (Hsize : 0 < page_size) :
  let sorted := sort_by_desc Forum.meta_date discussions_meta in
  let total_pages :=
    (List.length discussions_meta + page_size - 1) / page_size in
  exists files,
    Forum.generate_homepage page_size discussions_meta []
      = Some (files, sorted)
    /\ Permutation sorted discussions_meta
    /\ Sorted (key_ge Forum.meta_date) sorted
    /\ (forall ts,
          filter (fun m => str_eqb (Forum.meta_date m) ts) sorted
          = filter (fun m => str_eqb (Forum.meta_date m) ts) discussions_meta)
    /\ dict_keys files = map Forum.page_filename (seq 0 total_pages)
    /\ NoDup (dict_keys files)
    /\ List.length discussions_meta <= page_size * total_pages
       < List.length discussions_meta + page_size
    /\ List.concat
         (map (fun f => Forum.hp_page_discussions (snd f)) files) = sorted
    /\ forall f, In f files ->
         1 <= List.length (Forum.hp_page_discussions (snd f)) <= page_size.
Proof.
  cbv zeta.
  set (sorted := sort_by_desc Forum.meta_date discussions_meta).
  set (total := (List.length discussions_meta + page_size - 1) / page_size).
  assert (L : List.length sorted = List.length discussions_meta)
    by apply Permutation_length, sort_by_desc_perm.
  pose proof (page_count_bounds (List.length discussions_meta) page_size
                Hsize) as B. fold total in B.
  eexists. split; [now apply generate_homepage_files|].
  fold sorted total.
  split; [apply sort_by_desc_perm|].
  split; [apply sort_by_desc_sorted|].
  split; [intros ts; apply sort_by_desc_stable|].
  split; [apply homepage_files_names|].
  split.
  { unfold dict_keys. rewrite homepage_files_names.
    apply NoDup_map_NoDup_ForallPairs; [|apply seq_NoDup].
    intros a b _ _. apply page_filename_inj. }
  split; [exact B|].
  split.
  { rewrite homepage_files_slices. apply page_slices_concat. lia. }
  intros f Hf. apply homepage_files_In in Hf as [p [Hp E]].
  destruct (homepage_step_entry page_size total sorted p)
    as [page [E' [Hd _]]].
  rewrite E' in E. injection E as <-. cbn [snd]. rewrite Hd.
  unfold slice. rewrite length_firstn, length_skipn, L.
  assert (page_size * p + page_size <= page_size * total) by nia.
  nia.
Qed.

Lemma generate_homepage_pages_witness :
  exists files,
    Forum.generate_homepage 2
      [Sample.meta10; Sample.meta10; Sample.meta10] []
      = Some (files, [Sample.meta10; Sample.meta10; Sample.meta10])
    /\ dict_keys files = [py "index.html"; py "page-2.html"]
    /\ map (fun f => List.length (Forum.hp_page_discussions (snd f))) files
       = [2; 1].
Proof.
  destruct (generate_homepage_pages 2
              [Sample.meta10; Sample.meta10; Sample.meta10]
              ltac:(lia)) as [files [E _]].
  exists files. split; [exact E|].
  vm_compute in E. injection E as <-.
  split; reflexivity.
Defined.

Lemma prev_url_spec (p : nat) :
  Forum.prev_url p
  = if Nat.eqb p 0 then None
    else Some (py "/" ++ Forum.page_filename (p - 1)).
Proof.
  unfold Forum.prev_url, Forum.page_filename.
  destruct p as [|[|p]]; [reflexivity | reflexivity |].
  cbn [Nat.ltb Nat.leb Nat.eqb Nat.sub].
  replace (S p + 1) with (S (S p)) by lia. reflexivity.
Qed.

Lemma next_url_spec (p total_pages : nat) :
  Forum.next_url p total_pages
  = if Nat.ltb (p + 1) total_pages
    then Some (py "/" ++ Forum.page_filename (p + 1))
    else None.
Proof.
  unfold Forum.next_url, Forum.page_filename.
  replace (Nat.eqb (p + 1) 0) with false
    by (symmetry; apply Nat.eqb_neq; lia).
  replace (p + 1 + 1) with (p + 2) by lia.
  destruct (Nat.ltb_spec p (total_pages - 1)),
    (Nat.ltb_spec (p + 1) total_pages); try lia; reflexivity.
Qed.

(** X10: the pagination of the homepage has no dangling link.  On the
    page with index [p] the pagination is drawn for [p] and the number
    of pages written; the previous link is dead exactly on the first
    page and the next link exactly on the last; and a live link is [/]
    followed by the name of a file that the same call writes: that of
    page [p - 1], respectively [p + 1]. *)
Theorem homepage_links_resolve (page_size : nat)
    (discussions_meta sorted : list Forum.meta)
    (files : dict pystr Forum.homepage_page) (p : nat) :
  Forum.generate_homepage page_size discussions_meta [] = Some (files, sorted)
  -> p < List.length files ->
  (exists page,
     dict_get str_eqb (Forum.page_filename p) files = Some page
     /\ Forum.hp_top_pagination page
        = Forum.generate_pagination_html p (List.length files)
     /\ Forum.hp_bottom_pagination page
        = Forum.generate_pagination_html p (List.length files))
  /\ (Forum.prev_url p = None <-> p = 0)
  /\ (Forum.next_url p (List.length files) = None
      <-> p + 1 = List.length files)
  /\ (forall u, Forum.prev_url p = Some u ->
        u = py "/" ++ Forum.page_filename (p - 1)
        /\ dict_mem str_eqb (Forum.page_filename (p - 1)) files = true)
  /\ (forall u, Forum.next_url p (List.length files) = Some u ->
        u = py "/" ++ Forum.page_filename (p + 1)
        /\ dict_mem str_eqb (Forum.page_filename (p + 1)) files = true).
Proof.
  intros Hgen Hp.
  assert (Hsize : 0 < page_size).
  { destruct page_size; [discriminate | lia]. }
  rewrite (generate_homepage_files _ _ Hsize) in Hgen.
  injection Hgen as Hfiles _.
  set (total := (List.length discussions_meta + page_size - 1) / page_size)
    in *.
  set (L := sort_by_desc Forum.meta_date discussions_meta) in *.
  assert (Hnames : dict_keys files = map Forum.page_filename (seq 0 total)).
  { rewrite <- Hfiles. apply homepage_files_names. }
  assert (Hlen : List.length files = total).
  { transitivity (List.length (dict_keys files)).
    - unfold dict_keys. now rewrite length_map.
    - now rewrite Hnames, length_map, length_seq. }
  assert (Hnd : NoDup (dict_keys files)).
  { rewrite Hnames.
    apply NoDup_map_NoDup_ForallPairs; [|apply seq_NoDup].
    intros a b _ _. apply page_filename_inj. }
  assert (Hget : forall q, q < total ->
            exists page,
              dict_get str_eqb (Forum.page_filename q) files = Some page
              /\ Forum.hp_top_pagination page
                 = Forum.generate_pagination_html q total
              /\ Forum.hp_bottom_pagination page
                 = Forum.generate_pagination_html q total).
  { intros q Hq.
    destruct (homepage_step_entry page_size total L q)
      as [page [E [_ [Ht Hb]]]].
    exists page. split; [|split; assumption].
    apply (dict_get_entry _ _ str_eqb str_eqb_eq); [exact Hnd|].
    rewrite <- Hfiles. apply homepage_files_In. exists q.
    split; [lia | exact E]. }
  assert (Hmem : forall q, q < total ->
            dict_mem str_eqb (Forum.page_filename q) files = true).
  { intros q Hq. destruct (Hget q Hq) as [page [E _]].
    unfold dict_mem. now rewrite E. }
  rewrite Hlen in *. rewrite prev_url_spec, next_url_spec.
  split; [now apply Hget|].
  split.
  { destruct (Nat.eqb_spec p 0) as [E0|E0]; split; intros H;
      try reflexivity; try discriminate; try lia. }
  split.
  { destruct (Nat.ltb_spec (p + 1) total) as [E1|E1]; split; intros H;
      try reflexivity; try discriminate; try lia. }
  split.
  - destruct (Nat.eqb_spec p 0) as [E0|E0]; [discriminate|].
    intros u [= <-]. split; [reflexivity | apply Hmem; lia].
  - destruct (Nat.ltb_spec (p + 1) total) as [E1|E1]; [|discriminate].
    intros u [= <-]. split; [reflexivity | apply Hmem; lia].
Qed.

Lemma homepage_links_resolve_witness :
  Forum.next_url 0 2 = Some (py "/page-2.html")
  /\ Forum.prev_url 0 = None.
Proof.
  pose proof (homepage_links_resolve 2
                [Sample.meta10; Sample.meta10; Sample.meta10]
                [Sample.meta10; Sample.meta10; Sample.meta10]
                _ 0 eq_refl ltac:(cbn; lia))
    as [_ [H0 [_ [_ H1]]]].
  split; [reflexivity | now apply H0].
Defined.

(** ** Tags that are not closed *)

Section Continuations.

(** [s'] is what is left of [s] after some prefix. *)
Let rest_of (s' s : pystr) : Prop := exists pre, s = pre ++ s'.

Lemma rest_of_refl (s : pystr) : rest_of s s.
Proof. now exists []. Qed.

Lemma rest_of_cons (c : cp) (s' s : pystr) : rest_of s' s -> rest_of s' (c :: s).
Proof. intros [pre ->]. now exists (c :: pre). Qed.

Lemma rest_of_trans (a b c : pystr) : rest_of a b -> rest_of b c -> rest_of a c.
Proof.
  intros [p ->] [q ->]. exists (q ++ p). now rewrite app_assoc.
Qed.

Lemma star_greedy_cont (f : cp -> bool) (k : cont) (s : pystr) (pos : nat)
    (cs : caps) (res : caps * nat) :
  star_greedy f k s pos cs = Some res ->
  exists s' pos' cs', rest_of s' s /\ k s' pos' cs' = Some res.
Proof.
  revert pos. induction s as [|c t IH]; intros pos; cbn [star_greedy].
  - intros H. exists [], pos, cs. split; [apply rest_of_refl | exact H].
  - destruct (f c).
    + destruct (star_greedy f k t (S pos) cs) as [m|] eqn:E.
      * intros [= <-]. destruct (IH _ E) as [s' [pos' [cs' [R K]]]].
        exists s', pos', cs'. split; [now apply rest_of_cons | exact K].
      * intros H. exists (c :: t), pos, cs.
        split; [apply rest_of_refl | exact H].
    + intros H. exists (c :: t), pos, cs.
      split; [apply rest_of_refl | exact H].
Qed.

Lemma star_lazy_cont (f : cp -> bool) (k : cont) (s : pystr) (pos : nat)
    (cs : caps) (res : caps * nat) :
  star_lazy f k s pos cs = Some res ->
  exists s' pos' cs', rest_of s' s /\ k s' pos' cs' = Some res.
Proof.
  revert pos. induction s as [|c t IH]; intros pos; cbn [star_lazy].
  - destruct (k [] pos cs) as [m|] eqn:E; [|discriminate].
    intros [= <-]. exists [], pos, cs. split; [apply rest_of_refl | exact E].
  - destruct (k (c :: t) pos cs) as [m|] eqn:E.
    + intros [= <-]. exists (c :: t), pos, cs.
      split; [apply rest_of_refl | exact E].
    + destruct (f c); [|discriminate].
      intros H. destruct (IH _ H) as [s' [pos' [cs' [R K]]]].
      exists s', pos', cs'. split; [now apply rest_of_cons | exact K].
Qed.

(** A match runs its continuation on what is left of the input. *)
Lemma mtch_cont (r : regex) (k : cont) (s : pystr) (pos : nat) (cs : caps)
    (res : caps * nat) :
  mtch r k s pos cs = Some res ->
  exists s' pos' cs', rest_of s' s /\ k s' pos' cs' = Some res.
Proof.
  revert k s pos cs.
  induction r as [|p|f|r1 IH1 r2 IH2|r IH|f|f|n r IH]; intros k s pos cs;
    cbn [mtch].
  - intros H. exists s, pos, cs. split; [apply rest_of_refl | exact H].
  - destruct (startswith p s); [|discriminate]. intros H.
    exists (skipn (List.length p) s), (pos + List.length p), cs.
    split; [|exact H].
    exists (firstn (List.length p) s). symmetry. apply firstn_skipn.
  - destruct s as [|c t]; [discriminate|].
    destruct (f c); [|discriminate]. intros H.
    exists t, (S pos), cs. split; [|exact H]. now exists [c].
  - intros H. apply IH1 in H as [s1 [p1 [c1 [R1 H]]]].
    apply IH2 in H as [s2 [p2 [c2 [R2 H]]]].
    exists s2, p2, c2. split; [|exact H].
    exact (rest_of_trans _ _ _ R2 R1).
  - destruct (mtch r k s pos cs) as [m|] eqn:E.
    + intros [= <-]. now apply IH in E.
    + intros H. exists s, pos, cs. split; [apply rest_of_refl | exact H].
  - apply star_greedy_cont.
  - apply star_lazy_cont.
  - intros H. apply IH in H as [s' [pos' [cs' [R H]]]].
    exists s', pos', (set_group n (firstn (pos' - pos) s) cs').
    split; [exact R | exact H].
Qed.

Lemma occurs_rest_of (p s' s : pystr) :
  rest_of s' s -> startswith p s' = true -> Forum.occurs p s = true.
Proof.
  intros [pre ->] H. induction pre as [|c pre IH].
  - cbn [app]. destruct s'; cbn [Forum.occurs]; now rewrite H.
  - cbn [app Forum.occurs]. rewrite IH. apply orb_true_r.
Qed.

(** A pattern that ends with literal text matches only in a text that
    holds it. *)
Lemma mtch_final_literal (r : regex) (p : pystr) (k : cont) (s : pystr)
    (pos : nat) (cs : caps) (res : caps * nat) :
  Forum.final_literal r = Some p ->
  mtch r k s pos cs = Some res -> Forum.occurs p s = true.
Proof.
  revert k s pos cs.
  induction r as [|q|f|r1 IH1 r2 IH2|r IH|f|f|n r IH]; intros k s pos cs;
    cbn [Forum.final_literal]; try discriminate.
  - intros [= ->]. cbn [mtch].
    destruct (startswith p s) eqn:E; [|discriminate]. intros _.
    exact (occurs_rest_of p s s (rest_of_refl s) E).
  - intros Hf. cbn [mtch]. intros H.
    apply mtch_cont in H as [s1 [p1 [c1 [[pre ->] H]]]].
    pose proof (IH2 _ _ _ _ Hf H) as Ho.
    clear - Ho. induction pre as [|c pre IHp]; [exact Ho|].
    cbn [app Forum.occurs]. rewrite IHp. apply orb_true_r.
Qed.
End Continuations.

Lemma occurs_tail (p : pystr) (c : cp) (t : pystr) :
  Forum.occurs p (c :: t) = false -> Forum.occurs p t = false.
Proof.
  cbn [Forum.occurs]. intros H. now apply orb_false_iff in H as [_ H].
Qed.

(** Where the closing text does not occur, the substitution changes
    nothing. *)
Lemma sub_without_closer (r : regex) (p : pystr) (repl : caps -> pystr)
    (s : pystr) :
  Forum.final_literal r = Some p ->
  Forum.occurs p s = false -> sub r repl s = s.
Proof.
  intros Hf. unfold sub.
  assert (Hm : forall s, Forum.occurs p s = false -> match_at r s = None).
  { intros s' Ho. destruct (match_at r s') as [res|] eqn:E; [|reflexivity].
    unfold match_at in E.
    apply (mtch_final_literal r p _ _ _ _ _ Hf) in E. congruence. }
  induction s as [|c t IH]; intros H.
  - cbn [sub_go]. now rewrite (Hm [] H).
  - cbn [sub_go]. rewrite (Hm _ H).
    now rewrite (IH (occurs_tail p c t H)).
Qed.

(** A pattern [open ... close] changes nothing in a text that lacks
    [open] or lacks [close]. *)
Lemma sub_incomplete (o : pystr) (r : regex) (repl : caps -> pystr)
    (s : pystr) :
  match Forum.final_literal r with
  | Some c => Forum.occurs o s && Forum.occurs c s = false
  | None => Forum.occurs o s = false
  end ->
  sub (Cat (Lit o) r) repl s = s.
Proof.
  destruct (Forum.final_literal r) as [c|] eqn:E.
  - intros H. apply andb_false_iff in H as [H|H].
    + now apply sub_without_literal.
    + apply (sub_without_closer _ c); [exact E | exact H].
  - apply sub_without_literal.
Qed.

(** Literal text that holds no CR, no LF and no [<] and does not begin
    like a break marker occurs in the normalized text only if it
    occurred in the text. *)
Lemma occurs_after_break_lit (p X : pystr) :
  (exists x p', p = x :: p' /\ ~ In x Forum.BR) ->
  Forum.occurs p (Forum.BR ++ X) = Forum.occurs p X.
Proof.
  intros [x [p' [-> Hx]]].
  unfold Forum.BR in *. cbn [py map list_ascii_of_string app] in *.
  cbn [Forum.occurs startswith].
  cbn in Hx.
  repeat match goal with
  | |- context [N.eqb x ?n] =>
      let E := fresh in
      destruct (N.eqb_spec x n) as [E|E];
        [exfalso; apply Hx; rewrite E; cbn; auto 10|]
  end.
  reflexivity.
Qed.

Lemma occurs_break_lines_lit (p : pystr) (b : bool) (s : pystr) :
  (exists x p', p = x :: p' /\ ~ In x Forum.BR) ->
  Forall (fun c => c <> CR /\ c <> LF /\ c <> 60%N) p ->
  Forum.occurs p s = false -> Forum.occurs p (Forum.break_lines b s) = false.
Proof.
  intros Hp Hc. revert b. induction s as [|c t IH]; intros b H.
  - exact H.
  - pose proof H as H'. cbn [Forum.occurs] in H'.
    apply orb_false_iff in H' as [H1 H2].
    cbn [Forum.break_lines].
    destruct (N.eqb_spec c CR) as [->|Hc1].
    + rewrite occurs_after_break_lit by exact Hp. now apply IH.
    + destruct (N.eqb_spec c LF) as [->|Hc2].
      * destruct b; [now apply IH|].
        rewrite occurs_after_break_lit by exact Hp. now apply IH.
      * cbn [Forum.occurs]. rewrite (IH false H2), orb_false_r.
        destruct (startswith p (c :: Forum.break_lines false t)) eqn:E;
          [|reflexivity].
        assert (E' : startswith p (Forum.break_lines false (c :: t)) = true).
        { cbn [Forum.break_lines].
          apply N.eqb_neq in Hc1, Hc2. now rewrite Hc1, Hc2. }
        apply (startswith_break_lines p (c :: t) Hc) in E'.
        congruence.
Qed.

Lemma tag_pair_incomplete (text o c : pystr) :
  Forum.no_tag_pair text = true -> In (o, c) Forum.tag_pairs ->
  Forum.occurs o (Forum.break_lines false text)
  && Forum.occurs c (Forum.break_lines false text) = false.
Proof.
  intros H Hin. unfold Forum.no_tag_pair in H. rewrite forallb_forall in H.
  pose proof (H (o, c) Hin) as Hoc. cbn [fst snd] in Hoc.
  apply negb_true_iff in Hoc.
  assert (Hlit : forall p, In p [o; c] ->
            (exists x p', p = x :: p' /\ ~ In x Forum.BR)
            /\ Forall (fun c => c <> CR /\ c <> LF /\ c <> 60%N) p).
  { clear H Hoc. intros p Hp.
    unfold Forum.tag_pairs in Hin. cbn [In] in Hin, Hp.
    repeat (destruct Hin as [Hin|Hin];
            [injection Hin as <- <-;
             destruct Hp as [<-|[<-|[]]];
             (split; [eexists; eexists; split; [reflexivity|];
                      cbn; intros F;
                      repeat (destruct F as [F|F]; [discriminate|]);
                      exact F
                     |repeat constructor; discriminate])|]).
    contradiction. }
  apply andb_false_iff in Hoc as [Ho|Ho]; apply andb_false_iff;
    [left | right];
    (apply occurs_break_lines_lit; [apply Hlit; cbn; tauto
                                   |apply Hlit; cbn; tauto
                                   |exact Ho]).
Qed.

(** X11: a tag that is opened and never closed, or closed and never
    opened, stays as it was written.  If of every pattern of the
    renderer the opening text or the closing text occurs nowhere in the
    body, the renderer returns the body with its line breaks normalized
    and nothing else changed. *)
Theorem render_incomplete_tags (db : unicode_db) (self : Forum.converter)
    (text : pystr) (current_discussion_id : option pykey) :
  Forum.no_tag_pair text = true ->
  Forum.convert_plush_bbcode db self text current_discussion_id
    = Forum.break_lines false text.
Proof.
  intros H. destruct text as [|c t]; [reflexivity|].
  unfold Forum.convert_plush_bbcode. cbn [str_truthy negb].
  cbv zeta. rewrite normalization_is_break_lines.
  unfold Forum.re_reply, Forum.re_complex_quote, Forum.re_named_quote,
    Forum.re_pair, Forum.re_mention, Forum.re_url_text,
    Forum.re_ordered_list.
  repeat (rewrite (fun o r repl =>
                     sub_incomplete o r repl
                       (Forum.break_lines false (c :: t)));
          [|cbn [Forum.final_literal Plus];
            apply (tag_pair_incomplete (c :: t) _ _ H); simpl; tauto]).
  reflexivity.
Qed.

Lemma render_incomplete_tags_witness :
  Forum.convert_plush_bbcode ascii_only Sample.store
      (py "[b]bold and [i]both[/u]" ++ [LF] ++ py "[quote]never closed")
      None
    = py "[b]bold and [i]both[/u]<br>" ++ [LF] ++ py "[quote]never closed".
Proof.
  rewrite (render_incomplete_tags ascii_only Sample.store
             (py "[b]bold and [i]both[/u]" ++ [LF]
                ++ py "[quote]never closed")
             None eq_refl).
  reflexivity.
Defined.

(** ** Dictionaries filled in a loop *)

Lemma find_append (A : Type) (f : A -> bool) (l1 l2 : list A) :
  find f (l1 ++ l2)
    = match find f l1 with
      | Some x => Some x
      | None => find f l2
      end.
Proof.
  induction l1 as [|x l1 IH]; cbn [app find]; [reflexivity|].
  now destruct (f x).
Qed.

Section Assignments.
Variables K V : Type.
Variable eqb : K -> K -> bool.
Hypothesis eqb_eq : forall a b, eqb a b = true <-> a = b.

Lemma dict_get_set (k k' : K) (v : V) (d : dict K V) :
  dict_get eqb k' (dict_set eqb k v d)
    = if eqb k' k then Some v else dict_get eqb k' d.
Proof.
  induction d as [|[k0 v0] d IH]; cbn [dict_set dict_get]; [reflexivity|].
  destruct (eqb k k0) eqn:E; cbn [dict_get].
  - apply eqb_eq in E. subst k0. now destruct (eqb k' k).
  - rewrite IH. destruct (eqb k' k0) eqn:E0; [|reflexivity].
    apply eqb_eq in E0. subst k0.
    destruct (eqb k' k) eqn:E1; [|reflexivity].
    apply eqb_eq in E1. subst k'.
    rewrite (proj2 (eqb_eq k k) eq_refl) in E. discriminate.
Qed.

Lemma dict_set_keys (k : K) (v : V) (d : dict K V) :
  dict_keys (dict_set eqb k v d)
    = if dict_mem eqb k d then dict_keys d else dict_keys d ++ [k].
Proof.
  unfold dict_mem, dict_keys.
  induction d as [|[k' v'] d IH]; cbn [dict_set dict_get map]; [reflexivity|].
  destruct (eqb k k') eqn:E; cbn [map fst]; [reflexivity|].
  rewrite IH. now destruct (dict_get eqb k d).
Qed.

Lemma dict_mem_keys (k : K) (d : dict K V) :
  dict_mem eqb k d = true <-> In k (dict_keys d).
Proof.
  unfold dict_mem, dict_keys.
  induction d as [|[k' v'] d IH]; cbn [dict_get map In fst].
  - split; [discriminate | tauto].
  - destruct (eqb k k') eqn:E.
    + apply eqb_eq in E. split; auto.
    + rewrite IH. split; [auto|].
      intros [H|H]; [|exact H]. subst k'.
      rewrite (proj2 (eqb_eq k k) eq_refl) in E. discriminate.
Qed.

Lemma dict_set_distinct (k : K) (v : V) (d : dict K V) :
  NoDup (dict_keys d) -> NoDup (dict_keys (dict_set eqb k v d)).
Proof.
  intros H. rewrite dict_set_keys.
  destruct (dict_mem eqb k d) eqn:E; [exact H|].
  apply NoDup_app; [exact H | repeat constructor; auto |].
  intros x Hx [<-|[]].
  apply dict_mem_keys in Hx. congruence.
Qed.

Variable A : Type.
Variable key_of : A -> K.
Variable value_of : A -> V.

Let assign (d : dict K V) (x : A) : dict K V :=
  dict_set eqb (key_of x) (value_of x) d.

(** After a loop of assignments a key holds the value assigned last. *)
Lemma assignments_last (xs : list A) (d : dict K V) (k : K) :
  dict_get eqb k (fold_left assign xs d)
    = match find (fun x => eqb k (key_of x)) (List.rev xs) with
      | Some x => Some (value_of x)
      | None => dict_get eqb k d
      end.
Proof.
  revert d. induction xs as [|x xs IH]; intros d; [reflexivity|].
  cbn [fold_left List.rev]. rewrite IH, find_append.
  destruct (find (fun x => eqb k (key_of x)) (List.rev xs)); [reflexivity|].
  cbn [find]. unfold assign. rewrite dict_get_set.
  now destruct (eqb k (key_of x)).
Qed.

Lemma assignments_distinct (xs : list A) (d : dict K V) :
  NoDup (dict_keys d) -> NoDup (dict_keys (fold_left assign xs d)).
Proof.
  revert d. induction xs as [|x xs IH]; intros d H; [exact H|].
  cbn [fold_left]. apply IH. now apply dict_set_distinct.
Qed.

Lemma assignments_keys (xs : list A) (d : dict K V) (k : K) :
  In k (dict_keys (fold_left assign xs d))
  <-> In k (dict_keys d) \/ In k (map key_of xs).
Proof.
  revert d. induction xs as [|x xs IH]; intros d; cbn [fold_left map In].
  - tauto.
  - rewrite IH. unfold assign. rewrite dict_set_keys.
    destruct (dict_mem eqb (key_of x) d) eqn:E.
    + apply dict_mem_keys in E. split; [tauto|].
      intros [H|[<-|H]]; auto.
    + rewrite in_app_iff. cbn [In]. tauto.
Qed.

Lemma assignments_length (xs : list A) (d : dict K V) :
  List.length (fold_left assign xs d) <= List.length d + List.length xs.
Proof.
  revert d. induction xs as [|x xs IH]; intros d; cbn [fold_left List.length];
    [lia|].
  etransitivity; [apply IH|].
  assert (H : List.length (assign d x) <= S (List.length d)).
  { unfold assign. clear. induction d as [|[k0 v0] d IHd];
      cbn [dict_set List.length]; [lia|].
    destruct (eqb (key_of x) k0); cbn [List.length]; lia. }
  lia.
Qed.
End Assignments.

Lemma NoDup_map_unique (A B : Type) (f : A -> B) (l : list A) (a b : A) :
  NoDup (map f l) -> In a l -> In b l -> f a = f b -> a = b.
Proof.
  induction l as [|x l IH]; cbn [map In]; [tauto|].
  intros Hnd Ha Hb E. inversion Hnd as [|? ? Hx Hl]; subst.
  destruct Ha as [->|Ha], Hb as [->|Hb]; auto.
  - exfalso. apply Hx. rewrite E. now apply in_map.
  - exfalso. apply Hx. rewrite <- E. now apply in_map.
Qed.

(** ** The members *)

Lemma load_member_data_assigns (members : dict pykey pystr)
    (member_files : list Forum.member_file) :
  fold_left Forum.load_member member_files members
  = fold_left (fun d p => dict_set key_eqb (fst p) (snd p) d)
      (Forum.well_formed_members member_files) members.
Proof.
  revert members. unfold Forum.well_formed_members.
  induction member_files as [|f fs IH]; intros members; [reflexivity|].
  cbn [fold_left flat_map]. rewrite fold_left_app, IH.
  destruct f as [[[user_id|] [username|]]|]; reflexivity.
Qed.

(** X12: loading the member files.  A file that cannot be read, or that
    lacks the ID or the name, changes nothing.  Afterwards a member ID
    has the name of the last file that gives it one, or the name it had
    before when no file does, and [get_username] answers accordingly;
    the IDs of the store are those it had and those of the files; no ID
    is held twice; the discussions and the comments are untouched. *)
Theorem load_member_data_last_name (self : Forum.converter)
    (member_files : list Forum.member_file) (user_id : pykey) :
  let after := Forum.load_member_data self member_files in
  let given :=
    find (fun p => key_eqb user_id (fst p))
         (List.rev (Forum.well_formed_members member_files)) in
  dict_get key_eqb user_id (Forum.members after)
    = match given with
      | Some p => Some (snd p)
      | None => dict_get key_eqb user_id (Forum.members self)
      end
  /\ Forum.get_username after user_id
     = match given with
       | Some p => snd p
       | None => Forum.get_username self user_id
       end
  /\ (In user_id (dict_keys (Forum.members after))
      <-> In user_id (dict_keys (Forum.members self))
          \/ In user_id (map fst (Forum.well_formed_members member_files)))
  /\ (NoDup (dict_keys (Forum.members self))
      -> NoDup (dict_keys (Forum.members after)))
  /\ Forum.discussions after = Forum.discussions self
  /\ Forum.comments after = Forum.comments self.
Proof.
  cbv zeta. unfold Forum.load_member_data.
  cbn [Forum.members Forum.discussions Forum.comments].
  rewrite load_member_data_assigns.
  pose proof (assignments_last _ _ key_eqb key_eqb_eq _ fst snd
                (Forum.well_formed_members member_files)
                (Forum.members self) user_id) as Hlast.
  split; [exact Hlast|].
  split.
  { unfold Forum.get_username. cbn [Forum.members].
    unfold dict in Hlast |- *. rewrite Hlast.
    now destruct (find (fun p => key_eqb user_id (fst p))
                    (List.rev (Forum.well_formed_members member_files))). }
  split; [apply (assignments_keys _ _ key_eqb key_eqb_eq)|].
  split; [apply (assignments_distinct _ _ key_eqb key_eqb_eq)|].
  split; reflexivity.
Qed.

(** ** The user search index *)

Section Counting.
Variable A : Type.
Variable user_of : A -> pykey.

Let count_of (u : pykey) (counts : dict pykey nat) : nat :=
  match dict_get key_eqb u counts with
  | Some n => n
  | None => 0
  end.

Lemma count_post_get (u v : pykey) (counts : dict pykey nat) :
  count_of u (Forum.count_post counts v)
    = count_of u counts + (if key_eqb v u then 1 else 0).
Proof.
  unfold count_of, Forum.count_post.
  rewrite (dict_get_set _ _ key_eqb key_eqb_eq).
  destruct (key_eqb u v) eqn:E.
  - apply key_eqb_eq in E. subst v. now rewrite key_eqb_refl.
  - assert (E' : key_eqb v u = false).
    { apply key_eqb_neq. apply key_eqb_neq in E. congruence. }
    rewrite E'. lia.
Qed.

Lemma count_posts_get (u : pykey) (xs : list A) (counts : dict pykey nat) :
  count_of u
    (fold_left (fun counts x => Forum.count_post counts (user_of x)) xs counts)
  = count_of u counts
    + List.length (filter (fun x => key_eqb (user_of x) u) xs).
Proof.
  revert counts. induction xs as [|x xs IH]; intros counts;
    cbn [fold_left filter List.length]; [lia|].
  rewrite IH, count_post_get.
  destruct (key_eqb (user_of x) u); cbn [List.length]; lia.
Qed.

Lemma count_post_positive (v : pykey) (counts : dict pykey nat) :
  Forall (fun kv => 1 <= snd kv) counts ->
  Forall (fun kv => 1 <= snd kv) (Forum.count_post counts v).
Proof.
  unfold Forum.count_post.
  generalize (match dict_get key_eqb v counts with
              | Some n => n
              | None => 0
              end).
  intros n H. induction H as [|[k0 v0] d Hk Hd IH]; cbn [dict_set].
  - repeat constructor. cbn. lia.
  - destruct (key_eqb v k0); constructor; auto. cbn. lia.
Qed.

Lemma count_posts_positive (xs : list A) (counts : dict pykey nat) :
  Forall (fun kv => 1 <= snd kv) counts ->
  Forall (fun kv => 1 <= snd kv)
    (fold_left (fun counts x => Forum.count_post counts (user_of x)) xs counts).
Proof.
  revert counts. induction xs as [|x xs IH]; intros counts H; [exact H|].
  cbn [fold_left]. apply IH. now apply count_post_positive.
Qed.

Lemma count_posts_distinct (xs : list A) (counts : dict pykey nat) :
  NoDup (dict_keys counts) ->
  NoDup (dict_keys
    (fold_left (fun counts x => Forum.count_post counts (user_of x)) xs counts)).
Proof.
  revert counts. induction xs as [|x xs IH]; intros counts H; [exact H|].
  cbn [fold_left]. apply IH. unfold Forum.count_post.
  now apply dict_set_NoDup.
Qed.
End Counting.

Lemma post_counts_flat (self : Forum.converter) (counts : dict pykey nat) :
  fold_left
    (fun counts kv =>
       fold_left (fun counts c => Forum.count_post counts (Forum.c_InsertUserID c))
                 (snd kv) counts)
    (Forum.comments self) counts
  = fold_left (fun counts c => Forum.count_post counts (Forum.c_InsertUserID c))
      (List.concat (map snd (Forum.comments self))) counts.
Proof.
  revert counts. induction (Forum.comments self) as [|kv l IH]; intros counts;
    [reflexivity|].
  cbn [fold_left map List.concat]. now rewrite IH, fold_left_app.
Qed.

(** X13: the post counts of the user search index.  The count of a
    user is the number of metadata records the user is the author of
    plus the number of comments of the comment store the user wrote; a
    user with no post has no entry at all (not an entry 0), and no user
    has two entries. *)
Theorem search_index_post_counts (db : unicode_db) (self : Forum.converter)
    (discussions_meta : list Forum.meta) (user_id : pykey) :
  let index := Forum.generate_user_search_index db self discussions_meta in
  let posts :=
    List.length
      (filter (fun disc => key_eqb (Forum.meta_author_id disc) user_id)
              discussions_meta)
    + List.length
        (filter (fun c => key_eqb (Forum.c_InsertUserID c) user_id)
                (List.concat (map snd (Forum.comments self)))) in
  dict_get key_eqb user_id (Forum.si_post_counts index)
    = (if Nat.eqb posts 0 then None else Some posts)
  /\ NoDup (dict_keys (Forum.si_post_counts index)).
Proof.
  cbv zeta. unfold Forum.generate_user_search_index.
  cbn [Forum.si_post_counts]. rewrite post_counts_flat.
  set (c1 := fold_left
               (fun counts disc =>
                  Forum.count_post counts (Forum.meta_author_id disc))
               discussions_meta []).
  set (c2 := fold_left _ _ c1).
  assert (Hpos : Forall (fun kv => 1 <= snd kv) c2).
  { apply count_posts_positive. apply count_posts_positive. constructor. }
  assert (Hnd : NoDup (dict_keys c2)).
  { apply count_posts_distinct. apply count_posts_distinct. constructor. }
  split; [|exact Hnd].
  pose proof (count_posts_get _ Forum.c_InsertUserID user_id
                (List.concat (map snd (Forum.comments self))) c1) as H2.
  pose proof (count_posts_get _ Forum.meta_author_id user_id
                discussions_meta []) as H1.
  fold c1 in H1. fold c2 in H2. cbn [dict_get] in H1.
  cbv beta in H1, H2. unfold dict in *.
  rewrite H1 in H2. cbn [Nat.add] in H2.
  destruct (dict_get key_eqb user_id c2) as [n|] eqn:G.
  - apply (dict_get_found _ _ key_eqb key_eqb_eq) in G.
    rewrite Forall_forall in Hpos. specialize (Hpos _ G). cbn [snd] in Hpos.
    rewrite <- H2.
    destruct (Nat.eqb_spec n 0); [lia | reflexivity].
  - rewrite <- H2. reflexivity.
Qed.

(** X14: the user names of the search index.  A lowercased name leads
    to the ID of the last member of the store that has this lowercased
    name, so of two members whose names differ in case only the later
    one is found; a name no member has is not in the index; and the
    number of users is the number of different lowercased names, which
    is at most the number of members. *)
Theorem search_index_usernames (db : unicode_db) (self : Forum.converter)
    (discussions_meta : list Forum.meta) (name : pystr) :
  let index := Forum.generate_user_search_index db self discussions_meta in
  dict_get str_eqb name (Forum.si_usernames index)
    = match find (fun kv => str_eqb name (lower db (snd kv)))
                 (List.rev (Forum.members self)) with
      | Some kv => Some (fst kv)
      | None => None
      end
  /\ NoDup (dict_keys (Forum.si_usernames index))
  /\ (forall key, In key (dict_keys (Forum.si_usernames index))
        <-> In key (map (fun kv => lower db (snd kv)) (Forum.members self)))
  /\ Forum.si_total_users index
     = List.length (dict_keys (Forum.si_usernames index))
  /\ Forum.si_total_users index <= List.length (Forum.members self).
Proof.
  cbv zeta. unfold Forum.generate_user_search_index.
  cbn [Forum.si_usernames Forum.si_total_users].
  split.
  { exact (assignments_last _ _ str_eqb str_eqb_eq _
             (fun kv => lower db (snd kv)) fst (Forum.members self) []
             name). }
  split.
  { apply (assignments_distinct _ _ str_eqb str_eqb_eq _
             (fun kv => lower db (snd kv)) fst (Forum.members self) []).
    constructor. }
  split.
  { intros key.
    rewrite (assignments_keys _ _ str_eqb str_eqb_eq _
               (fun kv => lower db (snd kv)) fst).
    cbn [dict_keys map In]. tauto. }
  split; [unfold dict_keys; now rewrite length_map|].
  apply (assignments_length _ _ str_eqb _
           (fun kv => lower db (snd kv)) fst (Forum.members self) []).
Qed.

(** ** The category list of the search page *)

Lemma collect_categories_filter (cats : dict pykey Forum.category)
    (acc : list Forum.category_item) :
  Forum.collect_categories cats acc
  = acc
    ++ map (fun kv => {| Forum.ci_id := fst kv;
                         Forum.ci_name := Forum.cat_Name (snd kv) |})
         (filter (fun kv => negb (Forum.hidden_category
                                    (Forum.cat_Name (snd kv)))) cats).
Proof.
  revert acc. induction cats as [|[cat_id cat_info] cats IH]; intros acc;
    cbn [Forum.collect_categories filter map fst snd].
  - now rewrite app_nil_r.
  - destruct (Forum.hidden_category (Forum.cat_Name cat_info));
      cbn [negb map fst snd]; rewrite IH; [reflexivity|].
    now rewrite <- app_assoc.
Qed.

(** X15: the category list of the search page.  It holds one entry for
    each category of the store except those named [Moderators] and
    [Editors: Private Group], which it never holds; it is in ascending
    order of the names, categories of one name in the order of the
    store; and the lookup built from it gives every listed category its
    name and has no entry for a hidden one. *)
Theorem search_categories_listed (self_categories : dict pykey Forum.category) :
  NoDup (dict_keys self_categories) ->
  let listed := Forum.search_categories self_categories in
  let shown :=
    filter (fun kv => negb (Forum.hidden_category (Forum.cat_Name (snd kv))))
           self_categories in
  Permutation listed
    (map (fun kv => {| Forum.ci_id := fst kv;
                       Forum.ci_name := Forum.cat_Name (snd kv) |}) shown)
  /\ Sorted (key_le Forum.ci_name) listed
  /\ (forall name,
        filter (fun it => str_eqb (Forum.ci_name it) name) listed
        = map (fun kv => {| Forum.ci_id := fst kv;
                            Forum.ci_name := Forum.cat_Name (snd kv) |})
            (filter (fun kv => str_eqb (Forum.cat_Name (snd kv)) name) shown))
  /\ (forall it, In it listed ->
        Forum.ci_name it <> py "Moderators"
        /\ Forum.ci_name it <> py "Editors: Private Group")
  /\ forall cat_id cat_info, In (cat_id, cat_info) self_categories ->
       dict_get key_eqb cat_id (Forum.category_lookup listed)
       = if Forum.hidden_category (Forum.cat_Name cat_info) then None
         else Some (Forum.cat_Name cat_info).
Proof.
  intros Hnd. cbv zeta. unfold Forum.search_categories.
  rewrite collect_categories_filter. cbn [app].
  set (item := fun kv : pykey * Forum.category =>
         {| Forum.ci_id := fst kv; Forum.ci_name := Forum.cat_Name (snd kv) |}).
  set (shown := filter (fun kv => negb (Forum.hidden_category
                                          (Forum.cat_Name (snd kv))))
                  self_categories).
  pose proof (sort_by_perm _ Forum.ci_name (map item shown)) as P.
  assert (Hin : forall it, In it (sort_by Forum.ci_name (map item shown)) <->
            exists kv, In kv self_categories
              /\ Forum.hidden_category (Forum.cat_Name (snd kv)) = false
              /\ it = item kv).
  { intros it. split.
    - intros H. apply (Permutation_in _ P) in H.
      apply in_map_iff in H as [kv [<- H]]. apply filter_In in H as [H1 H2].
      exists kv. apply negb_true_iff in H2. auto.
    - intros [kv [H1 [H2 ->]]].
      apply (Permutation_in _ (Permutation_sym P)).
      apply in_map. apply filter_In. split; [exact H1|].
      now apply negb_true_iff. }
  split; [exact P|].
  split; [apply sort_by_sorted|].
  split.
  { intros name. rewrite sort_by_stable.
    clear. induction shown as [|kv l IH]; [reflexivity|].
    cbn [map filter].
    change (Forum.ci_name (item kv)) with (Forum.cat_Name (snd kv)).
    destruct (str_eqb (Forum.cat_Name (snd kv)) name); cbn [map];
      now rewrite IH. }
  split.
  { intros it H. apply Hin in H as [kv [_ [H ->]]].
    cbn [item Forum.ci_name]. unfold Forum.hidden_category in H.
    apply orb_false_iff in H as [H1 H2].
    split; intros E; rewrite E in *; discriminate. }
  intros cat_id cat_info Hcat. unfold Forum.category_lookup.
  rewrite (assignments_last _ _ key_eqb key_eqb_eq _
             Forum.ci_id Forum.ci_name).
  cbn [dict_get].
  destruct (find (fun x => key_eqb cat_id (Forum.ci_id x))
              (List.rev (sort_by Forum.ci_name (map item shown))))
    as [it|] eqn:F.
  - apply find_some in F as [F1 F2]. apply in_rev in F1.
    apply Hin in F1 as [kv [K1 [K2 ->]]].
    cbn [item Forum.ci_id Forum.ci_name] in *.
    apply key_eqb_eq in F2.
    assert (E : kv = (cat_id, cat_info)).
    { apply (NoDup_map_unique _ _ fst self_categories); auto. }
    subst kv. cbn [snd] in *. now rewrite K2.
  - destruct (Forum.hidden_category (Forum.cat_Name cat_info)) eqn:Hh;
      [reflexivity|].
    exfalso.
    assert (Hi : In (item (cat_id, cat_info))
                   (List.rev (sort_by Forum.ci_name (map item shown)))).
    { apply -> in_rev. apply Hin. exists (cat_id, cat_info). auto. }
    pose proof (find_none _ _ F _ Hi) as Hf.
    cbn [item Forum.ci_id fst] in Hf. rewrite key_eqb_refl in Hf.
    discriminate.
Qed.

Lemma search_categories_listed_witness :
  map Forum.ci_name
    (Forum.search_categories
       [(KInt 3%Z, {| Forum.cat_Name := py "Science" |});
        (KInt 9%Z, {| Forum.cat_Name := py "Moderators" |});
        (KInt 1%Z, {| Forum.cat_Name := py "General" |})])
  = [py "General"; py "Science"]
  /\ dict_get key_eqb (KInt 9%Z)
       (Forum.category_lookup
          (Forum.search_categories
             [(KInt 3%Z, {| Forum.cat_Name := py "Science" |});
              (KInt 9%Z, {| Forum.cat_Name := py "Moderators" |});
              (KInt 1%Z, {| Forum.cat_Name := py "General" |})]))
     = None.
Proof.
  assert (Hnd : NoDup (dict_keys
            [(KInt 3%Z, {| Forum.cat_Name := py "Science" |});
             (KInt 9%Z, {| Forum.cat_Name := py "Moderators" |});
             (KInt 1%Z, {| Forum.cat_Name := py "General" |})])).
  { cbn. repeat constructor; cbn; intuition discriminate. }
  destruct (search_categories_listed _ Hnd) as [_ [_ [_ [_ H]]]].
  split; [reflexivity|].
  exact (H (KInt 9%Z) {| Forum.cat_Name := py "Moderators" |}
           (or_intror (or_introl eq_refl))).
Defined.

(** ** What a user chunk holds *)

Section ChunkContent.
Variable db : unicode_db.
Variable self : Forum.converter.

(** The entry of a metadata record, when its discussion is in the
    store. *)
Let entry_of (disc : Forum.meta) : list Forum.disc_entry :=
  match dict_get key_eqb (Forum.meta_id disc) (Forum.discussions self) with
  | Some discussion =>
      [{| Forum.de_id := Forum.meta_id disc;
          Forum.de_title := Forum.meta_title disc;
          Forum.de_date := Forum.meta_date disc;
          Forum.de_url := Forum.meta_url disc;
          Forum.de_excerpt := Forum.excerpt 200 (Forum.d_Body discussion) |}]
  | None => []
  end.

Lemma values_of_dict_append (V : Type) (k k' : pykey) (v : V)
    (d : dict pykey (list V)) :
  values_of key_eqb k (dict_append k' v d)
    = values_of key_eqb k d ++ (if key_eqb k' k then [v] else []).
Proof. exact (values_of_append V (fun _ => k') k v d). Qed.

Lemma build_user_discussions_none (discussions_meta : list Forum.meta)
    (acc : dict pykey (list Forum.disc_entry)) :
  Forum.build_user_discussions self discussions_meta acc = None
  <-> exists disc, In disc discussions_meta
        /\ dict_mem key_eqb (Forum.meta_id disc) (Forum.discussions self)
           = false.
Proof.
  revert acc. induction discussions_meta as [|m ms IH]; intros acc;
    cbn [Forum.build_user_discussions].
  - split; [discriminate | intros [d [[] _]]].
  - destruct (dict_get key_eqb (Forum.meta_id m) (Forum.discussions self))
      as [d|] eqn:G.
    + rewrite IH. split.
      * intros [x [H1 H2]]. exists x. split; [now right | exact H2].
      * intros [x [[<-|H1] H2]].
        -- unfold dict_mem in H2. rewrite G in H2. discriminate.
        -- now exists x.
    + split; [|reflexivity]. intros _. exists m.
      split; [now left|]. unfold dict_mem. now rewrite G.
Qed.

Lemma build_user_discussions_values (discussions_meta : list Forum.meta)
    (acc user_discussions : dict pykey (list Forum.disc_entry))
    (user_id : pykey) :
  Forum.build_user_discussions self discussions_meta acc
    = Some user_discussions ->
  values_of key_eqb user_id user_discussions
  = values_of key_eqb user_id acc
    ++ flat_map entry_of
         (filter (fun disc => key_eqb (Forum.meta_author_id disc) user_id)
                 discussions_meta).
Proof.
  revert acc. induction discussions_meta as [|m ms IH]; intros acc;
    cbn [Forum.build_user_discussions filter].
  - intros [= <-]. cbn [flat_map]. now rewrite app_nil_r.
  - destruct (dict_get key_eqb (Forum.meta_id m) (Forum.discussions self))
      as [d|] eqn:G; [|discriminate].
    intros H. rewrite (IH _ H), values_of_dict_append, <- app_assoc.
    f_equal.
    destruct (key_eqb (Forum.meta_author_id m) user_id); [|reflexivity].
    cbn [flat_map]. unfold entry_of at 2. now rewrite G.
Qed.

(** The comments of the store, each with the key it is filed under. *)
Let filed : list (pykey * Forum.comment) :=
  flat_map (fun kv => map (pair (fst kv)) (snd kv)) (Forum.comments self).

Lemma build_user_comments_flat :
  Forum.build_user_comments db self
  = fold_left
      (fun acc kc =>
         dict_append (Forum.c_InsertUserID (snd kc))
           (Forum.comment_entry_of db self (fst kc) (snd kc)) acc)
      filed [].
Proof.
  unfold Forum.build_user_comments, filed.
  generalize (@nil (pykey * list Forum.comment_entry)).
  induction (Forum.comments self) as [|[k cs] l IH]; intros acc;
    [reflexivity|].
  cbn [fold_left flat_map fst snd]. rewrite fold_left_app, <- IH.
  f_equal. clear. revert acc.
  induction cs as [|c cs IHc]; intros acc; [reflexivity|].
  cbn [fold_left map fst snd]. apply IHc.
Qed.

Lemma build_user_comments_values (user_id : pykey) :
  values_of key_eqb user_id (Forum.build_user_comments db self)
  = map (fun kc => Forum.comment_entry_of db self (fst kc) (snd kc))
      (filter (fun kc => key_eqb (Forum.c_InsertUserID (snd kc)) user_id)
              filed).
Proof.
  rewrite build_user_comments_flat.
  assert (H : forall acc,
    values_of key_eqb user_id
      (fold_left
         (fun acc kc =>
            dict_append (Forum.c_InsertUserID (snd kc))
              (Forum.comment_entry_of db self (fst kc) (snd kc)) acc)
         filed acc)
    = values_of key_eqb user_id acc
      ++ map (fun kc => Forum.comment_entry_of db self (fst kc) (snd kc))
           (filter (fun kc => key_eqb (Forum.c_InsertUserID (snd kc)) user_id)
                   filed)).
  { induction filed as [|kc l IH]; intros acc; cbn [fold_left filter map].
    - now rewrite app_nil_r.
    - rewrite IH, values_of_dict_append, <- app_assoc. f_equal.
      now destruct (key_eqb (Forum.c_InsertUserID (snd kc)) user_id). }
  exact (H []).
Qed.

Lemma entries_of_present (l : list Forum.meta) :
  (forall disc, In disc l ->
     dict_mem key_eqb (Forum.meta_id disc) (Forum.discussions self) = true) ->
  Forall2
    (fun e disc =>
       Forum.de_id e = Forum.meta_id disc
       /\ Forum.de_title e = Forum.meta_title disc
       /\ Forum.de_date e = Forum.meta_date disc
       /\ Forum.de_url e = Forum.meta_url disc
       /\ exists discussion,
            dict_get key_eqb (Forum.meta_id disc) (Forum.discussions self)
              = Some discussion
            /\ Forum.de_excerpt e
               = Forum.excerpt 200 (Forum.d_Body discussion))
    (flat_map entry_of l) l.
Proof.
  induction l as [|m l IH]; intros H; cbn [flat_map]; [constructor|].
  pose proof (H m (or_introl eq_refl)) as Hm. unfold dict_mem in Hm.
  unfold entry_of at 1.
  destruct (dict_get key_eqb (Forum.meta_id m) (Forum.discussions self))
    as [d|] eqn:G; [|discriminate].
  cbn [app]. constructor.
  - cbn. repeat split. now exists d.
  - apply IH. intros disc Hin. apply H. now right.
Qed.
End ChunkContent.

Lemma excerpt_length (n : nat) (body : pystr) :
  List.length (Forum.excerpt n body) <= n + 3
  /\ firstn n (Forum.excerpt n body) = firstn n body
  /\ (List.length body <= n -> Forum.excerpt n body = body).
Proof.
  unfold Forum.excerpt. destruct (Nat.ltb_spec n (List.length body)) as [H|H].
  - split; [|split].
    + rewrite length_app, length_firstn. cbn. lia.
    + rewrite firstn_app, length_firstn.
      replace (n - Nat.min n (List.length body)) with 0 by lia.
      cbn [firstn]. rewrite app_nil_r. rewrite firstn_firstn.
      f_equal. lia.
    + lia.
  - split; [lia|]. split; reflexivity.
Qed.

(** X16: the user-chunk generator fails, with the [KeyError] of the
    discussion lookup and before any file is written, exactly when a
    metadata record names a discussion that is not in the store. *)
Theorem user_chunks_key_error (db : unicode_db) (self : Forum.converter)
    (discussions_meta : list Forum.meta) (fs : Forum.files) :
  Forum.generate_user_data_chunks db self discussions_meta fs = None
  <-> exists disc, In disc discussions_meta
        /\ dict_mem key_eqb (Forum.meta_id disc) (Forum.discussions self)
           = false.
Proof.
  rewrite <- (build_user_discussions_none self discussions_meta []).
  unfold Forum.generate_user_data_chunks.
  destruct (Forum.build_user_discussions self discussions_meta []);
    split; congruence.
Qed.

(** X17: what a chunk file says of a user.  The user is a member, and
    the name is the one of the member store; the discussions are those
    of the metadata records the user is the author of, in the order of
    the records, each with the ID, title, date and URL of its record and
    a preview of the body of the stored discussion; the comments are
    those of the comment store the user wrote, in the order of the
    store, each filed under its discussion; and a preview is never
    longer than 203, respectively 153, characters. *)
Theorem user_chunk_content (db : unicode_db) (self : Forum.converter)
    (discussions_meta : list Forum.meta) (fs : Forum.files)
    (chunk_num : nat) (chunk_data : dict pykey Forum.user_data)
    (user_id : pykey) (data : Forum.user_data) :
  NoDup (dict_keys (Forum.members self)) ->
  Forum.generate_user_data_chunks db self discussions_meta [] = Some fs ->
  dict_get str_eqb (Forum.chunk_path chunk_num) fs
    = Some (Forum.ChunkFile chunk_data) ->
  dict_get key_eqb user_id chunk_data = Some data ->
  dict_get key_eqb user_id (Forum.members self)
    = Some (Forum.ud_username data)
  /\ Forall2
       (fun e disc =>
          Forum.de_id e = Forum.meta_id disc
          /\ Forum.de_title e = Forum.meta_title disc
          /\ Forum.de_date e = Forum.meta_date disc
          /\ Forum.de_url e = Forum.meta_url disc
          /\ exists discussion,
               dict_get key_eqb (Forum.meta_id disc) (Forum.discussions self)
                 = Some discussion
               /\ Forum.de_excerpt e
                  = Forum.excerpt 200 (Forum.d_Body discussion))
       (Forum.ud_discussions data)
       (filter (fun disc => key_eqb (Forum.meta_author_id disc) user_id)
               discussions_meta)
  /\ Forum.ud_comments data
     = map (fun kc => Forum.comment_entry_of db self (fst kc) (snd kc))
         (filter (fun kc => key_eqb (Forum.c_InsertUserID (snd kc)) user_id)
            (flat_map (fun kv => map (pair (fst kv)) (snd kv))
               (Forum.comments self)))
  /\ (forall e, In e (Forum.ud_discussions data) ->
        List.length (Forum.de_excerpt e) <= 203)
  /\ (forall e, In e (Forum.ud_comments data) ->
        List.length (Forum.ce_excerpt e) <= 153).
Proof.
  intros Hnd Hgen Hfile Hdata.
  unfold Forum.generate_user_data_chunks in Hgen.
  destruct (Forum.build_user_discussions self discussions_meta [])
    as [ud|] eqn:Hud; [|discriminate].
  injection Hgen as <-.
  set (ucm := Forum.build_user_comments db self) in *.
  set (k := Forum.chunk_count (List.length (Forum.members self))).
  set (all := dict_keys (Forum.members self)) in *.
  set (ids := fun j => firstn 50 (skipn (50 * j) all)).
  set (data_of := Forum.user_data_of self ud ucm).
  set (file_of := fun j =>
         (Forum.chunk_path j,
          Forum.ChunkFile (map (fun u => (u, data_of u)) (ids j)))).
  set (mapping := flat_map (fun j => map (fun u => (u, j)) (ids j)) (seq 0 k)).
  assert (Hfs : Forum.chunk_users self ud ucm []
                = map file_of (seq 0 k)
                    ++ [(Forum.mapping_path, Forum.MappingFile mapping)])
    by (apply chunk_users_output; exact Hnd).
  rewrite Hfs in Hfile. clear Hfs.
  apply (dict_get_found _ _ str_eqb str_eqb_eq) in Hfile.
  apply in_app_or in Hfile as [Hfile|[Hfile|[]]]; [|discriminate].
  apply in_map_iff in Hfile as [j [E Hj]].
  assert (Ecd : chunk_data = map (fun u => (u, data_of u)) (ids j))
    by (unfold file_of in E; congruence).
  clear E. subst chunk_data.
  apply (dict_get_found _ _ key_eqb key_eqb_eq) in Hdata.
  apply in_map_iff in Hdata as [u [E Hu]].
  assert (Eu : u = user_id) by congruence.
  assert (Ed : data = data_of user_id) by congruence.
  clear E. subst u data.
  assert (Hmember : In user_id all).
  { unfold ids in Hu. apply firstn_In in Hu.
    rewrite <- (firstn_skipn (50 * j) all). apply in_or_app. now right. }
  unfold data_of, all in *. clear ids file_of mapping Hu Hj.
  assert (Hpresent : forall disc, In disc discussions_meta ->
            dict_mem key_eqb (Forum.meta_id disc) (Forum.discussions self)
            = true).
  { intros disc Hin.
    destruct (dict_mem key_eqb (Forum.meta_id disc) (Forum.discussions self))
      eqn:E; [reflexivity|].
    assert (Hn : Forum.build_user_discussions self discussions_meta [] = None).
    { apply build_user_discussions_none. now exists disc. }
    congruence. }
  assert (Hds : Forum.ud_discussions
                  (Forum.user_data_of self ud ucm user_id)
                = values_of key_eqb user_id ud) by reflexivity.
  assert (Hcs : Forum.ud_comments
                  (Forum.user_data_of self ud ucm user_id)
                = values_of key_eqb user_id ucm) by reflexivity.
  rewrite Hds, Hcs.
  rewrite (build_user_discussions_values self _ _ _ user_id Hud).
  unfold ucm. rewrite build_user_comments_values.
  cbn [values_of dict_get app].
  assert (HF := entries_of_present self
                  (filter (fun disc =>
                             key_eqb (Forum.meta_author_id disc) user_id)
                          discussions_meta)).
  split.
  { cbn [Forum.user_data_of Forum.ud_username]. unfold Forum.get_username.
    apply (dict_mem_In _ user_id) in Hmember. unfold dict_mem in Hmember.
    now destruct (dict_get key_eqb user_id (Forum.members self)). }
  split.
  { apply HF. intros disc Hin. apply filter_In in Hin as [Hin _].
    now apply Hpresent. }
  split; [reflexivity|].
  split.
  - intros e He.
    assert (Hx : exists body, Forum.de_excerpt e = Forum.excerpt 200 body).
    { apply in_flat_map in He as [m [_ He]].
      destruct (dict_get key_eqb (Forum.meta_id m) (Forum.discussions self))
        as [d|]; [|contradiction].
      destruct He as [<-|[]]. now exists (Forum.d_Body d). }
    destruct Hx as [body ->].
    apply (excerpt_length 200 body).
  - intros e He. apply in_map_iff in He as [kc [<- _]].
    apply (excerpt_length 150 (Forum.c_Body (snd kc))).
Qed.

Lemma user_chunk_content_witness :
  exists data,
    dict_get key_eqb (KInt 7%Z) (Forum.members Sample.store)
      = Some (Forum.ud_username data)
    /\ map Forum.de_id (Forum.ud_discussions data) = [KInt 10%Z]
    /\ Forum.ud_comments data = [].
Proof.
  assert (Hnd : NoDup (dict_keys (Forum.members Sample.store))).
  { cbn. repeat constructor; cbn; intuition discriminate. }
  eexists.
  pose proof (user_chunk_content ascii_only Sample.store [Sample.meta10]
                _ 0 _ (KInt 7%Z) _ Hnd eq_refl eq_refl eq_refl)
    as [H1 [_ [H3 _]]].
  split; [exact H1|]. split; [reflexivity | exact H3].
Defined.

(** ** The cache, whatever it holds *)

Section CacheLoad.
Variable db : unicode_db.

Lemma dict_set_int_keyed (V : Type) (z : Z) (v : V) (d : dict pykey V) :
  Forum.int_keyed d -> Forum.int_keyed (dict_set key_eqb (KInt z) v d).
Proof.
  unfold Forum.int_keyed. intros H.
  induction H as [|[k0 v0] d Hk Hd IH]; cbn [dict_set].
  - repeat constructor. now exists z.
  - destruct (key_eqb (KInt z) k0); constructor; auto.
Qed.

Lemma int_keys_invariant (items : list (pykey * pyval))
    (acc d : dict pykey pyval) :
  Forum.int_keys db items acc = Some d ->
  Forum.int_keyed acc -> NoDup (dict_keys acc) ->
  Forum.int_keyed d /\ NoDup (dict_keys d).
Proof.
  revert acc. induction items as [|[k v] items IH]; intros acc;
    cbn [Forum.int_keys].
  - intros [= <-]. auto.
  - destruct (Forum.int_of_key db k) as [z|]; [|discriminate].
    intros H H1 H2. apply (IH _ H).
    + now apply dict_set_int_keyed.
    + now apply dict_set_NoDup.
Qed.

Lemma load_map_invariant (f : option json) (d : dict pykey pyval) :
  Forum.load_map db f = Some d ->
  f <> None /\ Forum.int_keyed d /\ NoDup (dict_keys d).
Proof.
  unfold Forum.load_map. destruct f as [j|]; [|discriminate].
  destruct (json_load j); try discriminate.
  intros H. split; [discriminate|].
  apply (int_keys_invariant _ _ _ H); constructor.
Qed.
End CacheLoad.

(** X18: whatever the cache directory holds, a load that succeeds
    found the directory and all four files, and gives four maps that are
    keyed by integers with no key twice: the store after a load from the
    cache looks like the store after a load from the export. *)
Theorem load_processed_data_maps (db : unicode_db)
    (data_dir : option Forum.processed_data) (self : Forum.entity_maps) :
  Forum._load_processed_data db data_dir = Some self ->
  (exists dir, data_dir = Some dir
     /\ Forum.discussions_json dir <> None
     /\ Forum.comments_json dir <> None
     /\ Forum.members_json dir <> None
     /\ Forum.categories_json dir <> None)
  /\ (Forum.int_keyed (Forum.em_discussions self)
      /\ NoDup (dict_keys (Forum.em_discussions self)))
  /\ (Forum.int_keyed (Forum.em_comments self)
      /\ NoDup (dict_keys (Forum.em_comments self)))
  /\ (Forum.int_keyed (Forum.em_members self)
      /\ NoDup (dict_keys (Forum.em_members self)))
  /\ (Forum.int_keyed (Forum.em_categories self)
      /\ NoDup (dict_keys (Forum.em_categories self))).
Proof.
  unfold Forum._load_processed_data.
  destruct data_dir as [dir|]; [|discriminate].
  destruct (Forum.load_map db (Forum.discussions_json dir)) as [ds|] eqn:E1;
    [|discriminate].
  destruct (Forum.load_map db (Forum.comments_json dir)) as [cs|] eqn:E2;
    [|discriminate].
  destruct (Forum.load_map db (Forum.members_json dir)) as [ms|] eqn:E3;
    [|discriminate].
  destruct (Forum.load_map db (Forum.categories_json dir)) as [cats|] eqn:E4;
    [|discriminate].
  intros [= <-]. cbn [Forum.em_discussions Forum.em_comments
    Forum.em_members Forum.em_categories].
  apply load_map_invariant in E1 as [F1 I1], E2 as [F2 I2],
    E3 as [F3 I3], E4 as [F4 I4].
  split; [exists dir; auto|]. auto.
Qed.

Lemma load_processed_data_maps_witness :
  Forum.int_keyed (Forum.em_members Sample.maps)
  /\ NoDup (dict_keys (Forum.em_members Sample.maps)).
Proof.
  assert (E : Forum._load_processed_data ascii_only
                (Some (Forum._save_processed_data Sample.maps))
              = Some Sample.maps) by (vm_compute; reflexivity).
  destruct (load_processed_data_maps ascii_only _ _ E)
    as [_ [_ [_ [H _]]]].
  exact H.
Defined.

(** ** The slug of a slug *)

Section SlugAgain.
Variable db : unicode_db.

Lemma lower_ascii_is_ascii (title : pystr) (c : cp) :
  forallb is_ascii title = true -> In c (lower db title) -> is_ascii c = true.
Proof.
  intros Ha. unfold lower. rewrite Ha. intros Hc.
  apply in_map_iff in Hc as [x [E Hx]].
  rewrite forallb_forall in Ha. specialize (Ha x Hx).
  destruct (ascii_upper x) eqn:Hu; [|congruence].
  subst c. unfold ascii_upper, between, is_ascii in *.
  apply andb_true_iff in Hu as [H1 H2].
  apply N.leb_le in H1, H2. apply N.ltb_lt. lia.
Qed.

Lemma lower_fixed (s : pystr) :
  (forall c, In c s -> is_ascii c = true /\ ascii_upper c = false) ->
  lower db s = s.
Proof.
  intros H. unfold lower.
  assert (Ha : forallb is_ascii s = true).
  { apply forallb_forall. intros c Hc. now apply H. }
  rewrite Ha. clear Ha.
  induction s as [|c t IH]; [reflexivity|].
  cbn [map]. rewrite (proj2 (H c (or_introl eq_refl))).
  f_equal. apply IH. intros x Hx. apply H. now right.
Qed.

Lemma filter_fixed (A : Type) (f : A -> bool) (l : list A) :
  (forall x, In x l -> f x = true) -> filter f l = l.
Proof.
  intros H. induction l as [|a l IH]; [reflexivity|].
  cbn [filter]. rewrite (H a (or_introl eq_refl)).
  f_equal. apply IH. intros x Hx. apply H. now right.
Qed.

(** A text of single hyphens and of characters that are no hyphen and
    no whitespace has no run to collapse. *)
Lemma collapse_runs_fixed (s : pystr) :
  (forall c, In c s -> c = Forum.HYPHEN \/ Forum.slug_sep db c = false) ->
  Forum.single_hyphens s = true ->
  Forum.collapse_runs db false s = s
  /\ (match s with
      | [] => True
      | c :: _ => c <> Forum.HYPHEN
      end -> Forum.collapse_runs db true s = s).
Proof.
  induction s as [|c t IH]; intros Hc Hs; [split; reflexivity|].
  assert (Ht : forall x, In x t ->
            x = Forum.HYPHEN \/ Forum.slug_sep db x = false).
  { intros x Hx. apply Hc. now right. }
  assert (Hst : Forum.single_hyphens t = true).
  { cbn [Forum.single_hyphens] in Hs. destruct t as [|b r]; [reflexivity|].
    now apply andb_true_iff in Hs as [_ Hs]. }
  destruct (IH Ht Hst) as [IH0 IH1].
  cbn [Forum.collapse_runs].
  destruct (Hc c (or_introl eq_refl)) as [->|Hsep].
  - rewrite hyphen_is_sep. split; [|intros H; now elim H].
    f_equal. apply IH1.
    destruct t as [|b r]; [exact I|].
    cbn [Forum.single_hyphens] in Hs.
    apply andb_true_iff in Hs as [Hs _].
    apply negb_true_iff in Hs. rewrite N.eqb_refl in Hs.
    cbn [andb] in Hs. now apply N.eqb_neq in Hs.
  - rewrite Hsep. split; [|intros _]; now rewrite IH0.
Qed.
End SlugAgain.

(** X19: the slug of an ASCII title is its own slug: making the slug of
    a slug changes nothing. *)
Theorem generate_slug_idempotent (db : unicode_db) (title : pystr) :
  forallb is_ascii title = true ->
  Forum.generate_slug db (Forum.generate_slug db title)
    = Forum.generate_slug db title.
Proof.
  intros Ha.
  set (s := Forum.generate_slug db title).
  assert (Hin : forall c, In c s ->
            c = Forum.HYPHEN
            \/ (In c (lower db title) /\ Forum.slug_sep db c = false
                /\ Forum.slug_char db c = true)).
  { intros c Hc. unfold s in Hc. rewrite generate_slug_stages in Hc.
    apply firstn_In in Hc. apply collapse_runs_In in Hc.
    destruct Hc as [Hc|[Hc Hs]]; [now left | right].
    apply filter_In in Hc as [Hc Hk]. auto. }
  assert (Hsingle : Forum.single_hyphens s = true).
  { unfold s. rewrite generate_slug_stages. apply single_hyphens_firstn.
    apply collapse_runs_single. }
  assert (Hlen : List.length s <= 50).
  { unfold s. rewrite generate_slug_stages. apply firstn_le_length. }
  rewrite (generate_slug_stages db s).
  rewrite lower_fixed.
  - rewrite filter_fixed.
    + rewrite (proj1 (collapse_runs_fixed db s
                        (fun c Hc => match Hin c Hc with
                                     | or_introl E => or_introl E
                                     | or_intror (conj _ (conj E _)) =>
                                         or_intror E
                                     end) Hsingle)).
      now apply firstn_all2.
    + intros c Hc. destruct (Hin c Hc) as [->|[_ [_ H]]];
        [reflexivity | exact H].
  - intros c Hc. destruct (Hin c Hc) as [->|[H _]]; [split; reflexivity|].
    split; [exact (lower_ascii_is_ascii db title c Ha H)
           |exact (lower_ascii_no_capital db title c Ha H)].
Qed.

Lemma generate_slug_idempotent_witness :
  Forum.generate_slug ascii_only
    (Forum.generate_slug ascii_only (py "Hello,  World -- again!"))
  = Forum.generate_slug ascii_only (py "Hello,  World -- again!").
Proof.
  exact (generate_slug_idempotent ascii_only (py "Hello,  World -- again!")
           eq_refl).
Defined.

(** ** Loading the discussions *)

Section LoadDiscussions.
Variable excluded_categories : list pykey.
Variable self_categories : dict pykey Forum.category.

Let load := Forum.load_discussion excluded_categories self_categories.

(** A discussion as the loader stores it under [k]. *)
Let stored (kd : pykey * Forum.discussion_json) : Prop :=
  Forum.dj_DiscussionID (snd kd) = Some (fst kd)
  /\ Forum.excluded excluded_categories (Forum.dj_CategoryID (snd kd)) = false
  /\ Forum.dj_CategoryName (snd kd)
     = Some (Forum.get_category_name self_categories
               (Forum.dj_CategoryID (snd kd)))
  /\ forall s, Forum.dj_Name (snd kd) = Some s
               \/ Forum.dj_Body (snd kd) = Some s ->
       forall x, In x s -> Forum.remapped x = false.

Lemma load_discussion_entry (f : option Forum.discussion_json) :
  load [] f = [] \/ exists kd, load [] f = [kd] /\ stored kd.
Proof.
  unfold load, Forum.load_discussion.
  destruct f as [d|]; [|now left].
  destruct (Forum.excluded excluded_categories (Forum.dj_CategoryID d))
    eqn:E; [now left|].
  destruct (Forum.dj_DiscussionID d) as [k|] eqn:K; [|now left].
  right. eexists. split; [reflexivity|].
  unfold stored. cbn [dict_set fst snd Forum.dj_DiscussionID
    Forum.dj_CategoryID Forum.dj_CategoryName Forum.dj_Name Forum.dj_Body].
  repeat split; auto.
  intros s [H|H] x Hx.
  - destruct (Forum.dj_Name d) as [n|]; [|discriminate].
    injection H as <-. now apply fix_windows_1252_encoding_chars in Hx.
  - destruct (Forum.dj_Body d) as [b|]; [|discriminate].
    injection H as <-. now apply fix_windows_1252_encoding_chars in Hx.
Qed.

Lemma load_discussion_assigns (f : option Forum.discussion_json)
    (store : dict pykey Forum.discussion_json) :
  load store f
  = fold_left (fun d p => dict_set key_eqb (fst p) (snd p) d)
      (load [] f) store.
Proof.
  unfold load, Forum.load_discussion.
  destruct f as [d|]; [|reflexivity].
  destruct (Forum.excluded excluded_categories (Forum.dj_CategoryID d));
    [reflexivity|].
  destruct (Forum.dj_DiscussionID d) as [k|]; reflexivity.
Qed.

Lemma load_discussions_assigns (files : list (option Forum.discussion_json))
    (store : dict pykey Forum.discussion_json) :
  fold_left load files store
  = fold_left (fun d p => dict_set key_eqb (fst p) (snd p) d)
      (flat_map (load []) files) store.
Proof.
  revert store. induction files as [|f fs IH]; intros store; [reflexivity|].
  cbn [fold_left flat_map]. now rewrite fold_left_app, IH,
    <- load_discussion_assigns.
Qed.

Lemma accepted_stored (files : list (option Forum.discussion_json))
    (kd : pykey * Forum.discussion_json) :
  In kd (flat_map (load []) files) -> stored kd.
Proof.
  intros H. apply in_flat_map in H as [f [_ H]].
  destruct (load_discussion_entry f) as [E|[kd' [E S]]]; rewrite E in H.
  - contradiction.
  - destruct H as [<-|[]]. exact S.
Qed.
End LoadDiscussions.

Lemma load_discussions_store_facts (excluded_categories : list pykey)
    (self_categories : dict pykey Forum.category)
    (files : list (option Forum.discussion_json))
    (k : pykey) (d : Forum.discussion_json) :
  In (k, d)
     (Forum._load_discussions excluded_categories self_categories [] files) ->
  Forum.dj_DiscussionID d = Some k
  /\ Forum.excluded excluded_categories (Forum.dj_CategoryID d) = false
  /\ Forum.dj_CategoryName d
     = Some (Forum.get_category_name self_categories (Forum.dj_CategoryID d))
  /\ (forall s, Forum.dj_Name d = Some s \/ Forum.dj_Body d = Some s ->
        forall x, In x s -> Forum.remapped x = false).
Proof.
  unfold Forum._load_discussions. rewrite load_discussions_assigns.
  intros Hin.
  set (accepted := flat_map
         (Forum.load_discussion excluded_categories self_categories []) files)
    in *.
  assert (Hnd : NoDup (dict_keys
            (fold_left (fun d p => dict_set key_eqb (fst p) (snd p) d)
               accepted []))).
  { apply (assignments_distinct _ _ key_eqb key_eqb_eq _ fst snd).
    constructor. }
  apply (dict_get_entry _ _ key_eqb key_eqb_eq _ _ _ Hnd) in Hin.
  rewrite (assignments_last _ _ key_eqb key_eqb_eq _ fst snd) in Hin.
  destruct (find (fun p => key_eqb k (fst p)) (List.rev accepted))
    as [[k' d']|] eqn:F; [|discriminate].
  injection Hin as ->.
  apply find_some in F as [F1 F2]. apply in_rev in F1.
  cbn [fst] in F2. apply key_eqb_eq in F2. subst k'.
  exact (accepted_stored excluded_categories self_categories files _ F1).
Qed.

(** X20: loading the discussions into an empty store.  A discussion is
    under its own ID, and that is the discussion of the last file with
    this ID that can be read and is of no excluded category; no
    discussion of an excluded category is in the store; every stored
    discussion has its category name ([Uncategorized] without a known
    category), and no character of U+0080..U+009F is left in its name
    or its body; no ID is held twice. *)
Theorem load_discussions_store (excluded_categories : list pykey)
    (self_categories : dict pykey Forum.category)
    (files : list (option Forum.discussion_json)) :
  let store :=
    Forum._load_discussions excluded_categories self_categories [] files in
  let accepted :=
    flat_map (Forum.load_discussion excluded_categories self_categories [])
             files in
  NoDup (dict_keys store)
  /\ (forall k,
        dict_get key_eqb k store
        = match find (fun p => key_eqb k (fst p)) (List.rev accepted) with
          | Some p => Some (snd p)
          | None => None
          end)
  /\ forall k d, In (k, d) store ->
       Forum.dj_DiscussionID d = Some k
       /\ (forall c, Forum.dj_CategoryID d = Some c ->
             ~ In c excluded_categories)
       /\ Forum.dj_CategoryName d
          = Some (Forum.get_category_name self_categories
                    (Forum.dj_CategoryID d))
       /\ (forall s, Forum.dj_Name d = Some s \/ Forum.dj_Body d = Some s ->
             forall x, In x s -> Forum.remapped x = false).
Proof.
  cbv zeta. unfold Forum._load_discussions.
  rewrite load_discussions_assigns.
  set (accepted := flat_map
         (Forum.load_discussion excluded_categories self_categories []) files).
  assert (Hnd : NoDup (dict_keys
            (fold_left (fun d p => dict_set key_eqb (fst p) (snd p) d)
               accepted []))).
  { apply (assignments_distinct _ _ key_eqb key_eqb_eq _ fst snd).
    constructor. }
  pose proof (fun k => assignments_last _ _ key_eqb key_eqb_eq _ fst snd
                         accepted [] k) as Hlast.
  split; [exact Hnd|]. split; [exact Hlast|].
  intros k d Hin.
  apply (dict_get_entry _ _ key_eqb key_eqb_eq _ _ _ Hnd) in Hin.
  rewrite Hlast in Hin.
  destruct (find (fun p => key_eqb k (fst p)) (List.rev accepted))
    as [[k' d']|] eqn:F; [|discriminate].
  injection Hin as ->.
  apply find_some in F as [F1 F2]. apply in_rev in F1.
  cbn [fst] in F2. apply key_eqb_eq in F2. subst k'.
  pose proof (accepted_stored excluded_categories self_categories files
                _ F1) as [S1 [S2 [S3 S4]]].
  cbn [fst snd] in *.
  split; [exact S1|]. split; [|split; [exact S3 | exact S4]].
  intros c Hc Hex. rewrite Hc in S2. cbn [Forum.excluded] in S2.
  assert (E : existsb (key_eqb c) excluded_categories = true).
  { apply existsb_exists. exists c. split; [exact Hex | apply key_eqb_refl]. }
  congruence.
Qed.

(** ** The body of a private message *)

Lemma replace_go_In (old new : pystr) (skip : nat) (s : pystr) (c : cp) :
  In c (replace_go old new skip s) -> In c s \/ In c new.
Proof.
  revert skip. induction s as [|x t IH]; intros skip; cbn [replace_go];
    [tauto|].
  destruct skip as [|n].
  - destruct (startswith old (x :: t)).
    + rewrite in_app_iff. intros [H|H]; [now right|].
      destruct (IH _ H); [left; now right | now right].
    + intros [<-|H]; [left; now left|].
      destruct (IH _ H); [left; now right | now right].
  - intros H. destruct (IH _ H); [left; now right | now right].
Qed.

Lemma lstrip_by_In (f : cp -> bool) (s : pystr) (c : cp) :
  In c (lstrip_by f s) -> In c s.
Proof.
  induction s as [|x t IH]; cbn [lstrip_by]; [tauto|].
  destruct (f x); [intros H; right; now apply IH | tauto].
Qed.

Lemma strip_In (db : unicode_db) (s : pystr) (c : cp) :
  In c (strip db s) -> In c s.
Proof.
  unfold strip, rstrip, lstrip. intros H.
  apply in_rev in H. apply lstrip_by_In in H. apply in_rev in H.
  now apply lstrip_by_In in H.
Qed.

(** X21: the body of a private message as the text files show it
    holds no carriage return and no character of U+0080..U+009F, and
    when it is not empty it begins and ends with a character that is no
    whitespace. *)
Theorem message_body_clean (db : unicode_db) (body : pystr) :
  (forall c, In c (DM.message_body db body) ->
     c <> CR /\ Forum.remapped c = false)
  /\ forall d, DM.message_body db body <> [] ->
       is_space db (hd d (DM.message_body db body)) = false
       /\ is_space db (last (DM.message_body db body) d) = false.
Proof.
  split.
  - intros c Hc. unfold DM.message_body in Hc. cbv zeta in Hc.
    apply strip_In in Hc. apply replace_char_In in Hc.
    destruct Hc as [[Hc Hne]|Hc].
    + split; [exact Hne|].
      unfold replace in Hc. apply replace_go_In in Hc.
      destruct Hc as [Hc|[<-|[]]]; [|reflexivity].
      destruct (fix_is_replace_all body) as [_ E]. rewrite E in Hc.
      apply (proj1 (single_pass_facts body)). exact Hc.
    + destruct Hc as [Hc|[]]. subst c. split; [discriminate | reflexivity].
  - intros d. unfold DM.message_body. cbv zeta. apply strip_ends.
Qed.

(** ** Conversations, loaded and listed *)

(** Distinct identifiers stay distinct when some elements are dropped. *)
Lemma distinct_ids_kept (A B : Type) (id_of : A -> B) (keep : A -> bool)
    (xs : list A) :
  NoDup (map id_of xs) -> NoDup (map id_of (filter keep xs)).
Proof.
  intros Hxs. induction xs as [|x xs IH]; [exact Hxs|].
  cbn [map filter] in *. apply NoDup_cons_iff in Hxs as [Hx Hrest].
  destruct (keep x); [|exact (IH Hrest)].
  cbn [map]. apply NoDup_cons; [|exact (IH Hrest)].
  intros Hin. apply Hx. apply in_map_iff in Hin as [y [E Hy]].
  apply filter_In in Hy as [Hy _]. rewrite <- E. now apply in_map.
Qed.

Lemma load_conversation_data_flat
    (self_conversations : dict pykey DM.conversation)
    (batches : list (list DM.conversation)) :
  DM.load_conversation_data self_conversations batches
  = fold_left (fun d c => dict_set key_eqb (DM.cv_ConversationID c) c d)
      (List.concat batches) self_conversations.
Proof.
  unfold DM.load_conversation_data.
  apply (fold_left_concat _ _
           (fun d c => dict_set key_eqb (DM.cv_ConversationID c) c d)).
Qed.

Lemma loaded_conversation (batches : list (list DM.conversation))
    (k : pykey) (cv : DM.conversation) :
  In (k, cv) (DM.load_conversation_data [] batches) ->
  DM.cv_ConversationID cv = k
  /\ find (fun c => key_eqb k (DM.cv_ConversationID c))
          (List.rev (List.concat batches)) = Some cv.
Proof.
  rewrite load_conversation_data_flat. intros Hin.
  assert (Hnd : NoDup (dict_keys
            (fold_left
               (fun d c => dict_set key_eqb (DM.cv_ConversationID c) c d)
               (List.concat batches) []))).
  { apply (assignments_distinct _ _ key_eqb key_eqb_eq _
             DM.cv_ConversationID (fun c => c)).
    constructor. }
  apply (dict_get_entry _ _ key_eqb key_eqb_eq _ _ _ Hnd) in Hin.
  rewrite (assignments_last _ _ key_eqb key_eqb_eq _
             DM.cv_ConversationID (fun c => c)) in Hin.
  cbn [dict_get] in Hin.
  destruct (find (fun c => key_eqb k (DM.cv_ConversationID c))
              (List.rev (List.concat batches))) as [c|] eqn:F;
    [|discriminate].
  injection Hin as ->. split; [|reflexivity].
  apply find_some in F as [_ F]. apply key_eqb_eq in F. congruence.
Qed.

(** X22: conversations loaded and then listed for a user.  After
    [load_conversation_data] on an empty store every conversation is
    filed under its own ID and is the one read last with that ID; so
    the list [get_user_conversations] gives for a user names no
    conversation ID twice, and shows each conversation as it was read
    last. *)
Theorem user_conversations_distinct (batches : list (list DM.conversation))
    (self_messages : dict pykey (list DM.message)) (user_id : pykey) :
  let conversations := DM.load_conversation_data [] batches in
  let listed :=
    DM.get_user_conversations conversations self_messages user_id in
  NoDup (dict_keys conversations)
  /\ (forall k cv, In (k, cv) conversations -> DM.cv_ConversationID cv = k)
  /\ NoDup (map DM.cv_ConversationID listed)
  /\ forall cv, In cv listed ->
       find (fun c => key_eqb (DM.cv_ConversationID cv)
                        (DM.cv_ConversationID c))
            (List.rev (List.concat batches)) = Some cv.
Proof.
  cbv zeta.
  set (conversations := DM.load_conversation_data [] batches).
  assert (Hnd : NoDup (dict_keys conversations)).
  { unfold conversations. rewrite load_conversation_data_flat.
    apply (assignments_distinct _ _ key_eqb key_eqb_eq _
             DM.cv_ConversationID (fun c => c)).
    constructor. }
  assert (Hid : map DM.cv_ConversationID (map snd conversations)
                = dict_keys conversations).
  { unfold dict_keys. rewrite map_map. apply map_ext_in.
    intros [k cv] Hin. cbn [fst snd].
    now apply loaded_conversation in Hin as [E _]. }
  split; [exact Hnd|]. split.
  { intros k cv Hin. now apply loaded_conversation in Hin as [E _]. }
  unfold DM.get_user_conversations. split.
  - apply (Permutation_NoDup
             (l := map DM.cv_ConversationID
                     (filter (DM.contributes user_id)
                             (map snd conversations)))).
    + apply Permutation_map. symmetry. apply sort_by_desc_perm.
    + apply distinct_ids_kept. now rewrite Hid.
  - intros cv Hin.
    apply (Permutation_in _ (sort_by_desc_perm _ _ _)) in Hin.
    apply filter_In in Hin as [Hin _].
    apply in_map_iff in Hin as [[k cv'] [E Hin]]. cbn [snd] in E. subst cv'.
    apply loaded_conversation in Hin as [E F]. now rewrite E.
Qed.

(** ** The category name on the search page *)

(** X23: the search page and the discussion store can disagree on a
    category name.  For a discussion as [_load_discussions] stores it,
    the search page shows the category name stored with the discussion
    when the category ID is truthy, but [Uncategorized] when the
    discussion has no category ID or the ID is 0, whatever name the
    category store has for it. *)
Theorem search_page_category_name (excluded_categories : list pykey)
    (self_categories : dict pykey Forum.category)
    (files : list (option Forum.discussion_json))
    (k : pykey) (d : Forum.discussion_json) :
  In (k, d)
     (Forum._load_discussions excluded_categories self_categories [] files) ->
  (opt_truthy (Forum.dj_CategoryID d) = true ->
     Forum.dj_CategoryName d
     = Some (Forum.search_category_name self_categories
               (Forum.dj_CategoryID d)))
  /\ (opt_truthy (Forum.dj_CategoryID d) = false ->
        Forum.search_category_name self_categories (Forum.dj_CategoryID d)
        = py "Uncategorized").
Proof.
  intros Hin.
  destruct (load_discussions_store_facts excluded_categories self_categories
              files k d Hin) as [_ [_ [Hname _]]].
  rewrite Hname. unfold Forum.search_category_name, Forum.get_category_name.
  destruct (Forum.dj_CategoryID d) as [c|]; cbn [opt_truthy].
  - destruct (key_truthy c); split; intros H; try discriminate; reflexivity.
  - split; intros H; [discriminate | reflexivity].
Qed.

Lemma search_page_category_name_witness :
  Forum.search_category_name
    [(KInt 0%Z, {| Forum.cat_Name := py "General" |})] (Some (KInt 0%Z))
  = py "Uncategorized"
  /\ Forum.get_category_name
       [(KInt 0%Z, {| Forum.cat_Name := py "General" |})] (Some (KInt 0%Z))
     = py "General".
Proof.
  destruct (search_page_category_name []
              [(KInt 0%Z, {| Forum.cat_Name := py "General" |})]
              [Some {| Forum.dj_DiscussionID := Some (KInt 5%Z);
                       Forum.dj_CategoryID := Some (KInt 0%Z);
                       Forum.dj_Name := Some (py "Hello");
                       Forum.dj_Body := Some (py "First post");
                       Forum.dj_CategoryName := None |}]
              (KInt 5%Z) _ (or_introl eq_refl)) as [_ H].
  split; [exact (H eq_refl) | reflexivity].
Defined.

(** ** A mention inside plain text *)

Lemma break_lines_plain (s : pystr) :
  (forall c, In c s -> c <> CR /\ c <> LF) -> Forum.break_lines false s = s.
Proof.
  induction s as [|c t IH]; intros H; [reflexivity|].
  cbn [Forum.break_lines].
  destruct (H c (or_introl eq_refl)) as [H1 H2].
  apply N.eqb_neq in H1, H2. rewrite H1, H2. f_equal.
  apply IH. intros x Hx. apply H. now right.
Qed.

Lemma startswith_chars (p s : pystr) (x : cp) :
  startswith p s = true -> In x p -> In x s.
Proof.
  revert s. induction p as [|a p IH]; intros [|b s]; cbn [startswith In];
    try tauto; try discriminate.
  intros H. apply andb_true_iff in H as [H1 H2]. apply N.eqb_eq in H1.
  intros [<-|Hx]; [now left | right; now apply IH].
Qed.

(** Text occurs only in a text that holds all its characters. *)
Lemma occurs_chars (p s : pystr) (x : cp) :
  In x p -> ~ In x s -> Forum.occurs p s = false.
Proof.
  intros Hp. induction s as [|c t IH]; intros Hs; cbn [Forum.occurs].
  - rewrite orb_false_r.
    destruct (startswith p []) eqn:E; [|reflexivity].
    exfalso. apply Hs. exact (startswith_chars p [] x E Hp).
  - rewrite IH by (intros H; apply Hs; now right). rewrite orb_false_r.
    destruct (startswith p (c :: t)) eqn:E; [|reflexivity].
    exfalso. apply Hs. exact (startswith_chars p (c :: t) x E Hp).
Qed.

Section MentionMatch.
Variable r : regex.
Variable repl : caps -> pystr.

(** Before the first quotation mark nothing is a mention. *)
Lemma sub_go_before_mention (prefix rest : pystr) :
  ~ In DQ prefix ->
  sub_go (Cat (Lit (pyq "@`")) r) repl 0 (prefix ++ 64%N :: rest)
  = prefix ++ sub_go (Cat (Lit (pyq "@`")) r) repl 0 (64%N :: rest).
Proof.
  induction prefix as [|c q IH]; intros H; [reflexivity|].
  cbn [app]. cbn [sub_go].
  rewrite match_needs_literal.
  - f_equal. apply IH. intros Hin. apply H. now right.
  - change (pyq "@`") with [64%N; DQ]. cbn [startswith].
    destruct q as [|c' q']; cbn [app].
    + change (N.eqb DQ 64) with false. cbn. now rewrite andb_false_r.
    + assert (E : N.eqb DQ c' = false).
      { apply N.eqb_neq. intros <-. apply H. right. now left. }
      rewrite E. cbn. now rewrite andb_false_r.
Qed.

Lemma sub_go_match (c : cp) (t : pystr) (cs : caps) (n : nat) :
  match_at r (c :: t) = Some (cs, S n) ->
  sub_go r repl 0 (c :: t) = repl cs ++ sub_go r repl n t.
Proof. intros H. cbn [sub_go]. now rewrite H. Qed.

Lemma sub_go_skip (l rest : pystr) :
  sub_go r repl (List.length l) (l ++ rest) = sub_go r repl 0 rest.
Proof. induction l as [|c l IH]; [reflexivity | exact IH]. Qed.
End MentionMatch.

(** The greedy star takes all of a run that ends before a character
    outside the class, when the rest matches from there. *)
Lemma star_greedy_run (f : cp -> bool) (k : cont) (l : pystr) (x : cp)
    (rest : pystr) (pos : nat) (cs : caps) :
  (forall c, In c l -> f c = true) -> f x = false ->
  k (x :: rest) (pos + List.length l) cs <> None ->
  star_greedy f k (l ++ x :: rest) pos cs
    = k (x :: rest) (pos + List.length l) cs.
Proof.
  revert pos. induction l as [|c l IH]; intros pos Hl Hx Hk.
  - cbn [app star_greedy List.length]. rewrite Hx. now rewrite Nat.add_0_r.
  - cbn [app star_greedy List.length] in *.
    rewrite (Hl c (or_introl eq_refl)).
    rewrite Nat.add_succ_r in *.
    rewrite (IH (S pos)); [|intros y Hy; apply Hl; now right|exact Hx|exact Hk].
    cbn [Nat.add].
    destruct (k (x :: rest) (S (pos + List.length l)) cs); [reflexivity|].
    now elim Hk.
Qed.

Lemma match_mention (name suffix : pystr) :
  name <> [] -> ~ In DQ name ->
  exists cs n,
    match_at Forum.re_mention (pyq "@`" ++ name ++ DQ :: suffix)
      = Some (cs, n)
    /\ cs 1 = name /\ n = 3 + List.length name.
Proof.
  intros Hne Hq. destruct name as [|c name']; [congruence|].
  assert (Hf : forall y, In y (c :: name') -> Forum.none_of [DQ] y = true).
  { intros y Hy. unfold Forum.none_of. cbn [existsb].
    rewrite orb_false_r. apply negb_true_iff. apply N.eqb_neq.
    intros ->. now apply Hq. }
  assert (Hd : Forum.none_of [DQ] DQ = false) by reflexivity.
  unfold match_at, Forum.re_mention, Plus.
  change (pyq "@`") with [64%N; DQ]. change (pyq "`") with [DQ].
  cbn [mtch app startswith List.length skipn].
  rewrite !N.eqb_refl. cbn [andb].
  rewrite (Hf c (or_introl eq_refl)).
  rewrite star_greedy_run;
    [|intros y Hy; apply Hf; now right|exact Hd|];
    cbn [startswith]; rewrite N.eqb_refl; cbn [andb]; [|discriminate].
  eexists. eexists. split; [reflexivity|]. split; [|cbn; lia].
  unfold set_group. cbn [Nat.eqb].
  match goal with
  | |- firstn ?n _ = _ =>
      replace n with (S (List.length name')) by (cbn; lia)
  end.
  cbn [firstn]. f_equal.
  now rewrite firstn_app, Nat.sub_diag, firstn_all, app_nil_r.
Qed.

Lemma str_of_int_no_bracket (z : Z) : ~ In 91%N (str_of_int z).
Proof.
  assert (H : forall d, ~ In 91%N (uint_digits d)).
  { induction d as [|d IH|d IH|d IH|d IH|d IH|d IH|d IH|d IH|d IH|d IH];
      cbn [uint_digits In]; [tauto | ..];
      (intros [E|E]; [discriminate | now apply IH]). }
  unfold str_of_int. destruct (Z.to_int z); cbn [In].
  - apply H.
  - intros [E|E]; [discriminate | now apply H in E].
Qed.

(** X24: a quoted mention inside plain text.  In a body that holds one
    mention [@"name"] between two stretches of text without quotation
    marks, brackets and line breaks, the renderer leaves the text
    around the mention as it is and puts in the place of the mention
    the link to the page of the first member of exactly that name, when
    its ID is not 0, and the unknown-mention span otherwise. *)
Theorem render_mention_in_text (db : unicode_db) (self : Forum.converter)
    (prefix name suffix : pystr) (current_discussion_id : option pykey) :
  name <> [] ->
  (forall c, In c (prefix ++ name ++ suffix) ->
     c <> DQ /\ c <> 91%N /\ c <> CR /\ c <> LF) ->
  Forum.int_keyed (Forum.members self) ->
  Forum.convert_plush_bbcode db self
    (prefix ++ pyq "@`" ++ name ++ pyq "`" ++ suffix) current_discussion_id
  = prefix
    ++ match Forum.find_member name (Forum.members self) with
       | Some user_id =>
           if key_truthy user_id
           then Forum.mention_link (key_str user_id) name
           else Forum.unknown_mention name
       | None => Forum.unknown_mention name
       end
    ++ suffix.
Proof.
  intros Hne Hplain Hkeys.
  assert (Hp : forall c, In c prefix ->
            c <> DQ /\ c <> 91%N /\ c <> CR /\ c <> LF).
  { intros c Hc. apply Hplain. apply in_or_app. now left. }
  assert (Hn : forall c, In c name ->
            c <> DQ /\ c <> 91%N /\ c <> CR /\ c <> LF).
  { intros c Hc. apply Hplain. apply in_or_app. right.
    apply in_or_app. now left. }
  assert (Hs : forall c, In c suffix ->
            c <> DQ /\ c <> 91%N /\ c <> CR /\ c <> LF).
  { intros c Hc. apply Hplain. apply in_or_app. right.
    apply in_or_app. now right. }
  remember (prefix ++ pyq "@`" ++ name ++ pyq "`" ++ suffix) as text eqn:Etext.
  change (pyq "@`") with [64%N; DQ] in Etext.
  change (pyq "`") with [DQ] in Etext.
  assert (Htext : forall c, In c text ->
            c = 64%N \/ c = DQ \/ In c (prefix ++ name ++ suffix)).
  { intros c Hc. rewrite Etext in Hc. rewrite !in_app_iff in Hc.
    cbn [In] in Hc. rewrite !in_app_iff. intuition auto. }
  assert (Hbr : ~ In 91%N text).
  { intros Hc. apply Htext in Hc as [Hc|[Hc|Hc]]; try discriminate.
    now apply Hplain in Hc as [_ [Hc _]]. }
  assert (Hnl : forall c, In c text -> c <> CR /\ c <> LF).
  { intros c Hc. apply Htext in Hc as [->|[->|Hc]];
      [split; discriminate | split; discriminate |].
    now apply Hplain in Hc as [_ [_ Hc]]. }
  remember (match Forum.find_member name (Forum.members self) with
            | Some user_id =>
                if key_truthy user_id
                then Forum.mention_link (key_str user_id) name
                else Forum.unknown_mention name
            | None => Forum.unknown_mention name
            end) as shown eqn:Eshown.
  assert (Hshown : ~ In 91%N shown).
  { assert (Hlit : forall l : pystr, existsb (N.eqb 91) l = false ->
              ~ In 91%N l).
    { intros l E Hin. assert (T : existsb (N.eqb 91) l = true).
      { apply existsb_exists. exists 91%N. split; [exact Hin | reflexivity]. }
      congruence. }
    assert (Hname : ~ In 91%N name).
    { intros Hc. now apply Hn in Hc as [_ [Hc _]]. }
    rewrite Eshown.
    destruct (Forum.find_member name (Forum.members self)) as [uid|] eqn:F.
    - apply find_member_some in F.
      unfold Forum.int_keyed in Hkeys. rewrite Forall_forall in Hkeys.
      destruct (Hkeys _ F) as [z Hz]. cbn [fst] in Hz. subst uid.
      destruct (key_truthy (KInt z)).
      + unfold Forum.mention_link. rewrite !in_app_iff.
        intros [H|[H|[H|[H|H]]]].
        * revert H. now apply Hlit.
        * revert H. apply str_of_int_no_bracket.
        * revert H. now apply Hlit.
        * now apply Hname.
        * revert H. now apply Hlit.
      + unfold Forum.unknown_mention. rewrite !in_app_iff.
        intros [H|[H|H]].
        * revert H. now apply Hlit.
        * now apply Hname.
        * revert H. now apply Hlit.
    - unfold Forum.unknown_mention. rewrite !in_app_iff.
      intros [H|[H|H]].
      * revert H. now apply Hlit.
      * now apply Hname.
      * revert H. now apply Hlit. }
  assert (Hresult : ~ In 91%N (prefix ++ shown ++ suffix)).
  { rewrite !in_app_iff. intros [H|[H|H]].
    - now apply Hp in H as [_ [H _]].
    - now apply Hshown.
    - now apply Hs in H as [_ [H _]]. }
  assert (Hmention :
    sub (Forum.re_mention) (Forum._convert_user_mention self) text
    = prefix ++ shown ++ suffix).
  { unfold sub. rewrite Etext. cbn [app].
    unfold Forum.re_mention at 1.
    rewrite sub_go_before_mention
      by (intros Hc; now apply Hp in Hc as [Hc _]).
    f_equal. fold Forum.re_mention.
    destruct (match_mention name suffix Hne
                (fun Hc => proj1 (Hn _ Hc) eq_refl))
      as [cs [n [Hm [Hcs ->]]]].
    change (pyq "@`" ++ name ++ DQ :: suffix)
      with (64%N :: DQ :: name ++ DQ :: suffix) in Hm.
    rewrite (sub_go_match _ _ _ _ cs (2 + List.length name) Hm).
    cbn [Nat.add].
    f_equal.
    - unfold Forum._convert_user_mention. rewrite Eshown, Hcs.
      destruct (Forum.find_member name (Forum.members self));
        reflexivity.
    - change (DQ :: name ++ DQ :: suffix)
        with ((DQ :: name) ++ DQ :: suffix).
      replace ((DQ :: name) ++ DQ :: suffix)
        with (((DQ :: name) ++ [DQ]) ++ suffix)
        by (now rewrite <- app_assoc).
      replace (S (S (List.length name)))
        with (List.length ((DQ :: name) ++ [DQ]))
        by (rewrite length_app; cbn; lia).
      rewrite sub_go_skip.
      apply (sub_without_literal (pyq "@`")).
      apply (occurs_chars _ _ DQ); [right; now left|].
      intros Hc. now apply Hs in Hc as [Hc _]. }
  assert (Htruthy : str_truthy text = true).
  { rewrite Etext. destruct prefix; reflexivity. }
  unfold Forum.convert_plush_bbcode.
  rewrite Htruthy. cbn [negb]. cbv zeta.
  rewrite normalization_is_break_lines, (break_lines_plain text Hnl).
  unfold Forum.re_reply, Forum.re_complex_quote, Forum.re_named_quote,
    Forum.re_pair, Forum.re_url_text, Forum.re_ordered_list.
  repeat (rewrite (fun p r repl => sub_without_literal p r repl text);
          [|apply (occurs_chars _ _ 91%N); [cbn; auto 10 | exact Hbr]]).
  rewrite Hmention.
  repeat (rewrite (fun p r repl =>
                     sub_without_literal p r repl (prefix ++ shown ++ suffix));
          [|apply (occurs_chars _ _ 91%N); [cbn; auto 10 | exact Hresult]]).
  now rewrite Eshown.
Qed.

Lemma render_mention_in_text_witness :
  Forum.convert_plush_bbcode ascii_only Sample.store
    (pyq "thanks @`Bob` for this") None
  = py "thanks " ++ Forum.mention_link (py "7") (py "Bob")
      ++ py " for this".
Proof.
  assert (Hk : Forum.int_keyed (Forum.members Sample.store)).
  { unfold Forum.int_keyed. cbn. repeat constructor; eexists; reflexivity. }
  assert (Hplain : forall c,
            In c (py "thanks " ++ py "Bob" ++ py " for this") ->
            c <> DQ /\ c <> 91%N /\ c <> CR /\ c <> LF).
  { intros c Hc. cbn in Hc.
    repeat (destruct Hc as [<-|Hc]; [repeat split; discriminate|]).
    contradiction. }
  exact (render_mention_in_text ascii_only Sample.store
           (py "thanks ") (py "Bob") (py " for this") None
           ltac:(discriminate) Hplain Hk).
Defined.
